(** * RFM customer segmentation: a shallow embedding of
      [customer_segmentation.py] and the properties of its pipeline.

    The script is a linear pandas pipeline:
    [data_preprocess] (drop nulls in place, drop cancellations, clip
    outliers, add [TotalPrice]) followed by [create_segment_dataframe]
    (group by customer, filter, quintile scores, RF code, segment label).

    Modelling conventions
    - A pandas [float64] is an exact rational ([Q]); [NaN]/[None]/[NaT] is
      [None] in an [option].  Comparisons go through [Qle_bool]/[Qeq_bool],
      so two representations of one rational are never told apart.  The
      integer column [Quantity] is a float column from the start: pandas
      upcasts it when a fence is written into it.
    - Rounding is not modelled: sums, products and interpolations are
      exact.  A statement about the script must not depend on the last
      bits of such a result: in binary floating point the sum of the
      [TotalPrice] of a customer depends on the order of the lines, the
      levels of [np.linspace] are the doubles next to [k/5], and an
      interpolated bin edge can round onto a value it lies next to.  The
      theorems on the segmenter are stated on equal values, on whole
      numbers (Recency, ranks) and on the position of an edge between its
      two neighbouring values, which rounding does not change.
    - A timestamp is a number of seconds since 1970-01-01 ([Z]).
    - A DataFrame is its list of rows, in row order, plus the optional
      [TotalPrice] column that line 113 of the script adds.
    - DataFrames are mutable objects: they live in a heap ([gmap]) and the
      functions of the script receive and return references. *)

From stdpp Require Import gmap.
From Stdlib Require Import ZArith QArith Qround Lia Lqa List String Ascii Bool.
From Stdlib Require Import Permutation Sorted DecimalString.
Import ListNotations.

Open Scope string_scope.

(* ===================================================================== *)
(** ** Regular expressions, as far as the script uses them               *)
(* ===================================================================== *)

Module Re.

(** The patterns of the script are sequences of literal characters and
    one-character classes [[a-b]]. *)
Inductive atom : Type :=
| Lit (c : ascii)
| Range (lo hi : ascii).

Definition pattern := list atom.

(** [re.compile]: reads the pattern text. *)
Fixpoint compile (s : string) : pattern :=
  match s with
  | EmptyString => []
  | String "[" (String lo (String "-" (String hi (String "]" rest)))) =>
      Range lo hi :: compile rest
  | String c rest => Lit c :: compile rest
  end.

Definition atom_matches (a : atom) (c : ascii) : bool :=
  match a with
  | Lit d => Ascii.eqb d c
  | Range lo hi =>
      (nat_of_ascii lo <=? nat_of_ascii c)%nat
      && (nat_of_ascii c <=? nat_of_ascii hi)%nat
  end.

(** Match the whole pattern at the start of [s]; the rest of [s] is
    returned on success. *)
Fixpoint match_here (p : pattern) (s : string) : option string :=
  match p with
  | [] => Some s
  | a :: p' =>
      match s with
      | EmptyString => None
      | String c s' => if atom_matches a c then match_here p' s' else None
      end
  end.

(** [re.search]: is there a position of [s] where the pattern matches? *)
Fixpoint search (p : pattern) (s : string) : bool :=
  match match_here p s with
  | Some _ => true
  | None =>
      match s with
      | EmptyString => false
      | String _ s' => search p s'
      end
  end.

(** [re.sub] for the non-empty fixed-width patterns above: every
    non-overlapping match, leftmost first, is replaced by [repl].
    [skip] counts the characters of a match still to be consumed. *)
Fixpoint sub_from (p : pattern) (repl : string) (skip : nat) (s : string)
  : string :=
  match s with
  | EmptyString => EmptyString
  | String c s' =>
      match skip with
      | S k => sub_from p repl k s'
      | O =>
          match match_here p s with
          | Some _ => repl ++ sub_from p repl (List.length p - 1) s'
          | None => String c (sub_from p repl 0 s')
          end
      end
  end.

Definition sub (p : pattern) (repl : string) (s : string) : string :=
  sub_from p repl 0 s.

End Re.

(** [Series.str.contains(pat, na=na)] on one cell: a regular-expression
    search on a string, [na] on a missing value. *)
Definition str_contains (pat : string) (na : bool) (cell : option string) : bool :=
  match cell with
  | Some s => Re.search (Re.compile pat) s
  | None => na
  end.

(** [Series.replace(d, regex=True)] on one cell.  pandas first computes,
    for every key of the dict in order, the mask of the cells that the key
    matches ([re.search] on the values as they were before any
    replacement), then walks the keys in order and rewrites the masked
    cells with [re.sub]. *)
Definition replace_regex (d : list (string * string)) (s : string) : string :=
  fold_left
    (fun cur kv =>
       if Re.search (Re.compile (fst kv)) s
       then Re.sub (Re.compile (fst kv)) (snd kv) cur
       else cur)
    d s.

(* ===================================================================== *)
(** ** Segment map (lines 159-173)                                        *)
(* ===================================================================== *)

Definition segment_map : list (string * string) :=
  [ ("[1-2][1-2]", "Hibernating");
    ("[1-2][3-4]", "At Risk");
    ("[1-2]5", "Can't Lose");
    ("3[1-2]", "About to Sleep");
    ("33", "Need Attention");
    ("[3-4][4-5]", "Loyal Customer");
    ("41", "Promising");
    ("51", "New Customer");
    ("[4-5][2-3]", "Potential Loyalist");
    ("5[4-5]", "Champion") ].

(** [str(n)] for an integer. *)
Definition str (n : Z) : string := NilZero.string_of_int (Z.to_int n).

(** [astype(str)] on a cell of a categorical column with integer
    categories: a missing category prints as ["nan"]. *)
Definition astype_str (c : option Z) : string :=
  match c with
  | Some n => str n
  | None => "nan"
  end.

(** Line 156. *)
Definition RF_Score_of (recency_score frequency_score : option Z) : string :=
  astype_str recency_score ++ astype_str frequency_score.

(** Line 173. *)
Definition CustomerSegment_of (rf_score : string) : string :=
  replace_regex segment_map rf_score.

(** The table of section 4.4 of the specification, read as the
    specification words it: ordered rules over the pair (recency,
    frequency), the first rule that matches decides. *)
Module SpecTable.

Definition among (x : Z) (l : list Z) : bool := existsb (Z.eqb x) l.

Definition rules : list ((list Z * list Z) * string) :=
  [ (([1; 2], [1; 2]), "Hibernating");
    (([1; 2], [3; 4]), "At Risk");
    (([1; 2], [5]), "Can't Lose");
    (([3], [1; 2]), "About to Sleep");
    (([3], [3]), "Need Attention");
    (([3; 4], [4; 5]), "Loyal Customer");
    (([4], [1]), "Promising");
    (([5], [1]), "New Customer");
    (([4; 5], [2; 3]), "Potential Loyalist");
    (([5], [4; 5]), "Champion") ]%Z.

Definition rule_matches (r f : Z) (rule : (list Z * list Z) * string) : bool :=
  among r (fst (fst rule)) && among f (snd (fst rule)).

Definition first_match (r f : Z) : option string :=
  option_map snd (List.find (rule_matches r f) rules).

End SpecTable.


(* ===================================================================== *)
(** ** Floats with NaN and the Series operations of the script            *)
(* ===================================================================== *)

Open Scope Q_scope.

(** A [float64] cell: a rational, or NaN. *)
Definition float := option Q.

Definition nan_lift2 (op : Q -> Q -> Q) (a b : float) : float :=
  match a, b with
  | Some x, Some y => Some (op x y)
  | _, _ => None
  end.

Definition fsub : float -> float -> float := nan_lift2 Qminus.
Definition fadd : float -> float -> float := nan_lift2 Qplus.
Definition fmul : float -> float -> float := nan_lift2 Qmult.

Definition Qlt_bool (a b : Q) : bool := negb (Qle_bool b a).

(** Comparisons with NaN are false. *)
Definition flt (a b : float) : bool :=
  match a, b with
  | Some x, Some y => Qlt_bool x y
  | _, _ => false
  end.

Definition fgt (a b : float) : bool := flt b a.

(** [Series.dropna()], as a list of the values present. *)
Fixpoint present {A : Type} (xs : list (option A)) : list A :=
  match xs with
  | [] => []
  | Some x :: xs' => x :: present xs'
  | None :: xs' => present xs'
  end.

(** Ascending sort of float values. *)
Fixpoint insert_sorted (x : Q) (l : list Q) : list Q :=
  match l with
  | [] => [x]
  | y :: l' => if Qle_bool x y then x :: l else y :: insert_sorted x l'
  end.

Fixpoint sort_values (l : list Q) : list Q :=
  match l with
  | [] => []
  | x :: l' => insert_sorted x (sort_values l')
  end.

(** The value of an ascending list [s] at a fractional position [pos]:
    linear interpolation between the two neighbours of the position. *)
Definition at_position (s : list Q) (pos : Q) : Q :=
  let j := Qfloor pos in
  let g := pos - inject_Z j in
  let lo := nth (Z.to_nat j) s 0 in
  let hi := nth (Nat.min (Z.to_nat j + 1) (List.length s - 1)) s 0 in
  lo + (hi - lo) * g.

(** Linear-interpolation quantile of a non-empty ascending list [s] of
    [n] values: the value at position [(n-1)*q]. *)
Definition interpolate_linear (s : list Q) (q : Q) : Q :=
  at_position s (inject_Z (Z.of_nat (List.length s) - 1) * q).

(** [Series.quantile(q)]: missing values are skipped; NaN on an empty
    Series. *)
Definition quantile (x : list float) (q : Q) : float :=
  match present x with
  | [] => None
  | v :: vs => Some (interpolate_linear (sort_values (v :: vs)) q)
  end.

(* ===================================================================== *)
(** ** Data model                                                         *)
(* ===================================================================== *)

(** One row of the input file; every cell may be missing. *)
Record TransactionLine : Type := mkLine {
  InvoiceNo : option string;
  StockCode : option string;
  Description : option string;
  Quantity : float;
  InvoiceDate : option Z;
  UnitPrice : float;
  CustomerID : float;
  Country : option string
}.

(** A DataFrame over the input columns, with the derived column
    [TotalPrice] once it has been added. *)
Record DataFrame : Type := mkFrame {
  rows : list TransactionLine;
  TotalPrice : option (list float)
}.

#[export] Instance DataFrame_inhabited : Inhabited DataFrame :=
  populate (mkFrame [] None).

(** The two columns that are clipped. *)
Inductive variable : Type := col_Quantity | col_UnitPrice.

Definition cell (v : variable) (r : TransactionLine) : float :=
  match v with
  | col_Quantity => Quantity r
  | col_UnitPrice => UnitPrice r
  end.

Definition set_cell (v : variable) (x : float) (r : TransactionLine)
  : TransactionLine :=
  match v with
  | col_Quantity =>
      mkLine (InvoiceNo r) (StockCode r) (Description r) x (InvoiceDate r)
             (UnitPrice r) (CustomerID r) (Country r)
  | col_UnitPrice =>
      mkLine (InvoiceNo r) (StockCode r) (Description r) (Quantity r)
             (InvoiceDate r) x (CustomerID r) (Country r)
  end.

(** [dataframe[variable]] *)
Definition getitem (df : DataFrame) (v : variable) : list float :=
  map (cell v) (rows df).

(** Keep the positions where the mask holds. *)
Fixpoint select {A : Type} (mask : list bool) (l : list A) : list A :=
  match mask, l with
  | m :: mask', x :: l' => if m then x :: select mask' l' else select mask' l'
  | _, _ => []
  end.

(** [dataframe[mask]]: a new frame with the selected rows. *)
Definition getitem_mask (df : DataFrame) (mask : list bool) : DataFrame :=
  mkFrame (select mask (rows df)) (option_map (select mask) (TotalPrice df)).

Definition is_null {A : Type} (c : option A) : bool :=
  match c with Some _ => false | None => true end.

Definition line_has_null (r : TransactionLine) : bool :=
  is_null (InvoiceNo r) || is_null (StockCode r) || is_null (Description r)
  || is_null (Quantity r) || is_null (InvoiceDate r) || is_null (UnitPrice r)
  || is_null (CustomerID r) || is_null (Country r).

(** Per row: is any cell of the row missing ([isnull().any(axis=1)])? *)
Fixpoint any_null (ls : list TransactionLine) (extra : option (list float))
  : list bool :=
  match ls with
  | [] => []
  | r :: ls' =>
      match extra with
      | None => line_has_null r :: any_null ls' None
      | Some [] => line_has_null r :: any_null ls' (Some [])
      | Some (t :: ts) => (line_has_null r || is_null t) :: any_null ls' (Some ts)
      end
  end.

(** [dataframe.dropna()], as a function on the frame's content. *)
Definition dropna (df : DataFrame) : DataFrame :=
  getitem_mask df (map negb (any_null (rows df) (TotalPrice df))).

(** [dataframe.loc[mask, variable] = value] *)
Fixpoint assign_where (mask : list bool) (v : variable) (x : float)
  (ls : list TransactionLine) : list TransactionLine :=
  match mask, ls with
  | m :: mask', r :: ls' =>
      (if m then set_cell v x r else r) :: assign_where mask' v x ls'
  | _, _ => ls
  end.

Definition loc_setitem (df : DataFrame) (mask : list bool) (v : variable)
  (x : float) : DataFrame :=
  mkFrame (assign_where mask v x (rows df)) (TotalPrice df).

(** [dataframe["Quantity"] * dataframe["UnitPrice"]] *)
Fixpoint mul_series (a b : list float) : list float :=
  match a, b with
  | x :: a', y :: b' => fmul x y :: mul_series a' b'
  | _, _ => []
  end.

(** [dataframe["TotalPrice"] = col] *)
Definition setitem_TotalPrice (df : DataFrame) (col : list float) : DataFrame :=
  mkFrame (rows df) (Some col).

(* ===================================================================== *)
(** ** The heap of DataFrames                                             *)
(* ===================================================================== *)

Definition loc := positive.

(** A computation that reads and writes the heap. *)
Definition State (A : Type) : Type :=
  gmap loc DataFrame -> A * gmap loc DataFrame.

Definition ret {A : Type} (a : A) : State A := fun h => (a, h).

Definition bind {A B : Type} (m : State A) (k : A -> State B) : State B :=
  fun h => let (a, h') := m h in k a h'.

Notation "'do' x <- m ; k" := (bind m (fun x => k))
  (at level 10, x pattern, m at level 100, k at level 200).
Notation "m ;; k" := (bind m (fun _ => k))
  (at level 100, k at level 200, right associativity).

(** Read the object behind a reference. *)
Definition deref (l : loc) : State DataFrame := fun h => (h !!! l, h).

(** Update the object behind a reference in place. *)
Definition modify (l : loc) (f : DataFrame -> DataFrame) : State unit :=
  fun h => (tt, <[l := f (h !!! l)]> h).

(** A new object. *)
Definition alloc (df : DataFrame) : State loc :=
  fun h => let l := fresh (dom h) in (l, <[l := df]> h).

(* ===================================================================== *)
(** ** Preprocessor (lines 39-114)                                        *)
(* ===================================================================== *)

Definition find_thresholds (dataframe : loc) (v : variable)
  : State (float * float) :=
  do df <- deref dataframe;
  let q1 := quantile (getitem df v) (1 # 4) in
  let q3 := quantile (getitem df v) (3 # 4) in
  let q_range := fsub q3 q1 in
  let low_limit := fsub q1 (fmul (Some (3 # 2)) q_range) in
  let up_limit := fadd q3 (fmul (Some (3 # 2)) q_range) in
  ret (low_limit, up_limit).

Definition replace_with_thresholds (dataframe : loc) (v : variable)
  : State unit :=
  do lims <- find_thresholds dataframe v;
  let low_limit := fst lims in
  let up_limit := snd lims in
  modify dataframe (fun df =>
    loc_setitem df (map (fun x => flt x low_limit) (getitem df v)) v low_limit) ;;
  modify dataframe (fun df =>
    loc_setitem df (map (fun x => fgt x up_limit) (getitem df v)) v up_limit).

(** [dataframe["InvoiceNo"].str.contains("C", na=False)] *)
Definition cancelled (df : DataFrame) : list bool :=
  map (fun r => str_contains "C" false (InvoiceNo r)) (rows df).

Definition data_preprocess (dataframe : loc) : State loc :=
  modify dataframe dropna ;;
  do df <- deref dataframe;
  do dataframe <- alloc (getitem_mask df (map negb (cancelled df)));
  replace_with_thresholds dataframe col_Quantity ;;
  replace_with_thresholds dataframe col_UnitPrice ;;
  modify dataframe (fun df =>
    setitem_TotalPrice df
      (mul_series (getitem df col_Quantity) (getitem df col_UnitPrice))) ;;
  ret dataframe.


(* ===================================================================== *)
(** ** The cleaned table, as [create_segment_dataframe] reads it          *)
(* ===================================================================== *)

(** [create_segment_dataframe] reads four columns of the frame that
    [data_preprocess] returns.  That frame has no missing cell (see
    [data_preprocess_cleaned] below), so a row of it is modelled with
    total fields. *)
Record CleanedLine : Type := mkCleaned {
  cInvoiceNo : string;
  cInvoiceDate : Z;
  cCustomerID : Q;
  cTotalPrice : Q
}.

Definition cleaned_line (r : TransactionLine) (t : float) : option CleanedLine :=
  match InvoiceNo r, InvoiceDate r, CustomerID r, t with
  | Some i, Some d, Some c, Some p => Some (mkCleaned i d c p)
  | _, _, _, _ => None
  end.

Fixpoint cleaned_lines (ls : list TransactionLine) (ts : list float)
  : option (list CleanedLine) :=
  match ls, ts with
  | [], [] => Some []
  | r :: ls', t :: ts' =>
      match cleaned_line r t, cleaned_lines ls' ts' with
      | Some c, Some cs => Some (c :: cs)
      | _, _ => None
      end
  | _, _ => None
  end.

(** The view of a frame as a cleaned table: defined when the
    [TotalPrice] column is there and no cell that is read is missing. *)
Definition as_cleaned (df : DataFrame) : option (list CleanedLine) :=
  match TotalPrice df with
  | Some ts => cleaned_lines (rows df) ts
  | None => None
  end.

(* ===================================================================== *)
(** ** Aggregator (lines 119-148)                                         *)
(* ===================================================================== *)

Open Scope Z_scope.

(** Days from 1970-01-01 to a date of the proleptic Gregorian calendar. *)
Definition days_from_civil (y m d : Z) : Z :=
  let y' := if m <=? 2 then y - 1 else y in
  let era := y' / 400 in
  let yoe := y' - era * 400 in
  let mp := (m + 9) mod 12 in
  let doy := (153 * mp + 2) / 5 + d - 1 in
  let doe := yoe * 365 + yoe / 4 - yoe / 100 + doy in
  era * 146097 + doe - 719468.

(** [dt.datetime(y, m, d)], in seconds. *)
Definition datetime (y m d : Z) : Z := days_from_civil y m d * 86400.

(** Line 121. *)
Definition todays_date : Z := datetime 2011 12 11.

(** [timedelta.days]: whole days, rounded down. *)
Definition days (timedelta : Z) : Z := timedelta / 86400.

(** [Series.max()] of a non-empty group. *)
Definition series_max (l : list Z) : Z :=
  match l with
  | [] => 0
  | x :: l' => fold_left Z.max l' x
  end.

(** Distinct strings, first occurrences kept. *)
Fixpoint unique_str (l : list string) : list string :=
  match l with
  | [] => []
  | x :: l' => x :: List.filter (fun y => negb (String.eqb x y)) (unique_str l')
  end.

(** [Series.nunique()] *)
Definition nunique (l : list string) : Z := Z.of_nat (List.length (unique_str l)).

(** [Series.sum()], as the exact sum of the values in row order. *)
Definition series_sum (l : list Q) : Q := fold_left Qplus l 0%Q.

(** Distinct floats, first occurrences kept. *)
Fixpoint unique (l : list Q) : list Q :=
  match l with
  | [] => []
  | x :: l' => x :: List.filter (fun y => negb (Qeq_bool x y)) (unique l')
  end.

(** One row of [rfm] after line 145. *)
Record CustomerRecord : Type := mkRecord {
  customer : Q;
  Recency : Z;
  Frequency : Z;
  Monetary : Q
}.

(** The group keys of [groupby("CustomerID")], ascending. *)
Definition groupby_keys (dataframe : list CleanedLine) : list Q :=
  sort_values (unique (map cCustomerID dataframe)).

(** The rows of one group, in row order. *)
Definition group (dataframe : list CleanedLine) (key : Q) : list CleanedLine :=
  List.filter (fun r => Qeq_bool (cCustomerID r) key) dataframe.

(** Lines 141-145: the three aggregations on one group. *)
Definition agg (key : Q) (g : list CleanedLine) : CustomerRecord :=
  mkRecord key
    (days (todays_date - series_max (map cInvoiceDate g)))
    (nunique (map cInvoiceNo g))
    (series_sum (map cTotalPrice g)).

Definition groupby_agg (dataframe : list CleanedLine) : list CustomerRecord :=
  map (fun key => agg key (group dataframe key)) (groupby_keys dataframe).

(** Lines 141-148: [rfm] as it stands before scoring. *)
Definition aggregate (dataframe : list CleanedLine) : list CustomerRecord :=
  List.filter (fun r => Qlt_bool 0 (Monetary r)) (groupby_agg dataframe).

(* ===================================================================== *)
(** ** Segmenter (lines 150-176)                                          *)
(* ===================================================================== *)

Inductive error : Type :=
| ValueError (msg : string)
| KeyError (key : string).

Definition Result (A : Type) : Type := (error + A)%type.

Definition and_then {A B : Type} (m : Result A) (k : A -> Result B) : Result B :=
  match m with
  | inl e => inl e
  | inr a => k a
  end.

Notation "'try' x <- m ; k" := (and_then m (fun x => k))
  (at level 10, x pattern, m at level 100, k at level 200).

(** [np.linspace(0, 1, q + 1)], as the exact levels [k/q]. *)
Definition linspace (q : nat) : list Q :=
  map (fun k => (inject_Z (Z.of_nat k) / inject_Z (Z.of_nat q))%Q) (seq 0 (S q)).

(** Does some value occur twice? *)
Fixpoint has_duplicates (l : list Q) : bool :=
  match l with
  | [] => false
  | x :: l' => existsb (Qeq_bool x) l' || has_duplicates l'
  end.

(** [bins.searchsorted(x, side="left")] on ascending [bins]: the number
    of edges strictly below [x]. *)
Definition searchsorted_left (bins : list Q) (x : Q) : nat :=
  List.length (List.filter (fun e => Qlt_bool e x) bins).

(** The bin number of one value: the position found by [searchsorted],
    except that [include_lowest] puts the first edge in bin 1. *)
Definition bin_index (bins : list Q) (x : Q) : nat :=
  let ids := searchsorted_left bins x in
  if Qeq_bool x (hd 0%Q bins) then 1%nat else ids.

(** The category of one value: a value outside all bins has none,
    otherwise it is [labels[ids - 1]]. *)
Definition bin_of (bins : list Q) (labels : list Z) (x : Q) : option Z :=
  let ids := bin_index bins x in
  if (ids =? 0)%nat || (ids =? List.length bins)%nat then None
  else nth_error labels (ids - 1).

(** [pd.qcut(x, q, labels=labels)] on a Series without missing values:
    the edges are the quantiles at [linspace q], interpolated exactly;
    equal edges raise.  On an empty Series all edges are NaN, which are
    equal edges too. *)
Definition qcut (x : list Q) (q : nat) (labels : list Z)
  : Result (list (option Z)) :=
  match x with
  | [] => inl (ValueError "Bin edges must be unique")
  | _ =>
      let bins := map (interpolate_linear (sort_values x)) (linspace q) in
      if has_duplicates bins && negb (List.length bins =? 2)%nat
      then inl (ValueError "Bin edges must be unique")
      else inr (map (bin_of bins labels) x)
  end.

(** The number of elements that satisfy [f]. *)
Definition count_if {A : Type} (f : A -> bool) (l : list A) : Z :=
  Z.of_nat (List.length (List.filter f l)).

(** [Series.rank(method="first")]: one plus the number of smaller values,
    plus the number of equal values seen earlier. *)
Fixpoint rank_first_from (all before l : list Z) : list Q :=
  match l with
  | [] => []
  | x :: l' =>
      inject_Z (1 + count_if (fun y => y <? x) all + count_if (Z.eqb x) before)
      :: rank_first_from all (x :: before) l'
  end.

Definition rank_first (l : list Z) : list Q := rank_first_from l [] l.

(** One row of the returned frame. *)
Record ScoredCustomer : Type := mkScored {
  index : Z;
  metrics : CustomerRecord;
  RecencyScore : option Z;
  FrequencyScore : option Z;
  MonetaryScore : option Z;
  RF_Score : string;
  CustomerSegment : string
}.

(** [astype(int)] on a float: truncation toward zero. *)
Definition astype_int (x : Q) : Z := Z.quot (Qnum x) (Zpos (Qden x)).

(** Lines 156-175 on one row, given its three scores. *)
Definition segment_row (r : CustomerRecord) (rs fs ms : option Z)
  : ScoredCustomer :=
  let rf := RF_Score_of rs fs in
  mkScored (astype_int (customer r)) r rs fs ms rf (CustomerSegment_of rf).

Fixpoint segment_rows (rfm : list CustomerRecord) (rs fs ms : list (option Z))
  : list ScoredCustomer :=
  match rfm, rs, fs, ms with
  | r :: rfm', a :: rs', b :: fs', c :: ms' =>
      segment_row r a b c :: segment_rows rfm' rs' fs' ms'
  | _, _, _, _ => []
  end.

(** Lines 150-176. *)
Definition score (rfm : list CustomerRecord) : Result (list ScoredCustomer) :=
  try recency_score <-
    qcut (map (fun r => inject_Z (Recency r)) rfm) 5 [5; 4; 3; 2; 1];
  try frequency_score <-
    qcut (rank_first (map Frequency rfm)) 5 [1; 2; 3; 4; 5];
  try monetary_score <-
    qcut (map Monetary rfm) 5 [1; 2; 3; 4; 5];
  inr (segment_rows rfm recency_score frequency_score monetary_score).

Definition create_segment_dataframe (dataframe : list CleanedLine)
  : Result (list ScoredCustomer) :=
  score (aggregate dataframe).

(** Lines 117 and 179: the script, from the loaded frame [df] to [rfm].
    A frame that cannot be read as a cleaned table stops the script; the
    frame that [data_preprocess] returns always can (see [main_runs]). *)
Definition main (df : loc) : State (Result (list ScoredCustomer)) :=
  do df <- data_preprocess df;
  do frame <- deref df;
  ret (match as_cleaned frame with
       | Some t => create_segment_dataframe t
       | None => inl (KeyError "TotalPrice")
       end).


(** [df_.copy()] (line 29): a new object with the same content. *)
Definition copy (l : loc) : State loc :=
  do df <- deref l;
  alloc df.

(** Lines 29, 117 and 179: the script from the loaded frame [df_]. *)
Definition script (df_ : loc) : State (Result (list ScoredCustomer)) :=
  do df <- copy df_;
  main df.

(** The cells of a line that the preprocessor never writes. *)
Definition identity_columns (r : TransactionLine)
  : option string * option string * option string * option Z * float
    * option string :=
  (InvoiceNo r, StockCode r, Description r, InvoiceDate r, CustomerID r,
   Country r).

(* ===================================================================== *)
(** ** The preprocessing steps as the specification words them            *)
(* ===================================================================== *)

(** Section 4.2 of the specification, row by row: drop rows with a null
    field, drop cancellations, clamp [quantity] then [unitPrice] to their
    Tukey fences, derive [lineTotal]. *)
Module SpecPreprocess.

Definition drop_null_rows (t : list TransactionLine) : list TransactionLine :=
  List.filter (fun r => negb (line_has_null r)) t.

Definition drop_cancellations (t : list TransactionLine)
  : list TransactionLine :=
  List.filter (fun r => negb (str_contains "C" false (InvoiceNo r))) t.

Definition lowLimit (xs : list float) : float :=
  let Q1 := quantile xs (1 # 4) in
  let Q3 := quantile xs (3 # 4) in
  fsub Q1 (fmul (Some (3 # 2)) (fsub Q3 Q1)).

Definition upLimit (xs : list float) : float :=
  let Q1 := quantile xs (1 # 4) in
  let Q3 := quantile xs (3 # 4) in
  fadd Q3 (fmul (Some (3 # 2)) (fsub Q3 Q1)).

Definition clamp (lo hi x : float) : float :=
  if flt x lo then lo else if fgt x hi then hi else x.

Definition clip (v : variable) (t : list TransactionLine)
  : list TransactionLine :=
  let xs := map (cell v) t in
  map (fun r => set_cell v (clamp (lowLimit xs) (upLimit xs) (cell v r)) r) t.

Definition lineTotal (r : TransactionLine) : float :=
  fmul (Quantity r) (UnitPrice r).

Definition filtered (t : list TransactionLine) : list TransactionLine :=
  drop_cancellations (drop_null_rows t).

Definition cleaned (t : list TransactionLine) : list TransactionLine :=
  clip col_UnitPrice (clip col_Quantity (filtered t)).

Definition preprocess (t : list TransactionLine) : DataFrame :=
  mkFrame (cleaned t) (Some (map lineTotal (cleaned t))).

End SpecPreprocess.

(* ===================================================================== *)
(** ** The heap content after the preprocessor, in closed form            *)
(* ===================================================================== *)

(** The content of a frame after [replace_with_thresholds]. *)
Definition clipped (v : variable) (df : DataFrame) : DataFrame :=
  let xs := getitem df v in
  let low_limit := SpecPreprocess.lowLimit xs in
  let up_limit := SpecPreprocess.upLimit xs in
  let df1 := loc_setitem df (map (fun x => flt x low_limit) xs) v low_limit in
  loc_setitem df1 (map (fun x => fgt x up_limit) (getitem df1 v)) v up_limit.

(** The content of the frame that [data_preprocess] returns. *)
Definition preprocessed (df : DataFrame) : DataFrame :=
  let df1 := getitem_mask (dropna df) (map negb (cancelled (dropna df))) in
  let df2 := clipped col_UnitPrice (clipped col_Quantity df1) in
  setitem_TotalPrice df2
    (mul_series (getitem df2 col_Quantity) (getitem df2 col_UnitPrice)).

(* ===================================================================== *)
(** ** Notions used in the statements                                     *)
(* ===================================================================== *)

(** No two positions of the list hold the same number. *)
Definition distinct (l : list Q) : Prop :=
  ForallOrdPairs (fun a b => ~ (a == b)%Q) l.

(** The [k]-th of the six quintile edges of an ascending list. *)
Definition edge (s : list Q) (k : nat) : Q :=
  interpolate_linear s (inject_Z (Z.of_nat k) / inject_Z (Z.of_nat 5))%Q.

(** The rank of a value [x] that comes after the values [before] in the
    Series [all]. *)
Definition rankZ (all before : list Z) (x : Z) : Z :=
  (1 + count_if (fun y => y <? x) all + count_if (Z.eqb x) before)%Z.

(** Is the score the integer [b]? *)
Definition has_score (c : option Z) (b : Z) : bool :=
  match c with
  | Some v => Z.eqb v b
  | None => false
  end.

(** The six edges that [qcut] computes for a Series [x] and [q = 5]. *)
Definition quintile_edges (x : list Q) : list Q :=
  map (edge (sort_values x)) (seq 0 6).

(** Order on scores; a missing score is not comparable. *)
Definition score_le (a b : option Z) : Prop :=
  match a, b with
  | Some x, Some y => (x <= y)%Z
  | _, _ => False
  end.

(** Two records that describe the same customer with the same Recency
    and Frequency. *)
Definition same_recency_frequency (a b : CustomerRecord) : Prop :=
  (customer a == customer b)%Q /\ Recency a = Recency b
  /\ Frequency a = Frequency b.

(** The value [v] lies in the [k]-th of the five bins that the ascending
    edges [e] delimit: above edge [k-1] and not above edge [k]; the first
    bin includes its lower edge. *)
Definition in_bin (e : list Q) (k : Z) (v : Q) : Prop :=
  (if (k =? 1)%Z then nth 0 e 0 <= v else nth (Z.to_nat (k - 1)) e 0 < v)%Q
  /\ (v <= nth (Z.to_nat k) e 0)%Q.

(** In the ascending values [s], ranks counted from 0, one value fills
    the ranks from the position of edge [k], rounded down, to the rank
    after the position of edge [k+1]: the values at both ends are equal. *)
Definition run_across (s : list Q) (k : nat) : Prop :=
  let n := List.length s in
  let lo := Z.to_nat ((Z.of_nat n - 1) * Z.of_nat k / 5) in
  let hi := Nat.min (Z.to_nat ((Z.of_nat n - 1) * Z.of_nat (S k) / 5) + 1)
                    (n - 1) in
  (nth lo s 0 == nth hi s 0)%Q.

(** Six ascending bin edges [e] of a Series whose values, in ascending
    order, are [s]: the first edge is the least value, the last edge the
    greatest, and the [k]-th lies between the two values next to position
    [(n-1)*k/5]. *)
Definition between_neighbours (s e : list Q) : Prop :=
  List.length e = 6%nat
  /\ (forall k, (k < 5)%nat -> nth k e 0 < nth (S k) e 0)%Q
  /\ (nth 0 e 0 == nth 0 s 0)%Q
  /\ (nth 5 e 0 == nth (List.length s - 1) s 0)%Q
  /\ forall k, (k <= 5)%nat ->
       let j := Z.to_nat ((Z.of_nat (List.length s) - 1) * Z.of_nat k / 5) in
       (nth j s 0 <= nth k e 0)%Q
       /\ (nth k e 0 <= nth (Nat.min (j + 1) (List.length s - 1)) s 0)%Q.

(** [m] is the greatest element of [l]. *)
Definition is_max (m : Z) (l : list Z) : Prop :=
  In m l /\ forall d, In d l -> (d <= m)%Z.

(** [n] is the number of different strings in [l]. *)
Definition is_distinct_count (n : Z) (l : list string) : Prop :=
  exists u, NoDup u /\ (forall s, In s u <-> In s l)
            /\ n = Z.of_nat (List.length u).

(* ===================================================================== *)
(** ** Concrete tables used by the examples                               *)
(* ===================================================================== *)

Definition line (inv : string) (qty price cust : Q) (date : Z) : TransactionLine :=
  mkLine (Some inv) (Some "85123A") (Some "HEART T-LIGHT HOLDER") (Some qty)
         (Some date) (Some price) (Some cust) (Some "United Kingdom").

(** A raw file of eight lines: a cancellation, a line without customer,
    an outlying quantity and an outlying price. *)
Definition raw_table : list TransactionLine :=
  [ line "536365" 1 2 17850 (datetime 2011 12 1);
    line "C536379" (-5) 2 17850 (datetime 2011 12 2);
    mkLine (Some "536414") (Some "22139") None (Some 56) (Some (datetime 2011 12 2))
           (Some 0) None (Some "United Kingdom");
    line "536366" 100 1 13047 (datetime 2011 12 3);
    line "536367" 2 2 13047 (datetime 2011 12 4);
    line "536368" 3 2 12583 (datetime 2011 12 5);
    line "536368" 3 50 12583 (datetime 2011 12 5);
    line "536369" 4 3 12583 (datetime 2011 12 9) ]%Q.

Definition raw_heap : gmap loc DataFrame := {[ 1%positive := mkFrame raw_table None ]}.

Definition purchase (inv : string) (date : Z) (cust total : Q) : CleanedLine :=
  mkCleaned inv date cust total.

(** Three customers; the only line of customer 13047 has a zero price. *)
Definition cleaned_zero : list CleanedLine :=
  [ purchase "536365" (datetime 2011 12 10) 17850 10;
    purchase "536366" (datetime 2011 12 9) 13047 0;
    purchase "536367" (datetime 2011 12 8) 12583 20 ]%Q.

(** Five customers; two of them bought last on the same day. *)
Definition cleaned_ties : list CleanedLine :=
  [ purchase "536370" (datetime 2011 12 10) 12431 10;
    purchase "536371" (datetime 2011 12 9) 12583 20;
    purchase "536372" (datetime 2011 12 9) 13047 30;
    purchase "536373" (datetime 2011 12 8) 13748 40;
    purchase "536374" (datetime 2011 12 7) 17850 50 ]%Q.

(** Five customers who bought last on one of two days. *)
Definition cleaned_few : list CleanedLine :=
  [ purchase "536390" (datetime 2011 12 10) 12431 10;
    purchase "536391" (datetime 2011 12 10) 12583 20;
    purchase "536392" (datetime 2011 12 9) 13047 30;
    purchase "536393" (datetime 2011 12 9) 13748 40;
    purchase "536394" (datetime 2011 12 9) 17850 50 ]%Q.

(** Two customers with the same purchases on the same day. *)
Definition cleaned_same : list CleanedLine :=
  [ purchase "536380" (datetime 2011 12 9) 12583 20;
    purchase "536381" (datetime 2011 12 9) 13047 20 ]%Q.

(* ===================================================================== *)
(** ** Segment mapping                                                    *)
(* ===================================================================== *)

(** Split a conjunction of closed equations and evaluate each side. *)
Ltac evaluate :=
  repeat match goal with
         | |- _ /\ _ => split
         end;
  vm_compute; reflexivity.

Lemma small_range (x : Z) :
  (1 <= x <= 5)%Z -> x = 1%Z \/ x = 2%Z \/ x = 3%Z \/ x = 4%Z \/ x = 5%Z.
Proof. lia. Qed.

(** C1.  For every recency score and frequency score between 1 and 5, the
    segment that line 173 computes from the two-character RF code is the
    label of the first rule of the table of section 4.4 that matches the
    pair; in particular a rule matches, and the label is one of the ten
    segment names (no code is left as it is). *)
Theorem segment_mapping_total (r f : Z) :
  (1 <= r <= 5)%Z -> (1 <= f <= 5)%Z ->
  exists label,
    SpecTable.first_match r f = Some label
    /\ CustomerSegment_of (RF_Score_of (Some r) (Some f)) = label
    /\ In label (map snd segment_map).
Proof.
  intros Hr Hf.
  destruct (small_range r Hr) as [-> | [-> | [-> | [-> | ->]]]];
    destruct (small_range f Hf) as [-> | [-> | [-> | [-> | ->]]]];
    eexists; (split; [ reflexivity | split; [ reflexivity | simpl; tauto ] ]).
Qed.

Lemma segment_mapping_total_witness :
  exists label,
    SpecTable.first_match 4 1 = Some label
    /\ CustomerSegment_of (RF_Score_of (Some 4%Z) (Some 1%Z)) = label
    /\ In label (map snd segment_map).
Proof. apply (segment_mapping_total 4 1); lia. Defined.

(** The four pairs that the specification names. *)
Example segment_examples :
  CustomerSegment_of (RF_Score_of (Some 1%Z) (Some 1%Z)) = "Hibernating"
  /\ CustomerSegment_of (RF_Score_of (Some 3%Z) (Some 3%Z)) = "Need Attention"
  /\ CustomerSegment_of (RF_Score_of (Some 4%Z) (Some 1%Z)) = "Promising"
  /\ CustomerSegment_of (RF_Score_of (Some 5%Z) (Some 5%Z)) = "Champion".
Proof. repeat split. Qed.

(* ===================================================================== *)
(** ** Running the preprocessor on the heap                               *)
(* ===================================================================== *)

Lemma replace_with_thresholds_run (h : gmap loc DataFrame) (l : loc)
  (v : variable) (df : DataFrame) :
  h !! l = Some df ->
  replace_with_thresholds l v h = (tt, <[l := clipped v df]> h).
Proof.
  intros Hl.
  unfold replace_with_thresholds, find_thresholds, bind, deref, modify, ret.
  cbn.
  rewrite !lookup_total_insert_eq.
  rewrite (lookup_total_correct _ _ _ Hl).
  rewrite insert_insert_eq.
  reflexivity.
Qed.

Lemma data_preprocess_run (h : gmap loc DataFrame) (l : loc) (df : DataFrame) :
  h !! l = Some df ->
  let l' := fresh (dom (<[l := dropna df]> h)) in
  data_preprocess l h
  = (l', <[l' := preprocessed df]> (<[l := dropna df]> h)).
Proof.
  intros Hl l'.
  unfold data_preprocess, bind, deref, modify, alloc, ret.
  rewrite (lookup_total_correct _ _ _ Hl).
  rewrite lookup_total_insert_eq.
  fold l'.
  erewrite replace_with_thresholds_run by apply lookup_insert_eq.
  erewrite replace_with_thresholds_run by apply lookup_insert_eq.
  rewrite lookup_total_insert_eq.
  rewrite !insert_insert_eq.
  reflexivity.
Qed.

Lemma fresh_loc_ne (h : gmap loc DataFrame) (l : loc) (df : DataFrame) :
  fresh (dom (<[l := df]> h)) <> l.
Proof.
  intros Heq.
  apply (is_fresh (dom (<[l := df]> h))).
  rewrite Heq. rewrite dom_insert_L. set_solver.
Qed.

(* ===================================================================== *)
(** ** Sorting and interpolation                                          *)
(* ===================================================================== *)

Section Sorting.

Open Scope Q_scope.

Lemma insert_sorted_perm (x : Q) (l : list Q) :
  Permutation (insert_sorted x l) (x :: l).
Proof.
  induction l as [| y l IH]; simpl.
  - apply Permutation_refl.
  - destruct (Qle_bool x y).
    + apply Permutation_refl.
    + eapply Permutation_trans; [ apply perm_skip, IH | apply perm_swap ].
Qed.

Lemma sort_values_perm (l : list Q) : Permutation (sort_values l) l.
Proof.
  induction l as [| x l IH]; simpl.
  - apply perm_nil.
  - eapply Permutation_trans; [ apply insert_sorted_perm | apply perm_skip, IH ].
Qed.

Lemma sort_values_length (l : list Q) :
  List.length (sort_values l) = List.length l.
Proof. apply Permutation_length, sort_values_perm. Qed.

Lemma insert_sorted_sorted (x : Q) (l : list Q) :
  StronglySorted Qle l -> StronglySorted Qle (insert_sorted x l).
Proof.
  induction 1 as [| y l Hs IH Hall]; simpl.
  - constructor; [ constructor | constructor ].
  - destruct (Qle_bool x y) eqn:E.
    + apply Qle_bool_iff in E.
      constructor; [ constructor; assumption |].
      constructor; [ assumption |].
      eapply Forall_impl; [| exact Hall ].
      intros z Hz. eapply Qle_trans; eassumption.
    + assert (y <= x) as Hyx.
      { destruct (Qlt_le_dec y x) as [H | H]; [ apply Qlt_le_weak, H |].
        apply Qle_bool_iff in H. congruence. }
      constructor; [ exact IH |].
      eapply Permutation_Forall; [ apply Permutation_sym, insert_sorted_perm |].
      constructor; assumption.
Qed.

Lemma sort_values_sorted (l : list Q) : StronglySorted Qle (sort_values l).
Proof.
  induction l as [| x l IH]; simpl.
  - constructor.
  - apply insert_sorted_sorted, IH.
Qed.

Lemma sorted_nth_le (s : list Q) :
  StronglySorted Qle s ->
  forall i j, (i <= j)%nat -> (j < List.length s)%nat ->
  nth i s 0 <= nth j s 0.
Proof.
  induction 1 as [| x s Hs IH Hall]; intros i j Hij Hj; simpl in Hj.
  - lia.
  - destruct i as [| i], j as [| j]; simpl; try lia.
    + apply Qle_refl.
    + rewrite Forall_forall in Hall. apply Hall, nth_In. lia.
    + apply IH; lia.
Qed.

(** The neighbours of a position inside the list. *)
Lemma position_floor (n : nat) (pos : Q) :
  (1 <= n)%nat -> 0 <= pos -> pos <= inject_Z (Z.of_nat n - 1) ->
  (0 <= Qfloor pos <= Z.of_nat n - 1)%Z.
Proof.
  intros Hn H0 H1. split.
  - rewrite <- (Qfloor_Z 0). apply Qfloor_resp_le, H0.
  - rewrite <- (Qfloor_Z (Z.of_nat n - 1)). apply Qfloor_resp_le, H1.
Qed.

Lemma position_frac (pos : Q) :
  0 <= pos - inject_Z (Qfloor pos) /\ pos - inject_Z (Qfloor pos) < 1.
Proof.
  pose proof (Qfloor_le pos) as Hlo.
  pose proof (Qlt_floor pos) as Hhi.
  rewrite inject_Z_plus in Hhi.
  change (inject_Z 1) with 1 in Hhi.
  split; lra.
Qed.

Variable s : list Q.
Hypothesis s_sorted : StronglySorted Qle s.
Hypothesis s_nonempty : (1 <= List.length s)%nat.

Let last_index : Z := (Z.of_nat (List.length s) - 1)%Z.

Lemma at_position_lower (pos : Q) :
  0 <= pos -> pos <= inject_Z last_index ->
  nth (Z.to_nat (Qfloor pos)) s 0 <= at_position s pos.
Proof.
  intros H0 H1. unfold at_position.
  pose proof (position_floor _ _ s_nonempty H0 H1) as Hj.
  pose proof (position_frac pos) as [Hg0 Hg1].
  set (j := Qfloor pos) in *.
  set (g := pos - inject_Z j) in *.
  assert (nth (Z.to_nat j) s 0
          <= nth (Nat.min (Z.to_nat j + 1) (List.length s - 1)) s 0) as Hle.
  { apply sorted_nth_le; [ assumption | lia | lia ]. }
  set (lo := nth (Z.to_nat j) s 0) in *.
  set (hi := nth (Nat.min (Z.to_nat j + 1) (List.length s - 1)) s 0) in *.
  assert (0 <= (hi - lo) * g) by (apply Qmult_le_0_compat; lra).
  lra.
Qed.

Lemma at_position_upper (pos : Q) :
  0 <= pos -> pos <= inject_Z last_index ->
  at_position s pos
  <= nth (Nat.min (Z.to_nat (Qfloor pos) + 1) (List.length s - 1)) s 0.
Proof.
  intros H0 H1. unfold at_position.
  pose proof (position_floor _ _ s_nonempty H0 H1) as Hj.
  pose proof (position_frac pos) as [Hg0 Hg1].
  set (j := Qfloor pos) in *.
  set (g := pos - inject_Z j) in *.
  assert (nth (Z.to_nat j) s 0
          <= nth (Nat.min (Z.to_nat j + 1) (List.length s - 1)) s 0) as Hle.
  { apply sorted_nth_le; [ assumption | lia | lia ]. }
  set (lo := nth (Z.to_nat j) s 0) in *.
  set (hi := nth (Nat.min (Z.to_nat j + 1) (List.length s - 1)) s 0) in *.
  assert (0 <= (hi - lo) * (1 - g)) by (apply Qmult_le_0_compat; lra).
  lra.
Qed.

(** Interpolation is monotone in the position. *)
Lemma at_position_mono (pos pos' : Q) :
  0 <= pos -> pos <= pos' -> pos' <= inject_Z last_index ->
  at_position s pos <= at_position s pos'.
Proof.
  intros H0 Hpp H1.
  assert (pos <= inject_Z last_index) as H1' by lra.
  assert (0 <= pos') as H0' by lra.
  pose proof (position_floor _ _ s_nonempty H0 H1') as Hj.
  pose proof (position_floor _ _ s_nonempty H0' H1) as Hj'.
  pose proof (Qfloor_resp_le _ _ Hpp) as Hjj.
  destruct (Z.eq_dec (Qfloor pos) (Qfloor pos')) as [Heq | Hne].
  - unfold at_position. rewrite <- Heq.
    pose proof (position_frac pos) as [Hg0 Hg1].
    set (j := Qfloor pos) in *.
    assert (nth (Z.to_nat j) s 0
            <= nth (Nat.min (Z.to_nat j + 1) (List.length s - 1)) s 0) as Hle.
    { apply sorted_nth_le; [ assumption | lia | lia ]. }
    set (lo := nth (Z.to_nat j) s 0) in *.
    set (hi := nth (Nat.min (Z.to_nat j + 1) (List.length s - 1)) s 0) in *.
    assert (0 <= (hi - lo) * (pos' - pos)) by (apply Qmult_le_0_compat; lra).
    lra.
  - eapply Qle_trans; [ apply at_position_upper; assumption |].
    eapply Qle_trans; [| apply at_position_lower; assumption ].
    apply sorted_nth_le; [ assumption | lia | lia ].
Qed.

(** At a whole position the value is the element there. *)
Lemma at_position_index (i : nat) :
  at_position s (inject_Z (Z.of_nat i)) == nth i s 0.
Proof.
  unfold at_position. rewrite Qfloor_Z, Nat2Z.id. ring.
Qed.

End Sorting.

(* ===================================================================== *)
(** ** Masks, row selection and column assignment                         *)
(* ===================================================================== *)

Lemma select_map {A : Type} (f : A -> bool) (l : list A) :
  select (map f l) l = filter f l.
Proof.
  induction l as [| x l IH]; simpl; [ reflexivity |].
  rewrite IH. reflexivity.
Qed.

Lemma any_null_no_extra (ls : list TransactionLine) :
  any_null ls None = map line_has_null ls.
Proof. induction ls as [| r ls IH]; simpl; congruence. Qed.

Lemma dropna_raw (t : list TransactionLine) :
  dropna (mkFrame t None) = mkFrame (SpecPreprocess.drop_null_rows t) None.
Proof.
  unfold dropna, getitem_mask. simpl.
  rewrite any_null_no_extra, map_map, select_map. reflexivity.
Qed.

Lemma dropna_no_null (df : DataFrame) :
  Forall (fun r => line_has_null r = false) (rows (dropna df)).
Proof.
  unfold dropna, getitem_mask. simpl.
  generalize (TotalPrice df) as extra.
  induction (rows df) as [| r ls IH]; intros extra; simpl; [ constructor |].
  destruct extra as [[| t ts] |]; simpl.
  - destruct (line_has_null r) eqn:E; simpl; [ apply IH | constructor; auto ].
  - destruct (line_has_null r) eqn:E; simpl; [ apply IH |].
    destruct (is_null t); simpl; [ apply IH | constructor; auto ].
  - destruct (line_has_null r) eqn:E; simpl; [ apply IH | constructor; auto ].
Qed.

Lemma drop_cancelled_rows (t : list TransactionLine) (extra : option (list float)) :
  rows (getitem_mask (mkFrame t extra) (map negb (cancelled (mkFrame t extra))))
  = SpecPreprocess.drop_cancellations t.
Proof.
  unfold getitem_mask, cancelled. simpl.
  rewrite map_map, select_map. reflexivity.
Qed.

Lemma assign_where_map (f : float -> bool) (v : variable) (x : float)
  (ls : list TransactionLine) :
  assign_where (map f (map (cell v) ls)) v x ls
  = map (fun r => if f (cell v r) then set_cell v x r else r) ls.
Proof.
  induction ls as [| r ls IH]; simpl; [ reflexivity |].
  rewrite IH. reflexivity.
Qed.

Lemma cell_set_cell (v : variable) (x : float) (r : TransactionLine) :
  cell v (set_cell v x r) = x.
Proof. destruct v; reflexivity. Qed.

Lemma set_cell_same (v : variable) (r : TransactionLine) :
  set_cell v (cell v r) r = r.
Proof. destruct v, r; reflexivity. Qed.

Lemma set_cell_twice (v : variable) (x y : float) (r : TransactionLine) :
  set_cell v y (set_cell v x r) = set_cell v y r.
Proof. destruct v; reflexivity. Qed.

Lemma cell_set_other (v w : variable) (x : float) (r : TransactionLine) :
  v <> w -> cell w (set_cell v x r) = cell w r.
Proof. destruct v, w; intros H; try reflexivity; congruence. Qed.

Lemma mul_series_columns (ls : list TransactionLine) :
  mul_series (map (cell col_Quantity) ls) (map (cell col_UnitPrice) ls)
  = map SpecPreprocess.lineTotal ls.
Proof.
  induction ls as [| r ls IH]; simpl; [ reflexivity |].
  rewrite IH. reflexivity.
Qed.

(* ===================================================================== *)
(** ** Quantiles and the Tukey fences                                     *)
(* ===================================================================== *)

Section Quantiles.

Open Scope Q_scope.

Lemma interpolate_linear_mono (s : list Q) (q q' : Q) :
  StronglySorted Qle s -> (1 <= List.length s)%nat ->
  0 <= q -> q <= q' -> q' <= 1 ->
  interpolate_linear s q <= interpolate_linear s q'.
Proof.
  intros Hs Hn H0 Hqq H1. unfold interpolate_linear.
  assert (0 <= inject_Z (Z.of_nat (List.length s) - 1)) as Hm.
  { change 0 with (inject_Z 0). rewrite <- Zle_Qle. lia. }
  set (m := inject_Z (Z.of_nat (List.length s) - 1)) in *.
  assert (0 <= m * q) by (apply Qmult_le_0_compat; lra).
  assert (0 <= m * (q' - q)) by (apply Qmult_le_0_compat; lra).
  assert (0 <= m * (1 - q')) by (apply Qmult_le_0_compat; lra).
  apply at_position_mono; try assumption; fold m; clearbody m; lra.
Qed.

Lemma quantile_some (xs : list float) (q : Q) (x : Q) :
  In (Some x) xs -> exists y, quantile xs q = Some y.
Proof.
  intros Hin. unfold quantile.
  assert (In x (present xs)) as Hp.
  { induction xs as [| [z |] xs IH]; simpl in *; [ tauto | | ].
    - destruct Hin as [Hin | Hin]; [ left; congruence | right; auto ].
    - destruct Hin as [Hin | Hin]; [ discriminate | auto ]. }
  destruct (present xs); [ destruct Hp | eauto ].
Qed.

Lemma quartiles_ordered (xs : list float) (a b : Q) :
  quantile xs (1 # 4) = Some a -> quantile xs (3 # 4) = Some b -> a <= b.
Proof.
  unfold quantile. destruct (present xs) as [| v vs]; [ discriminate |].
  intros [= <-] [= <-].
  apply interpolate_linear_mono; try lra.
  - apply (sort_values_sorted (v :: vs)).
  - pose proof (sort_values_length (v :: vs)) as Hlen.
    simpl in *. lia.
Qed.

(** The lower fence is never above the upper fence. *)
Lemma fences_ordered (xs : list float) (lo hi : Q) :
  SpecPreprocess.lowLimit xs = Some lo ->
  SpecPreprocess.upLimit xs = Some hi ->
  lo <= hi.
Proof.
  unfold SpecPreprocess.lowLimit, SpecPreprocess.upLimit.
  destruct (quantile xs (1 # 4)) as [a |] eqn:Ea; [| discriminate ].
  destruct (quantile xs (3 # 4)) as [b |] eqn:Eb; [| discriminate ].
  simpl. intros [= <-] [= <-].
  pose proof (quartiles_ordered _ _ _ Ea Eb). lra.
Qed.

Lemma fences_some (xs : list float) (x : Q) :
  In (Some x) xs ->
  exists lo hi,
    SpecPreprocess.lowLimit xs = Some lo /\ SpecPreprocess.upLimit xs = Some hi.
Proof.
  intros Hin.
  destruct (quantile_some xs (1 # 4) x Hin) as [a Ea].
  destruct (quantile_some xs (3 # 4) x Hin) as [b Eb].
  unfold SpecPreprocess.lowLimit, SpecPreprocess.upLimit.
  rewrite Ea, Eb. simpl. eauto.
Qed.

Lemma Qlt_bool_iff (a b : Q) : Qlt_bool a b = true <-> a < b.
Proof.
  unfold Qlt_bool. rewrite negb_true_iff.
  split.
  - intros H. apply Qnot_le_lt. intros Hle.
    apply Qle_bool_iff in Hle. congruence.
  - intros H. destruct (Qle_bool b a) eqn:E; [| reflexivity ].
    apply Qle_bool_iff in E. lra.
Qed.

Lemma Qlt_bool_false_iff (a b : Q) : Qlt_bool a b = false <-> b <= a.
Proof.
  unfold Qlt_bool. rewrite negb_false_iff. apply Qle_bool_iff.
Qed.

Lemma fences_not_crossed (xs : list float) :
  flt (SpecPreprocess.upLimit xs) (SpecPreprocess.lowLimit xs) = false.
Proof.
  destruct (SpecPreprocess.upLimit xs) as [hi |] eqn:Eh; [| reflexivity ].
  destruct (SpecPreprocess.lowLimit xs) as [lo |] eqn:El; [| reflexivity ].
  simpl. apply Qlt_bool_false_iff. eapply fences_ordered; eassumption.
Qed.

(** A clamped value lies between the fences. *)
Lemma clamp_within (lo hi x : Q) :
  lo <= hi ->
  exists y, SpecPreprocess.clamp (Some lo) (Some hi) (Some x) = Some y
            /\ lo <= y <= hi.
Proof.
  intros Hle. unfold SpecPreprocess.clamp, fgt, flt.
  destruct (Qlt_bool x lo) eqn:E1.
  - exists lo. split; [ reflexivity | lra ].
  - destruct (Qlt_bool hi x) eqn:E2.
    + exists hi. split; [ reflexivity | lra ].
    + apply Qlt_bool_false_iff in E1, E2. exists x. split; [ reflexivity | lra ].
Qed.

End Quantiles.

(** The two masked assignments of [replace_with_thresholds] amount to
    clamping every cell of the column. *)
Lemma clipped_is_clip (v : variable) (t : list TransactionLine)
  (extra : option (list float)) :
  clipped v (mkFrame t extra) = mkFrame (SpecPreprocess.clip v t) extra.
Proof.
  unfold clipped, loc_setitem, getitem, SpecPreprocess.clip. simpl.
  rewrite assign_where_map.
  rewrite assign_where_map.
  rewrite map_map. f_equal.
  apply map_ext. intros r.
  set (lo := SpecPreprocess.lowLimit (map (cell v) t)).
  set (hi := SpecPreprocess.upLimit (map (cell v) t)).
  pose proof (fences_not_crossed (map (cell v) t)) as Hord.
  fold lo hi in Hord.
  unfold SpecPreprocess.clamp.
  destruct (flt (cell v r) lo) eqn:E1.
  - rewrite cell_set_cell. unfold fgt. rewrite Hord. reflexivity.
  - destruct (fgt (cell v r) hi) eqn:E2; [ reflexivity |].
    symmetry. apply set_cell_same.
Qed.

(* ===================================================================== *)
(** ** Properties of the preprocessor                                     *)
(* ===================================================================== *)

Lemma rows_clipped (v : variable) (df : DataFrame) :
  rows (clipped v df) = SpecPreprocess.clip v (rows df).
Proof. destruct df as [t extra]. rewrite clipped_is_clip. reflexivity. Qed.

Lemma rows_preprocessed (df : DataFrame) :
  rows (preprocessed df)
  = SpecPreprocess.clip col_UnitPrice
      (SpecPreprocess.clip col_Quantity
         (SpecPreprocess.drop_cancellations (rows (dropna df)))).
Proof.
  unfold preprocessed, setitem_TotalPrice. cbn [rows].
  rewrite !rows_clipped.
  unfold getitem_mask, cancelled. cbn [rows].
  rewrite map_map, select_map. reflexivity.
Qed.

Lemma preprocessed_raw (t : list TransactionLine) :
  preprocessed (mkFrame t None) = SpecPreprocess.preprocess t.
Proof.
  unfold preprocessed. rewrite dropna_raw.
  unfold getitem_mask at 1 2 3, cancelled. simpl.
  rewrite !map_map, !select_map.
  fold (SpecPreprocess.drop_cancellations (SpecPreprocess.drop_null_rows t)).
  rewrite !clipped_is_clip.
  unfold setitem_TotalPrice, getitem. simpl.
  rewrite mul_series_columns. reflexivity.
Qed.

Lemma in_clip (v : variable) (t : list TransactionLine) (r' : TransactionLine) :
  In r' (SpecPreprocess.clip v t) ->
  exists r,
    In r t
    /\ r' = set_cell v
              (SpecPreprocess.clamp (SpecPreprocess.lowLimit (map (cell v) t))
                 (SpecPreprocess.upLimit (map (cell v) t)) (cell v r)) r.
Proof.
  unfold SpecPreprocess.clip. rewrite in_map_iff.
  intros [r [Heq Hin]]. exists r. auto.
Qed.

Lemma clip_other_column (v w : variable) (t : list TransactionLine) :
  v <> w -> map (cell w) (SpecPreprocess.clip v t) = map (cell w) t.
Proof.
  intros Hvw. unfold SpecPreprocess.clip. rewrite map_map.
  apply map_ext. intros r. apply cell_set_other, Hvw.
Qed.

Lemma InvoiceNo_set_cell (v : variable) (x : float) (r : TransactionLine) :
  InvoiceNo (set_cell v x r) = InvoiceNo r.
Proof. destruct v; reflexivity. Qed.

(** A search for the pattern ["C"] is a test for the substring ["C"]. *)
Lemma search_C_iff (s : string) :
  Re.search (Re.compile "C") s = true
  <-> exists a b, s = (a ++ "C" ++ b)%string.
Proof.
  change (Re.compile "C") with [Re.Lit "C"%char].
  induction s as [| c s IH].
  - simpl. split; [ discriminate |].
    intros [a [b H]]. destruct a; discriminate.
  - cbn [Re.search Re.match_here Re.atom_matches].
    destruct (Ascii.eqb "C" c) eqn:E.
    + apply Ascii.eqb_eq in E. subst c.
      split; [ intros _ | reflexivity ].
      exists EmptyString, s. reflexivity.
    + rewrite IH. split.
      * intros [a [b ->]]. exists (String c a), b. reflexivity.
      * intros [a [b H]]. destruct a as [| c' a]; simpl in H.
        -- injection H as -> _. rewrite Ascii.eqb_refl in E. discriminate.
        -- injection H as _ ->. eauto.
Qed.

Lemma line_has_null_InvoiceNo (r : TransactionLine) :
  line_has_null r = false -> exists s, InvoiceNo r = Some s.
Proof.
  unfold line_has_null. destruct (InvoiceNo r) as [s |]; simpl; [ eauto | discriminate ].
Qed.

(** C5.  On a raw table, [data_preprocess] returns a new frame whose
    content is obtained by these steps in this order: drop the rows with a
    null field; drop the cancellation rows; clamp [Quantity] to the fences
    computed on the rows that remain; clamp [UnitPrice] to the fences
    computed on those rows; append [TotalPrice = Quantity * UnitPrice]. *)
Theorem preprocessing_steps_in_order (h : gmap loc DataFrame) (l : loc)
  (t : list TransactionLine) :
  h !! l = Some (mkFrame t None) ->
  let rows1 := SpecPreprocess.drop_null_rows t in
  let rows2 := SpecPreprocess.drop_cancellations rows1 in
  let rows3 := SpecPreprocess.clip col_Quantity rows2 in
  let rows4 := SpecPreprocess.clip col_UnitPrice rows3 in
  exists l' h',
    data_preprocess l h = (l', h')
    /\ h' !! l'
       = Some (mkFrame rows4 (Some (map SpecPreprocess.lineTotal rows4))).
Proof.
  intros Hl rows1 rows2 rows3 rows4.
  rewrite (data_preprocess_run _ _ _ Hl).
  eexists _, _. split; [ reflexivity |].
  rewrite lookup_insert_eq, preprocessed_raw. reflexivity.
Qed.

Lemma preprocessing_steps_in_order_witness :
  let rows1 := SpecPreprocess.drop_null_rows raw_table in
  let rows2 := SpecPreprocess.drop_cancellations rows1 in
  let rows3 := SpecPreprocess.clip col_Quantity rows2 in
  let rows4 := SpecPreprocess.clip col_UnitPrice rows3 in
  exists l' h',
    data_preprocess 1%positive raw_heap = (l', h')
    /\ h' !! l'
       = Some (mkFrame rows4 (Some (map SpecPreprocess.lineTotal rows4))).
Proof.
  apply (preprocessing_steps_in_order raw_heap 1%positive raw_table).
  reflexivity.
Defined.

(** The order matters: on [raw_table] the fences of [Quantity] computed
    on the raw rows differ from those computed on the filtered rows. *)
Example fences_depend_on_filtering :
  SpecPreprocess.upLimit (map (cell col_Quantity) raw_table) = Some (5104 # 128)%Q
  /\ SpecPreprocess.upLimit
       (map (cell col_Quantity) (SpecPreprocess.filtered raw_table))
     = Some (768 # 128)%Q.
Proof. evaluate. Qed.

Lemma line_has_null_cell (v : variable) (r : TransactionLine) :
  line_has_null r = false -> exists x, cell v r = Some x.
Proof.
  unfold line_has_null. intros H.
  repeat (apply orb_false_elim in H; destruct H as [H ?]).
  destruct v; simpl.
  - destruct (Quantity r); [ eauto | discriminate ].
  - destruct (UnitPrice r); [ eauto | discriminate ].
Qed.

Lemma in_filtered (t : list TransactionLine) (r : TransactionLine) :
  In r (SpecPreprocess.filtered t) ->
  In r t /\ line_has_null r = false
  /\ str_contains "C" false (InvoiceNo r) = false.
Proof.
  unfold SpecPreprocess.filtered, SpecPreprocess.drop_cancellations,
    SpecPreprocess.drop_null_rows.
  rewrite !filter_In, !negb_true_iff. tauto.
Qed.

(** A cell of a clamped column lies within the fences of that column. *)
Lemma clip_within (v : variable) (t : list TransactionLine) (r' : TransactionLine) :
  Forall (fun r => line_has_null r = false) t ->
  In r' (SpecPreprocess.clip v t) ->
  exists a b y,
    SpecPreprocess.lowLimit (map (cell v) t) = Some a
    /\ SpecPreprocess.upLimit (map (cell v) t) = Some b
    /\ cell v r' = Some y /\ (a <= y <= b)%Q.
Proof.
  intros Hnn Hin.
  destruct (in_clip _ _ _ Hin) as [r [Hr ->]].
  rewrite Forall_forall in Hnn.
  destruct (line_has_null_cell v r (Hnn r Hr)) as [x Hx].
  assert (In (Some x) (map (cell v) t)) as Hcol.
  { rewrite <- Hx. apply in_map, Hr. }
  destruct (fences_some _ _ Hcol) as [a [b [Ha Hb]]].
  pose proof (fences_ordered _ _ _ Ha Hb) as Hab.
  destruct (clamp_within a b x Hab) as [y [Hy Hrange]].
  exists a, b, y. rewrite cell_set_cell, Hx, Ha, Hb. auto.
Qed.

Lemma set_cell_no_null (v : variable) (y : Q) (r : TransactionLine) :
  line_has_null r = false -> line_has_null (set_cell v (Some y) r) = false.
Proof.
  unfold line_has_null. intros H.
  repeat (apply orb_false_elim in H; destruct H as [H ?]).
  destruct v; simpl;
    repeat (apply orb_false_intro; [| first [ assumption | reflexivity ] ]);
    assumption.
Qed.

Lemma clip_no_null (v : variable) (t : list TransactionLine) :
  Forall (fun r => line_has_null r = false) t ->
  Forall (fun r => line_has_null r = false) (SpecPreprocess.clip v t).
Proof.
  intros Hnn. rewrite Forall_forall. intros r' Hin.
  destruct (clip_within v t r' Hnn Hin) as [a [b [y [_ [_ [Hy _]]]]]].
  destruct (in_clip _ _ _ Hin) as [r [Hr Heq]].
  rewrite Forall_forall in Hnn. specialize (Hnn r Hr).
  rewrite Heq in Hy |- *. rewrite cell_set_cell in Hy.
  rewrite Hy. apply set_cell_no_null, Hnn.
Qed.

Lemma filtered_no_null (t : list TransactionLine) :
  Forall (fun r => line_has_null r = false) (SpecPreprocess.filtered t).
Proof.
  rewrite Forall_forall. intros r Hin. apply in_filtered in Hin. tauto.
Qed.

Lemma cleaned_within (v : variable) (t : list TransactionLine) (r : TransactionLine) :
  In r (SpecPreprocess.cleaned t) ->
  exists a b y,
    SpecPreprocess.lowLimit (map (cell v) (SpecPreprocess.filtered t)) = Some a
    /\ SpecPreprocess.upLimit (map (cell v) (SpecPreprocess.filtered t)) = Some b
    /\ cell v r = Some y /\ (a <= y <= b)%Q.
Proof.
  unfold SpecPreprocess.cleaned. intros Hin.
  pose proof (filtered_no_null t) as Hnn.
  destruct v.
  - destruct (in_clip _ _ _ Hin) as [r1 [Hr1 ->]].
    rewrite cell_set_other by discriminate.
    apply clip_within; assumption.
  - rewrite <- (clip_other_column col_Quantity col_UnitPrice) by discriminate.
    apply clip_within; [ apply clip_no_null, Hnn | assumption ].
Qed.

(** C4.  For a frame [t] behind [l] and a column [v]:
    [find_thresholds] returns [Q1 - 1.5*(Q3 - Q1)] and
    [Q3 + 1.5*(Q3 - Q1)] for the quartiles of the column;
    [replace_with_thresholds] rewrites the frame in place, keeping every
    row and clamping each cell of the column to these limits, so a value
    that is present ends between them, at the limit it went beyond or
    unchanged when within; and every row of the frame that
    [data_preprocess] returns has its [Quantity] and [UnitPrice] between
    the limits computed on the filtered rows, before any clipping. *)
Theorem outliers_clamped_to_fences (h : gmap loc DataFrame) (l : loc)
  (t : list TransactionLine) (v : variable) :
  h !! l = Some (mkFrame t None) ->
  let Q1 := quantile (map (cell v) t) (1 # 4) in
  let Q3 := quantile (map (cell v) t) (3 # 4) in
  let lowLimit := fsub Q1 (fmul (Some (3 # 2)%Q) (fsub Q3 Q1)) in
  let upLimit := fadd Q3 (fmul (Some (3 # 2)%Q) (fsub Q3 Q1)) in
  find_thresholds l v h = ((lowLimit, upLimit), h)
  /\ replace_with_thresholds l v h
     = (tt, <[l := mkFrame
                     (map (fun r =>
                             set_cell v
                               (SpecPreprocess.clamp lowLimit upLimit (cell v r)) r)
                          t)
                     None]> h)
  /\ (forall r x, In r t -> cell v r = Some x ->
      exists a b y,
        lowLimit = Some a /\ upLimit = Some b
        /\ SpecPreprocess.clamp lowLimit upLimit (cell v r) = Some y
        /\ (a <= y <= b)%Q
        /\ ((x < a)%Q -> y = a) /\ ((b < x)%Q -> y = b)
        /\ ((a <= x <= b)%Q -> y = x))
  /\ exists l' h' out,
       data_preprocess l h = (l', h') /\ h' !! l' = Some out
       /\ forall r, In r (rows out) ->
          exists a b y,
            SpecPreprocess.lowLimit (map (cell v) (SpecPreprocess.filtered t))
            = Some a
            /\ SpecPreprocess.upLimit (map (cell v) (SpecPreprocess.filtered t))
               = Some b
            /\ cell v r = Some y /\ (a <= y <= b)%Q.
Proof.
  intros Hl Q1 Q3 lowLimit upLimit.
  split; [| split; [| split ]].
  - unfold find_thresholds, bind, deref, ret.
    rewrite (lookup_total_correct _ _ _ Hl). reflexivity.
  - rewrite (replace_with_thresholds_run _ _ _ _ Hl), clipped_is_clip.
    reflexivity.
  - intros r x Hr Hx.
    assert (In (Some x) (map (cell v) t)) as Hcol.
    { rewrite <- Hx. apply in_map, Hr. }
    destruct (fences_some _ _ Hcol) as [a [b [Ha Hb]]].
    pose proof (fences_ordered _ _ _ Ha Hb) as Hab.
    change (SpecPreprocess.lowLimit (map (cell v) t)) with lowLimit in Ha.
    change (SpecPreprocess.upLimit (map (cell v) t)) with upLimit in Hb.
    rewrite Ha, Hb, Hx.
    unfold SpecPreprocess.clamp, fgt, flt.
    destruct (Qlt_bool x a) eqn:E1.
    + apply Qlt_bool_iff in E1.
      exists a, b, a. repeat split; try reflexivity; try lra.
    + apply Qlt_bool_false_iff in E1.
      destruct (Qlt_bool b x) eqn:E2.
      * apply Qlt_bool_iff in E2.
        exists a, b, b. repeat split; try reflexivity; try lra.
      * apply Qlt_bool_false_iff in E2.
        exists a, b, x. repeat split; try reflexivity; try lra.
  - rewrite (data_preprocess_run _ _ _ Hl).
    eexists _, _, _. split; [ reflexivity |].
    split; [ apply lookup_insert_eq |].
    rewrite preprocessed_raw. simpl. intros r Hr.
    apply cleaned_within, Hr.
Qed.

Lemma outliers_clamped_to_fences_witness :
  exists l' h' out,
    data_preprocess 1%positive raw_heap = (l', h') /\ h' !! l' = Some out
    /\ forall r, In r (rows out) ->
       exists a b y,
         SpecPreprocess.lowLimit
           (map (cell col_Quantity) (SpecPreprocess.filtered raw_table))
         = Some a
         /\ SpecPreprocess.upLimit
              (map (cell col_Quantity) (SpecPreprocess.filtered raw_table))
            = Some b
         /\ cell col_Quantity r = Some y /\ (a <= y <= b)%Q.
Proof.
  apply (outliers_clamped_to_fences raw_heap 1%positive raw_table col_Quantity).
  reflexivity.
Defined.

(** On [raw_table] the quantity 100 is clamped to the upper fence 6 and
    the price 50 to the upper fence 31/8; both rows are kept. *)
Example clamping_on_raw_table :
  map (cell col_Quantity) (SpecPreprocess.cleaned raw_table)
  = [Some 1; Some (768 # 128); Some 2; Some 3; Some 3; Some 4]%Q
  /\ map (cell col_UnitPrice) (SpecPreprocess.cleaned raw_table)
     = [Some 2; Some 1; Some 2; Some 2; Some (496 # 128); Some 3]%Q.
Proof. evaluate. Qed.

(** C9.  No row of the frame that [data_preprocess] returns has an
    invoice identifier in which the character ["C"] occurs; and the
    cancellation filter of line 106, on any frame, keeps every row whose
    invoice identifier is missing. *)
Theorem no_cancellation_after_preprocessing (h : gmap loc DataFrame) (l : loc)
  (df : DataFrame) :
  h !! l = Some df ->
  (exists l' h' out,
     data_preprocess l h = (l', h') /\ h' !! l' = Some out
     /\ forall r, In r (rows out) ->
        exists s, InvoiceNo r = Some s
                  /\ ~ exists a b, s = (a ++ "C" ++ b)%string)
  /\ forall (frame : DataFrame) (r : TransactionLine),
       In r (rows frame) -> InvoiceNo r = None ->
       In r (rows (getitem_mask frame (map negb (cancelled frame)))).
Proof.
  intros Hl. split.
  - rewrite (data_preprocess_run _ _ _ Hl).
    eexists _, _, _. split; [ reflexivity |].
    split; [ apply lookup_insert_eq |].
    rewrite rows_preprocessed. intros r Hr.
    destruct (in_clip _ _ _ Hr) as [r1 [Hr1 ->]].
    destruct (in_clip _ _ _ Hr1) as [r0 [Hr0 ->]].
    rewrite !InvoiceNo_set_cell.
    unfold SpecPreprocess.drop_cancellations in Hr0.
    apply filter_In in Hr0. destruct Hr0 as [Hin Hc].
    pose proof (dropna_no_null df) as Hnn.
    rewrite Forall_forall in Hnn.
    destruct (line_has_null_InvoiceNo r0 (Hnn r0 Hin)) as [s Hs].
    exists s. split; [ exact Hs |].
    rewrite Hs in Hc. unfold str_contains in Hc. apply negb_true_iff in Hc.
    intros Hsub. apply search_C_iff in Hsub. congruence.
  - intros frame r Hin Hnone.
    unfold getitem_mask, cancelled. cbn [rows].
    rewrite map_map, select_map. apply filter_In.
    split; [ exact Hin |]. rewrite Hnone. reflexivity.
Qed.

Lemma no_cancellation_after_preprocessing_witness :
  (exists l' h' out,
     data_preprocess 1%positive raw_heap = (l', h') /\ h' !! l' = Some out
     /\ forall r, In r (rows out) ->
        exists s, InvoiceNo r = Some s
                  /\ ~ exists a b, s = (a ++ "C" ++ b)%string)
  /\ forall (frame : DataFrame) (r : TransactionLine),
       In r (rows frame) -> InvoiceNo r = None ->
       In r (rows (getitem_mask frame (map negb (cancelled frame)))).
Proof.
  apply (no_cancellation_after_preprocessing raw_heap 1%positive
           (mkFrame raw_table None)).
  reflexivity.
Defined.

(** The match is case-sensitive: a lower-case ["c"] is not a
    cancellation marker. *)
Example lower_case_is_kept :
  str_contains "C" false (Some "c536379") = false
  /\ str_contains "C" false (Some "C536379") = true
  /\ str_contains "C" false (Some "5363C79") = true
  /\ str_contains "C" false None = false.
Proof. repeat split. Qed.

(** C10.  [data_preprocess] drops the rows with a null field in the
    object it is given: when it returns, the frame behind the caller's
    reference holds the null-free rows of the original, in order, and
    nothing else has been done to it; the frame that is returned is another
    object, and no other object of the heap has changed. *)
Theorem data_preprocess_mutates_argument (h : gmap loc DataFrame) (l : loc)
  (df : DataFrame) :
  h !! l = Some df ->
  exists l' h',
    data_preprocess l h = (l', h')
    /\ h' !! l = Some (dropna df)
    /\ Forall (fun r => line_has_null r = false) (rows (dropna df))
    /\ (TotalPrice df = None ->
        rows (dropna df) = filter (fun r => negb (line_has_null r)) (rows df))
    /\ l' <> l
    /\ h' !! l' = Some (preprocessed df)
    /\ forall k, k <> l -> k <> l' -> h' !! k = h !! k.
Proof.
  intros Hl.
  rewrite (data_preprocess_run _ _ _ Hl).
  pose proof (fresh_loc_ne h l (dropna df)) as Hne.
  eexists _, _. split; [ reflexivity |].
  split; [| split; [| split; [| split; [| split ]]]].
  - rewrite lookup_insert_ne by exact Hne. apply lookup_insert_eq.
  - apply dropna_no_null.
  - intros Hraw. destruct df as [t extra]. simpl in Hraw. subst extra.
    rewrite dropna_raw. reflexivity.
  - exact Hne.
  - apply lookup_insert_eq.
  - intros k Hk Hk'.
    rewrite lookup_insert_ne by congruence.
    rewrite lookup_insert_ne by congruence.
    reflexivity.
Qed.

Lemma data_preprocess_mutates_argument_witness :
  exists l' h',
    data_preprocess 1%positive raw_heap = (l', h')
    /\ h' !! 1%positive = Some (dropna (mkFrame raw_table None))
    /\ Forall (fun r => line_has_null r = false)
         (rows (dropna (mkFrame raw_table None)))
    /\ (TotalPrice (mkFrame raw_table None) = None ->
        rows (dropna (mkFrame raw_table None))
        = filter (fun r => negb (line_has_null r)) (rows (mkFrame raw_table None)))
    /\ l' <> 1%positive
    /\ h' !! l' = Some (preprocessed (mkFrame raw_table None))
    /\ forall k, k <> 1%positive -> k <> l' -> h' !! k = raw_heap !! k.
Proof.
  apply (data_preprocess_mutates_argument raw_heap 1%positive
           (mkFrame raw_table None)).
  reflexivity.
Defined.

(** On [raw_heap] the caller's frame keeps the cancellation and the
    unclipped quantity 100 but has lost the line without customer. *)
Example caller_frame_after_preprocessing :
  let h' := snd (data_preprocess 1%positive raw_heap) in
  option_map (fun df => map InvoiceNo (rows df)) (h' !! 1%positive)
  = Some [Some "536365"; Some "C536379"; Some "536366"; Some "536367";
          Some "536368"; Some "536368"; Some "536369"]
  /\ option_map (fun df => getitem df col_Quantity) (h' !! 1%positive)
     = Some [Some 1; Some (-5); Some 100; Some 2; Some 3; Some 3; Some 4]%Q.
Proof. cbv zeta. evaluate. Qed.

(** The frame that [data_preprocess] returns can always be read as a
    cleaned table: the [TotalPrice] column is there and nothing is
    missing. *)
Lemma cleaned_lines_total (ls : list TransactionLine) :
  Forall (fun r => line_has_null r = false) ls ->
  exists cs, cleaned_lines ls (map SpecPreprocess.lineTotal ls) = Some cs.
Proof.
  induction 1 as [| r ls Hr Hls [cs IH]]; simpl; [ eauto |].
  rewrite IH.
  unfold cleaned_line, SpecPreprocess.lineTotal, line_has_null in *.
  repeat (apply orb_false_elim in Hr; destruct Hr as [Hr ?]).
  destruct (InvoiceNo r), (InvoiceDate r), (CustomerID r), (Quantity r),
    (UnitPrice r); try discriminate.
  simpl. eauto.
Qed.

Lemma data_preprocess_cleaned (df : DataFrame) :
  exists cs, as_cleaned (preprocessed df) = Some cs.
Proof.
  unfold as_cleaned, preprocessed, setitem_TotalPrice.
  cbn [TotalPrice rows]. unfold getitem.
  rewrite mul_series_columns.
  apply cleaned_lines_total.
  rewrite !rows_clipped.
  apply clip_no_null, clip_no_null.
  unfold getitem_mask, cancelled. cbn [rows].
  rewrite map_map, select_map.
  rewrite Forall_forall. intros r Hin.
  apply filter_In in Hin. destruct Hin as [Hin _].
  pose proof (dropna_no_null df) as Hnn.
  rewrite Forall_forall in Hnn. auto.
Qed.

(* ===================================================================== *)
(** ** Distinct values and group keys                                     *)
(* ===================================================================== *)

Section Distinct.

Open Scope Q_scope.

Lemma unique_incl (l : list Q) (y : Q) : In y (unique l) -> In y l.
Proof.
  induction l as [| x l IH]; simpl; [ tauto |].
  intros [H | H]; [ auto |].
  apply filter_In in H. right. apply IH, H.
Qed.

Lemma unique_complete (l : list Q) (x : Q) :
  In x l -> exists y, In y (unique l) /\ y == x.
Proof.
  induction l as [| a l IH]; simpl; [ tauto |].
  intros [-> | H].
  - exists x. split; [ left; reflexivity | reflexivity ].
  - destruct (IH H) as [y [Hy Hyx]].
    destruct (Qeq_bool a y) eqn:E.
    + apply Qeq_bool_iff in E. exists a.
      split; [ left; reflexivity | rewrite E; exact Hyx ].
    + exists y. split; [| exact Hyx ].
      right. apply filter_In. rewrite E. auto.
Qed.

Lemma distinct_filter (f : Q -> bool) (l : list Q) :
  distinct l -> distinct (filter f l).
Proof.
  unfold distinct. induction 1 as [| a l Ha Hl IH]; simpl; [ constructor |].
  destruct (f a); [| exact IH ].
  constructor; [| exact IH ].
  rewrite Forall_forall in *. intros b Hb.
  apply filter_In in Hb. apply Ha, Hb.
Qed.

Lemma unique_distinct (l : list Q) : distinct (unique l).
Proof.
  induction l as [| x l IH]; simpl; [ constructor |].
  constructor; [| apply distinct_filter, IH ].
  rewrite Forall_forall. intros b Hb.
  apply filter_In in Hb. destruct Hb as [_ Hb].
  apply negb_true_iff, Qeq_bool_neq in Hb. exact Hb.
Qed.

Lemma insert_sorted_strict (x : Q) (l : list Q) :
  StronglySorted Qlt l -> Forall (fun y => ~ x == y) l ->
  StronglySorted Qlt (insert_sorted x l).
Proof.
  induction 1 as [| y l Hs IH Hall]; intros Hx; simpl.
  - constructor; constructor.
  - inversion_clear Hx as [| ? ? Hxy Hxl].
    destruct (Qle_bool x y) eqn:E.
    + apply Qle_bool_iff in E.
      assert (x < y) as Hlt.
      { destruct (Qlt_le_dec x y) as [H | H]; [ exact H |].
        exfalso. apply Hxy. apply Qle_antisym; assumption. }
      constructor; [ constructor; assumption |].
      constructor; [ exact Hlt |].
      eapply Forall_impl; [| exact Hall ].
      intros z Hz. eapply Qlt_trans; eassumption.
    + assert (y < x) as Hlt.
      { apply Qnot_le_lt. intros Hle. apply Qle_bool_iff in Hle. congruence. }
      constructor; [ apply IH, Hxl |].
      eapply Permutation_Forall; [ apply Permutation_sym, insert_sorted_perm |].
      constructor; assumption.
Qed.

(** Sorting distinct values gives a strictly ascending list. *)
Lemma sort_values_strict (l : list Q) :
  distinct l -> StronglySorted Qlt (sort_values l).
Proof.
  unfold distinct. induction 1 as [| x l Hx Hl IH]; simpl; [ constructor |].
  apply insert_sorted_strict; [ exact IH |].
  eapply Permutation_Forall; [ apply Permutation_sym, sort_values_perm |].
  exact Hx.
Qed.

Lemma strictly_sorted_eq (l : list Q) :
  StronglySorted Qlt l ->
  forall a b, In a l -> In b l -> a == b -> a = b.
Proof.
  induction 1 as [| x l Hs IH Hall]; intros a b Ha Hb Hab; [ destruct Ha |].
  rewrite Forall_forall in Hall.
  destruct Ha as [-> | Ha], Hb as [-> | Hb]; auto.
  - specialize (Hall b Hb). lra.
  - specialize (Hall a Ha). lra.
Qed.

Lemma groupby_keys_strict (t : list CleanedLine) :
  StronglySorted Qlt (groupby_keys t).
Proof. apply sort_values_strict, unique_distinct. Qed.

Lemma groupby_keys_sound (t : list CleanedLine) (k : Q) :
  In k (groupby_keys t) -> exists line, In line t /\ cCustomerID line = k.
Proof.
  unfold groupby_keys. intros H.
  apply (Permutation_in _ (sort_values_perm _)) in H.
  apply unique_incl, in_map_iff in H.
  destruct H as [line [Heq Hin]]. eauto.
Qed.

Lemma groupby_keys_complete (t : list CleanedLine) (line : CleanedLine) :
  In line t -> exists k, In k (groupby_keys t) /\ k == cCustomerID line.
Proof.
  intros Hin.
  destruct (unique_complete (map cCustomerID t) (cCustomerID line))
    as [k [Hk Heq]]; [ apply in_map, Hin |].
  exists k. split; [| exact Heq ].
  unfold groupby_keys.
  apply (Permutation_in _ (Permutation_sym (sort_values_perm _))), Hk.
Qed.

(** A group does not depend on how its key is written. *)
Lemma group_proper (t : list CleanedLine) (k c : Q) :
  k == c -> group t k = group t c.
Proof.
  intros Hkc. unfold group. apply filter_ext. intros r.
  destruct (Qeq_bool (cCustomerID r) k) eqn:E1,
           (Qeq_bool (cCustomerID r) c) eqn:E2; try reflexivity.
  - apply Qeq_bool_iff in E1. apply Qeq_bool_neq in E2.
    exfalso. apply E2. rewrite E1. exact Hkc.
  - apply Qeq_bool_iff in E2. apply Qeq_bool_neq in E1.
    exfalso. apply E1. rewrite E2. symmetry. exact Hkc.
Qed.

Lemma group_nonempty (t : list CleanedLine) (k : Q) :
  In k (groupby_keys t) -> group t k <> [].
Proof.
  intros Hk Hnil.
  destruct (groupby_keys_sound t k Hk) as [line [Hin Heq]].
  assert (In line (group t k)) as Hg.
  { apply filter_In. split; [ exact Hin |].
    rewrite Heq. apply Qeq_bool_refl. }
  rewrite Hnil in Hg. destruct Hg.
Qed.

End Distinct.

Section Aggregations.

Open Scope Z_scope.

Lemma fold_left_max_spec (l : list Z) (x : Z) :
  let m := fold_left Z.max l x in
  (m = x \/ In m l) /\ x <= m /\ forall d, In d l -> d <= m.
Proof.
  revert x. induction l as [| y l IH]; intros x; simpl.
  - split; [ auto | split; [ lia | tauto ] ].
  - destruct (IH (Z.max x y)) as [H1 [H2 H3]].
    split; [| split ].
    + destruct H1 as [H1 | H1]; [| auto ].
      rewrite H1. destruct (Z.max_spec x y) as [[_ ->] | [_ ->]]; auto.
    + lia.
    + intros d [<- | Hd]; [ lia | auto ].
Qed.

Lemma series_max_is_max (l : list Z) : l <> [] -> is_max (series_max l) l.
Proof.
  destruct l as [| x l]; [ congruence | intros _ ].
  unfold is_max, series_max.
  destruct (fold_left_max_spec l x) as [H1 [H2 H3]].
  split.
  - destruct H1 as [-> | H1]; [ left; reflexivity | right; exact H1 ].
  - intros d [<- | Hd]; [ exact H2 | auto ].
Qed.

Lemma unique_str_In (l : list string) (s : string) :
  In s (unique_str l) <-> In s l.
Proof.
  induction l as [| x l IH]; simpl; [ tauto |].
  rewrite filter_In, IH, negb_true_iff, String.eqb_neq.
  destruct (String.eqb_spec x s); [ tauto |].
  intuition congruence.
Qed.

Lemma unique_str_NoDup (l : list string) : NoDup (unique_str l).
Proof.
  induction l as [| x l IH]; simpl; constructor.
  - rewrite filter_In, negb_true_iff, String.eqb_neq. intros [_ H]. congruence.
  - apply NoDup_filter, IH.
Qed.

Lemma nunique_is_distinct_count (l : list string) :
  is_distinct_count (nunique l) l.
Proof.
  exists (unique_str l).
  split; [ apply unique_str_NoDup | split; [ apply unique_str_In | reflexivity ] ].
Qed.

(** [series_sum] adds the values up, whatever the order. *)
Lemma fold_left_Qplus (l : list Q) (a : Q) :
  (fold_left Qplus l a == a + fold_left Qplus l 0)%Q.
Proof.
  revert a. induction l as [| x l IH]; intros a; simpl.
  - ring.
  - rewrite (IH (a + x)%Q), (IH (0 + x)%Q). ring.
Qed.

Lemma series_sum_cons (x : Q) (l : list Q) :
  (series_sum (x :: l) == x + series_sum l)%Q.
Proof.
  unfold series_sum. simpl. rewrite fold_left_Qplus. ring.
Qed.

End Aggregations.

(* ===================================================================== *)
(** ** The shape of the scored frame                                      *)
(* ===================================================================== *)

Lemma qcut_error (x : list Q) (q : nat) (labels : list Z) (e : error) :
  qcut x q labels = inl e -> e = ValueError "Bin edges must be unique".
Proof.
  unfold qcut. destruct x; [ congruence |].
  destruct (_ && _); congruence.
Qed.

(** The edges that [qcut] computes for a Series. *)
Lemma qcut_ok (x : list Q) (q : nat) (labels : list Z) (ids : list (option Z)) :
  qcut x q labels = inr ids ->
  let bins := map (interpolate_linear (sort_values x)) (linspace q) in
  x <> []
  /\ has_duplicates bins && negb (List.length bins =? 2)%nat = false
  /\ ids = map (bin_of bins labels) x.
Proof.
  unfold qcut. destruct x as [| v x]; [ discriminate |].
  destruct (_ && _) eqn:E; [ discriminate |].
  intros [= <-]. repeat split; congruence.
Qed.

Lemma segment_rows_metrics (rfm : list CustomerRecord)
  (rs fs ms : list (option Z)) :
  List.length rs = List.length rfm -> List.length fs = List.length rfm ->
  List.length ms = List.length rfm ->
  map metrics (segment_rows rfm rs fs ms) = rfm.
Proof.
  revert rs fs ms.
  induction rfm as [| r rfm IH]; intros rs fs ms H1 H2 H3; [ reflexivity |].
  destruct rs, fs, ms; simpl in *; try discriminate.
  rewrite IH by lia. reflexivity.
Qed.

(** A row of the returned frame, by position. *)
Lemma segment_rows_nth (rfm : list CustomerRecord) (rs fs ms : list (option Z))
  (i : nat) (r : CustomerRecord) (a b c : option Z) :
  nth_error rfm i = Some r -> nth_error rs i = Some a ->
  nth_error fs i = Some b -> nth_error ms i = Some c ->
  nth_error (segment_rows rfm rs fs ms) i = Some (segment_row r a b c).
Proof.
  revert rfm rs fs ms.
  induction i as [| i IH]; intros rfm rs fs ms Hr Ha Hb Hc;
    destruct rfm, rs, fs, ms; simpl in *; try discriminate.
  - congruence.
  - apply IH; assumption.
Qed.

Lemma segment_rows_In (rfm : list CustomerRecord) (rs fs ms : list (option Z))
  (s : ScoredCustomer) :
  In s (segment_rows rfm rs fs ms) ->
  exists i r a b c,
    nth_error rfm i = Some r /\ nth_error rs i = Some a
    /\ nth_error fs i = Some b /\ nth_error ms i = Some c
    /\ s = segment_row r a b c.
Proof.
  revert rs fs ms.
  induction rfm as [| r rfm IH]; intros rs fs ms Hin; [ destruct Hin |].
  destruct rs as [| a rs], fs as [| b fs], ms as [| c ms]; try destruct Hin.
  - exists 0%nat, r, a, b, c. simpl. auto.
  - destruct (IH _ _ _ H) as [i [r' [a' [b' [c' H']]]]].
    exists (S i), r', a', b', c'. exact H'.
Qed.

(** What a successful run of lines 150-176 has computed. *)
Lemma score_ok (rfm : list CustomerRecord) (out : list ScoredCustomer) :
  score rfm = inr out ->
  exists rs fs ms,
    qcut (map (fun r => inject_Z (Recency r)) rfm) 5 [5; 4; 3; 2; 1]%Z = inr rs
    /\ qcut (rank_first (map Frequency rfm)) 5 [1; 2; 3; 4; 5]%Z = inr fs
    /\ qcut (map Monetary rfm) 5 [1; 2; 3; 4; 5]%Z = inr ms
    /\ out = segment_rows rfm rs fs ms.
Proof.
  unfold score, and_then.
  destruct (qcut (map _ rfm) 5 [5; 4; 3; 2; 1]%Z) as [| rs]; [ discriminate |].
  destruct (qcut (rank_first _) 5 _) as [| fs]; [ discriminate |].
  destruct (qcut (map Monetary rfm) 5 _) as [| ms]; [ discriminate |].
  intros [= <-]. eauto 10.
Qed.

Lemma rank_first_from_length (all before l : list Z) :
  List.length (rank_first_from all before l) = List.length l.
Proof.
  revert before. induction l as [| x l IH]; intros before; simpl; congruence.
Qed.

Lemma qcut_length (x : list Q) (q : nat) (labels : list Z) (ids : list (option Z)) :
  qcut x q labels = inr ids -> List.length ids = List.length x.
Proof.
  intros H. apply qcut_ok in H. destruct H as [_ [_ ->]].
  apply length_map.
Qed.

Lemma score_metrics (rfm : list CustomerRecord) (out : list ScoredCustomer) :
  score rfm = inr out -> map metrics out = rfm.
Proof.
  intros H. destruct (score_ok _ _ H) as [rs [fs [ms [Hr [Hf [Hm ->]]]]]].
  apply qcut_length in Hr, Hf, Hm.
  unfold rank_first in Hf.
  rewrite rank_first_from_length in Hf.
  rewrite length_map in Hr, Hf, Hm.
  apply segment_rows_metrics; assumption.
Qed.

Lemma score_index (rfm : list CustomerRecord) (out : list ScoredCustomer)
  (s : ScoredCustomer) :
  score rfm = inr out -> In s out ->
  index s = astype_int (customer (metrics s))
  /\ RF_Score s = RF_Score_of (RecencyScore s) (FrequencyScore s)
  /\ CustomerSegment s = CustomerSegment_of (RF_Score s).
Proof.
  intros H Hin. destruct (score_ok _ _ H) as [rs [fs [ms [_ [_ [_ ->]]]]]].
  destruct (segment_rows_In _ _ _ _ _ Hin) as [i [r [a [b [c [_ [_ [_ [_ ->]]]]]]]]].
  simpl. auto.
Qed.

(* ===================================================================== *)
(** ** Properties of the aggregator                                       *)
(* ===================================================================== *)

Lemma in_groupby_agg (t : list CleanedLine) (r : CustomerRecord) :
  In r (groupby_agg t) <->
  exists k, In k (groupby_keys t) /\ r = agg k (group t k).
Proof.
  unfold groupby_agg. rewrite in_map_iff.
  split; intros [k [H1 H2]]; exists k; auto.
Qed.

Lemma in_aggregate (t : list CleanedLine) (r : CustomerRecord) :
  In r (aggregate t) <-> In r (groupby_agg t) /\ (0 < Monetary r)%Q.
Proof.
  unfold aggregate. rewrite filter_In, Qlt_bool_iff. tauto.
Qed.

(** C6.  Every record of [rfm] after line 148 has [Monetary > 0]: the
    records of the grouped frame with [Monetary <= 0] are exactly the ones
    that are dropped, and every row of the frame that
    [create_segment_dataframe] returns still has [Monetary > 0]. *)
Theorem monetary_is_positive (t : list CleanedLine) :
  Forall (fun r => (0 < Monetary r)%Q) (aggregate t)
  /\ (forall r, In r (groupby_agg t) ->
      ((Monetary r <= 0)%Q <-> ~ In r (aggregate t)))
  /\ forall out, create_segment_dataframe t = inr out ->
       Forall (fun s => (0 < Monetary (metrics s))%Q) out.
Proof.
  split; [| split ].
  - rewrite Forall_forall. intros r Hr. apply in_aggregate in Hr. tauto.
  - intros r Hr. rewrite in_aggregate. split.
    + intros Hle [_ Hlt]. lra.
    + intros Hnot. destruct (Qlt_le_dec 0 (Monetary r)); [ tauto | assumption ].
  - intros out Hout. unfold create_segment_dataframe in Hout.
    apply score_metrics in Hout.
    rewrite Forall_forall. intros s Hs.
    assert (In (metrics s) (aggregate t)) as Hin.
    { rewrite <- Hout. apply in_map, Hs. }
    apply in_aggregate in Hin. tauto.
Qed.

Lemma monetary_is_positive_witness :
  exists out,
    create_segment_dataframe cleaned_zero = inr out
    /\ Forall (fun s => (0 < Monetary (metrics s))%Q) out.
Proof.
  eexists. split; [ vm_compute; reflexivity |].
  apply (monetary_is_positive cleaned_zero).
  vm_compute; reflexivity.
Defined.

(** C3, as amended.  Lines 141-145 produce exactly one record per
    distinct customer identifier of the cleaned table, with [Recency] the
    whole days from the customer's latest invoice date to [todays_date],
    [Frequency] the number of distinct invoice identifiers of the customer
    and [Monetary] the sum of the customer's [TotalPrice].  Line 148 then
    keeps the records with [Monetary > 0] only, and the returned frame has
    these records, in the same order, indexed by the customer identifier
    cast to an integer. *)
Theorem one_record_per_customer (t : list CleanedLine) :
  (forall line, In line t ->
     exists r,
       In r (groupby_agg t) /\ (customer r == cCustomerID line)%Q
       /\ forall r', In r' (groupby_agg t) ->
            (customer r' == cCustomerID line)%Q -> r' = r)
  /\ (forall r, In r (groupby_agg t) ->
      let g := filter (fun line => Qeq_bool (cCustomerID line) (customer r)) t in
      g <> []
      /\ (exists m, is_max m (map cInvoiceDate g)
                    /\ Recency r = ((todays_date - m) / 86400)%Z)
      /\ is_distinct_count (Frequency r) (map cInvoiceNo g)
      /\ Monetary r = series_sum (map cTotalPrice g))
  /\ (forall r, In r (aggregate t) <->
                In r (groupby_agg t) /\ (0 < Monetary r)%Q)
  /\ forall out, create_segment_dataframe t = inr out ->
       map metrics out = aggregate t
       /\ forall s, In s out -> index s = astype_int (customer (metrics s)).
Proof.
  split; [| split; [| split ]].
  - intros line Hline.
    destruct (groupby_keys_complete t line Hline) as [k [Hk Heq]].
    exists (agg k (group t k)). split; [| split ].
    + apply in_groupby_agg. eauto.
    + exact Heq.
    + intros r' Hr' Heq'.
      apply in_groupby_agg in Hr'. destruct Hr' as [k' [Hk' ->]].
      simpl in Heq'.
      assert (k' = k) as ->; [| reflexivity ].
      apply (strictly_sorted_eq _ (groupby_keys_strict t)); try assumption.
      rewrite Heq', Heq. reflexivity.
  - intros r Hr g.
    apply in_groupby_agg in Hr. destruct Hr as [k [Hk ->]].
    subst g. simpl. fold (group t k).
    pose proof (group_nonempty t k Hk) as Hne.
    split; [ exact Hne |]. split; [| split ].
    + exists (series_max (map cInvoiceDate (group t k))).
      split; [| reflexivity ].
      apply series_max_is_max.
      destruct (group t k); [ congruence | discriminate ].
    + apply nunique_is_distinct_count.
    + reflexivity.
  - apply in_aggregate.
  - intros out Hout. unfold create_segment_dataframe in Hout.
    split; [ apply score_metrics, Hout |].
    intros s Hs. apply (score_index _ _ s Hout Hs).
Qed.

Lemma one_record_per_customer_witness :
  exists out,
    create_segment_dataframe cleaned_zero = inr out
    /\ map metrics out = aggregate cleaned_zero
    /\ forall s, In s out -> index s = astype_int (customer (metrics s)).
Proof.
  eexists. split; [ vm_compute; reflexivity |].
  apply (one_record_per_customer cleaned_zero).
  vm_compute; reflexivity.
Defined.

(** Customer 13047 is in the cleaned table [cleaned_zero] but has no
    record after aggregation, and no row in the returned frame. *)
Lemma customer_without_record :
  In 13047%Q (map cCustomerID cleaned_zero)
  /\ (forall r, In r (aggregate cleaned_zero) -> ~ (customer r == 13047)%Q)
  /\ exists out,
       create_segment_dataframe cleaned_zero = inr out
       /\ map index out = [12583; 17850]%Z.
Proof.
  split; [ simpl; tauto |]. split.
  - intros r Hr.
    assert (In (customer r) (map customer (aggregate cleaned_zero))) as H
      by (apply in_map, Hr).
    generalize dependent (customer r). intros c H.
    vm_compute in H.
    destruct H as [<- | [<- | []]]; intros Heq; discriminate Heq.
  - eexists. evaluate.
Qed.

(* ===================================================================== *)
(** ** The quintile edges of a Series                                     *)
(* ===================================================================== *)

Section Edges.

Open Scope Q_scope.

Lemma bins_edges (s : list Q) :
  map (interpolate_linear s) (linspace 5)
  = [edge s 0; edge s 1; edge s 2; edge s 3; edge s 4; edge s 5].
Proof. reflexivity. Qed.

Lemma level_eq (k : nat) :
  inject_Z (Z.of_nat k) / inject_Z (Z.of_nat 5)
  == inject_Z (Z.of_nat k) * (1 # 5).
Proof. unfold Qdiv. reflexivity. Qed.

Lemma level_bounds (k : nat) :
  (k <= 5)%nat ->
  0 <= inject_Z (Z.of_nat k) / inject_Z (Z.of_nat 5) <= 1.
Proof.
  intros Hk. rewrite level_eq.
  assert (inject_Z 0 <= inject_Z (Z.of_nat k)) as H0
    by (rewrite <- Zle_Qle; lia).
  assert (inject_Z (Z.of_nat k) <= inject_Z 5) as H5
    by (rewrite <- Zle_Qle; lia).
  change (inject_Z 0) with 0 in H0. change (inject_Z 5) with 5 in H5.
  split; lra.
Qed.

Lemma level_mono (k k' : nat) :
  (k <= k')%nat ->
  inject_Z (Z.of_nat k) / inject_Z (Z.of_nat 5)
  <= inject_Z (Z.of_nat k') / inject_Z (Z.of_nat 5).
Proof.
  intros Hk. rewrite !level_eq.
  assert (inject_Z (Z.of_nat k) <= inject_Z (Z.of_nat k')) as H
    by (rewrite <- Zle_Qle; lia).
  lra.
Qed.

Lemma at_position_comp (s : list Q) (pos pos' : Q) :
  pos == pos' -> at_position s pos == at_position s pos'.
Proof.
  intros H. unfold at_position.
  rewrite (Qfloor_comp _ _ H). rewrite H. reflexivity.
Qed.

Variable s : list Q.
Hypothesis s_sorted : StronglySorted Qle s.
Hypothesis s_nonempty : (1 <= List.length s)%nat.

Lemma edge_mono (k k' : nat) :
  (k <= k')%nat -> (k' <= 5)%nat -> edge s k <= edge s k'.
Proof.
  intros Hkk Hk. unfold edge.
  apply interpolate_linear_mono; try assumption.
  - apply level_bounds. lia.
  - apply level_mono, Hkk.
  - apply level_bounds, Hk.
Qed.

Lemma edge_first : edge s 0 == nth 0 s 0.
Proof.
  unfold edge, interpolate_linear.
  rewrite <- (at_position_index s 0).
  apply at_position_comp. rewrite level_eq.
  change (inject_Z (Z.of_nat 0)) with 0. ring.
Qed.

Lemma edge_last : edge s 5 == nth (List.length s - 1) s 0.
Proof.
  unfold edge, interpolate_linear.
  rewrite <- (at_position_index s (List.length s - 1)).
  apply at_position_comp. rewrite level_eq.
  rewrite Nat2Z.inj_sub by lia.
  change (inject_Z (Z.of_nat 5)) with 5. change (Z.of_nat 1) with 1%Z.
  generalize (inject_Z (Z.of_nat (List.length s) - 1)). intros m. ring.
Qed.

Lemma edge_lower (v : Q) : In v s -> edge s 0 <= v.
Proof.
  intros Hv. rewrite edge_first.
  destruct (In_nth s v 0 Hv) as [i [Hi <-]].
  apply sorted_nth_le; [ assumption | lia | assumption ].
Qed.

Lemma edge_upper (v : Q) : In v s -> v <= edge s 5.
Proof.
  intros Hv. rewrite edge_last.
  destruct (In_nth s v 0 Hv) as [i [Hi <-]].
  apply sorted_nth_le; [ assumption | lia | lia ].
Qed.

Abbreviation bins := [edge s 0; edge s 1; edge s 2; edge s 3; edge s 4; edge s 5].

Lemma searchsorted_mono (l : list Q) (v w : Q) :
  v <= w -> (searchsorted_left l v <= searchsorted_left l w)%nat.
Proof.
  intros Hvw. unfold searchsorted_left.
  induction l as [| e l IH]; simpl; [ lia |].
  destruct (Qlt_bool e v) eqn:E1.
  - apply Qlt_bool_iff in E1.
    assert (Qlt_bool e w = true) as -> by (apply Qlt_bool_iff; lra).
    simpl. lia.
  - destruct (Qlt_bool e w); simpl; lia.
Qed.

(** A value of the Series falls in one of the five bins. *)
Lemma bin_index_range (v : Q) :
  In v s -> (1 <= bin_index bins v <= 5)%nat.
Proof.
  intros Hv. unfold bin_index. cbn [hd].
  destruct (Qeq_bool v (edge s 0)) eqn:E0; [ lia |].
  apply Qeq_bool_neq in E0.
  pose proof (edge_lower v Hv) as Hlo.
  pose proof (edge_upper v Hv) as Hhi.
  unfold searchsorted_left. cbn [filter].
  assert (Qlt_bool (edge s 0) v = true) as ->.
  { apply Qlt_bool_iff. apply Qle_lteq in Hlo.
    destruct Hlo as [H | H]; [ exact H | exfalso; apply E0; symmetry; exact H ]. }
  assert (Qlt_bool (edge s 5) v = false) as ->
    by (apply Qlt_bool_false_iff; exact Hhi).
  destruct (Qlt_bool (edge s 1) v), (Qlt_bool (edge s 2) v),
    (Qlt_bool (edge s 3) v), (Qlt_bool (edge s 4) v); simpl; lia.
Qed.

(** The bin number grows with the value. *)
Lemma bin_index_mono (v w : Q) :
  In v s -> In w s -> v <= w ->
  (bin_index bins v <= bin_index bins w)%nat.
Proof.
  intros Hv Hw Hvw.
  pose proof (bin_index_range w Hw) as Hrw.
  unfold bin_index in *. cbn [hd] in *.
  destruct (Qeq_bool v (edge s 0)) eqn:Ev; [ lia |].
  destruct (Qeq_bool w (edge s 0)) eqn:Ew.
  - apply Qeq_bool_iff in Ew. apply Qeq_bool_neq in Ev.
    pose proof (edge_lower v Hv) as Hlo.
    exfalso. apply Ev. apply Qle_antisym; lra.
  - apply searchsorted_mono, Hvw.
Qed.

Lemma bin_index_lowest (v : Q) :
  v == edge s 0 -> bin_index bins v = 1%nat.
Proof.
  intros Hv. unfold bin_index. cbn [hd].
  rewrite (Qeq_eq_bool _ _ Hv). reflexivity.
Qed.

(** When the edges are pairwise different they are strictly ascending. *)
Hypothesis edges_unique : has_duplicates bins = false.

Lemma edge_strict (k k' : nat) :
  (k < k')%nat -> (k' <= 5)%nat -> edge s k < edge s k'.
Proof.
  intros Hkk Hk.
  assert (edge s k <= edge s k') as Hle by (apply edge_mono; lia).
  apply Qle_lteq in Hle. destruct Hle as [Hlt | Heq]; [ exact Hlt |].
  exfalso. apply Qeq_eq_bool in Heq.
  pose proof edges_unique as Hu. cbn [has_duplicates existsb] in Hu.
  repeat match goal with
         | H : (_ || _)%bool = false |- _ =>
             apply orb_false_elim in H; destruct H
         end.
  assert (k = 0 \/ k = 1 \/ k = 2 \/ k = 3 \/ k = 4)%nat as Hk0 by lia.
  assert (k' = 1 \/ k' = 2 \/ k' = 3 \/ k' = 4 \/ k' = 5)%nat as Hk1 by lia.
  destruct Hk0 as [-> | [-> | [-> | [-> | ->]]]];
    destruct Hk1 as [-> | [-> | [-> | [-> | ->]]]];
    try (clear - Hkk; lia);
    match goal with
    | H : Qeq_bool ?a ?b = false, H' : Qeq_bool ?a ?b = true |- _ =>
        rewrite H in H'; discriminate H'
    end.
Qed.

Lemma bin_index_highest (v : Q) :
  v == edge s 5 -> bin_index bins v = 5%nat.
Proof.
  intros Hv. unfold bin_index. cbn [hd].
  pose proof (edge_strict 0 5 ltac:(lia) ltac:(lia)) as H0.
  pose proof (edge_strict 1 5 ltac:(lia) ltac:(lia)) as H1.
  pose proof (edge_strict 2 5 ltac:(lia) ltac:(lia)) as H2.
  pose proof (edge_strict 3 5 ltac:(lia) ltac:(lia)) as H3.
  pose proof (edge_strict 4 5 ltac:(lia) ltac:(lia)) as H4.
  assert (Qeq_bool v (edge s 0) = false) as ->.
  { destruct (Qeq_bool v (edge s 0)) eqn:E; [| reflexivity ].
    apply Qeq_bool_iff in E. lra. }
  unfold searchsorted_left. cbn [filter].
  assert (Qlt_bool (edge s 0) v = true) as -> by (apply Qlt_bool_iff; lra).
  assert (Qlt_bool (edge s 1) v = true) as -> by (apply Qlt_bool_iff; lra).
  assert (Qlt_bool (edge s 2) v = true) as -> by (apply Qlt_bool_iff; lra).
  assert (Qlt_bool (edge s 3) v = true) as -> by (apply Qlt_bool_iff; lra).
  assert (Qlt_bool (edge s 4) v = true) as -> by (apply Qlt_bool_iff; lra).
  assert (Qlt_bool (edge s 5) v = false) as ->
    by (apply Qlt_bool_false_iff; lra).
  reflexivity.
Qed.

End Edges.

(* ===================================================================== *)
(** ** Quintile edges of pairwise different values                        *)
(* ===================================================================== *)

Section StrictEdges.

Open Scope Q_scope.

Lemma strict_sorted_weaken (l : list Q) :
  StronglySorted Qlt l -> StronglySorted Qle l.
Proof.
  induction 1 as [| x l Hs IH Hall]; constructor; [ exact IH |].
  eapply Forall_impl; [| exact Hall ].
  intros y Hy. apply Qlt_le_weak, Hy.
Qed.

Lemma sorted_nth_lt (l : list Q) :
  StronglySorted Qlt l ->
  forall i j, (i < j)%nat -> (j < List.length l)%nat ->
  nth i l 0 < nth j l 0.
Proof.
  induction 1 as [| x l Hs IH Hall]; intros i j Hij Hj; simpl in Hj.
  - lia.
  - destruct i as [| i], j as [| j]; simpl; try lia.
    + rewrite Forall_forall in Hall. apply Hall, nth_In. lia.
    + apply IH; lia.
Qed.

Variable s : list Q.
Hypothesis s_strict : StronglySorted Qlt s.
Hypothesis s_two : (2 <= List.length s)%nat.

Let s_sorted : StronglySorted Qle s := strict_sorted_weaken s s_strict.

Let s_nonempty : (1 <= List.length s)%nat.
Proof. lia. Qed.

Let last_index : Z := (Z.of_nat (List.length s) - 1)%Z.

(** Below the last position, the interpolated value stays below the
    next element. *)
Lemma at_position_lt_next (pos : Q) :
  0 <= pos -> (Qfloor pos + 1 <= last_index)%Z ->
  at_position s pos < nth (Z.to_nat (Qfloor pos) + 1) s 0.
Proof.
  intros H0 Hj. unfold at_position.
  assert (0 <= Qfloor pos)%Z as Hj0.
  { rewrite <- (Qfloor_Z 0). apply Qfloor_resp_le, H0. }
  pose proof (position_frac pos) as [Hg0 Hg1].
  set (j := Qfloor pos) in *.
  set (g := pos - inject_Z j) in *.
  subst last_index.
  replace (Nat.min (Z.to_nat j + 1) (List.length s - 1))
    with (Z.to_nat j + 1)%nat by lia.
  assert (nth (Z.to_nat j) s 0 < nth (Z.to_nat j + 1) s 0) as Hlt.
  { apply sorted_nth_lt; [ assumption | lia | lia ]. }
  set (lo := nth (Z.to_nat j) s 0) in *.
  set (hi := nth (Z.to_nat j + 1) s 0) in *.
  assert (0 < (hi - lo) * (1 - g)) by (apply Qmult_lt_0_compat; lra).
  lra.
Qed.

(** An element is above an interpolated value exactly when its index
    is above the floor of the position. *)
Lemma at_position_lt_nth (pos : Q) (i : nat) :
  0 <= pos -> pos <= inject_Z last_index -> (i < List.length s)%nat ->
  (at_position s pos < nth i s 0 <-> (Qfloor pos < Z.of_nat i)%Z).
Proof.
  intros H0 H1 Hi.
  pose proof (position_floor _ _ s_nonempty H0 H1) as Hj.
  split.
  - intros Hlt.
    destruct (Z_lt_le_dec (Qfloor pos) (Z.of_nat i)) as [H | H]; [ exact H |].
    exfalso.
    assert (nth i s 0 <= nth (Z.to_nat (Qfloor pos)) s 0) as Hle.
    { apply sorted_nth_le; [ exact s_sorted | lia | lia ]. }
    pose proof (at_position_lower s s_sorted s_nonempty pos H0 H1) as Hlow.
    lra.
  - intros Hlt.
    assert (at_position s pos < nth (Z.to_nat (Qfloor pos) + 1) s 0) as Hnext.
    { apply at_position_lt_next; [ exact H0 | subst last_index; lia ]. }
    assert (nth (Z.to_nat (Qfloor pos) + 1) s 0 <= nth i s 0) as Hle.
    { apply sorted_nth_le; [ exact s_sorted | lia | lia ]. }
    lra.
Qed.

(** The floor of the position of the [k]-th edge. *)
Lemma edge_position_floor (k : nat) :
  Qfloor (inject_Z last_index
          * (inject_Z (Z.of_nat k) / inject_Z (Z.of_nat 5)))
  = (last_index * Z.of_nat k / 5)%Z.
Proof.
  rewrite Zdiv_Qdiv. apply Qfloor_comp.
  rewrite inject_Z_mult. unfold Qdiv.
  change (inject_Z (Z.of_nat 5)) with (inject_Z 5). ring.
Qed.

Lemma edge_position_bounds (k : nat) :
  (k <= 5)%nat ->
  0 <= inject_Z last_index * (inject_Z (Z.of_nat k) / inject_Z (Z.of_nat 5))
  /\ inject_Z last_index * (inject_Z (Z.of_nat k) / inject_Z (Z.of_nat 5))
     <= inject_Z last_index.
Proof.
  intros Hk.
  destruct (level_bounds k Hk) as [Hq0 Hq1].
  assert (0 <= inject_Z last_index) as Hm.
  { change 0 with (inject_Z 0). rewrite <- Zle_Qle. subst last_index. lia. }
  set (m := inject_Z last_index) in *.
  set (q := inject_Z (Z.of_nat k) / inject_Z (Z.of_nat 5)) in *.
  assert (0 <= m * q) by (apply Qmult_le_0_compat; lra).
  assert (0 <= m * (1 - q)) by (apply Qmult_le_0_compat; lra).
  split; lra.
Qed.

(** The values strictly above the [k]-th edge are those whose index in
    the sorted Series is above [(n-1)*k/5], rounded down. *)
Lemma edge_lt_nth (k i : nat) :
  (k <= 5)%nat -> (i < List.length s)%nat ->
  (edge s k < nth i s 0 <-> (last_index * Z.of_nat k / 5 < Z.of_nat i)%Z).
Proof.
  intros Hk Hi. unfold edge, interpolate_linear.
  fold last_index.
  destruct (edge_position_bounds k Hk) as [H0 H1].
  rewrite (at_position_lt_nth _ i H0 H1 Hi).
  rewrite edge_position_floor. reflexivity.
Qed.

Lemma last_index_nth : (Z.to_nat last_index < List.length s)%nat.
Proof. subst last_index. lia. Qed.

(** On pairwise different values interpolation is strictly monotone. *)
Lemma at_position_strict (pos pos' : Q) :
  0 <= pos -> pos < pos' -> pos' <= inject_Z last_index ->
  at_position s pos < at_position s pos'.
Proof.
  intros H0 Hpp H1.
  assert (pos <= inject_Z last_index) as H1' by lra.
  assert (0 <= pos') as H0' by lra.
  pose proof (position_floor _ _ s_nonempty H0 H1') as Hj.
  pose proof (position_floor _ _ s_nonempty H0' H1) as Hj'.
  assert (pos <= pos') as Hle by lra.
  pose proof (Qfloor_resp_le _ _ Hle) as Hjj.
  destruct (Z.eq_dec (Qfloor pos) (Qfloor pos')) as [Heq | Hne].
  - pose proof (position_frac pos) as [Hg0 Hg1].
    pose proof (position_frac pos') as [Hg0' Hg1'].
    assert (Qfloor pos + 1 <= last_index)%Z as Hnext.
    { destruct (Z_lt_le_dec (Qfloor pos) last_index) as [H | H]; [ lia |].
      exfalso.
      assert (inject_Z last_index <= inject_Z (Qfloor pos)) as Hq
        by (rewrite <- Zle_Qle; exact H).
      lra. }
    unfold at_position. rewrite <- Heq in *.
    set (j := Qfloor pos) in *.
    subst last_index.
    replace (Nat.min (Z.to_nat j + 1) (List.length s - 1))
      with (Z.to_nat j + 1)%nat by lia.
    assert (nth (Z.to_nat j) s 0 < nth (Z.to_nat j + 1) s 0) as Hlt.
    { apply sorted_nth_lt; [ assumption | lia | lia ]. }
    set (lo := nth (Z.to_nat j) s 0) in *.
    set (hi := nth (Z.to_nat j + 1) s 0) in *.
    assert (0 < (hi - lo) * (pos' - pos)) by (apply Qmult_lt_0_compat; lra).
    lra.
  - assert (at_position s pos < nth (Z.to_nat (Qfloor pos) + 1) s 0) as Hnext.
    { apply at_position_lt_next; [ exact H0 | lia ]. }
    assert (nth (Z.to_nat (Qfloor pos) + 1) s 0
            <= nth (Z.to_nat (Qfloor pos')) s 0) as Hmid.
    { apply sorted_nth_le; [ exact s_sorted | lia | subst last_index; lia ]. }
    pose proof (at_position_lower s s_sorted s_nonempty pos' H0' H1) as Hlow.
    lra.
Qed.

(** With at least two different values the six edges are different. *)
Lemma strict_edge_lt (k k' : nat) :
  (k < k')%nat -> (k' <= 5)%nat -> edge s k < edge s k'.
Proof.
  intros Hkk Hk. unfold edge, interpolate_linear. fold last_index.
  assert (k <= 5)%nat as Hk0 by lia.
  destruct (edge_position_bounds k Hk0) as [Ha0 Ha1].
  destruct (edge_position_bounds k' Hk) as [Hb0 Hb1].
  apply at_position_strict; try assumption.
  rewrite !level_eq.
  assert (inject_Z 1 <= inject_Z last_index) as Hm
    by (rewrite <- Zle_Qle; subst last_index; lia).
  assert (inject_Z (Z.of_nat k) + inject_Z 1 <= inject_Z (Z.of_nat k')) as Hq.
  { rewrite <- inject_Z_plus, <- Zle_Qle. lia. }
  change (inject_Z 1) with 1 in *.
  set (m := inject_Z last_index) in *.
  set (a := inject_Z (Z.of_nat k)) in *.
  set (b := inject_Z (Z.of_nat k')) in *.
  assert (0 < m * (b - a)) by (apply Qmult_lt_0_compat; lra).
  lra.
Qed.

Lemma lt_Qeq_bool (a b : Q) : a < b -> Qeq_bool a b = false.
Proof.
  intros Hlt. destruct (Qeq_bool a b) eqn:E; [| reflexivity ].
  apply Qeq_bool_iff in E. lra.
Qed.

Lemma strict_edges_unique :
  has_duplicates
    [edge s 0; edge s 1; edge s 2; edge s 3; edge s 4; edge s 5] = false.
Proof.
  cbn [has_duplicates existsb].
  repeat match goal with
         | |- context [Qeq_bool (edge s ?a) (edge s ?b)] =>
             rewrite (lt_Qeq_bool (edge s a) (edge s b))
               by (apply strict_edge_lt; lia)
         end.
  reflexivity.
Qed.

End StrictEdges.

(* ===================================================================== *)
(** ** Sizes of the quintile groups of pairwise different values          *)
(* ===================================================================== *)

Section Counting.

Lemma count_if_perm {A : Type} (f : A -> bool) (l l' : list A) :
  Permutation l l' -> count_if f l = count_if f l'.
Proof.
  intros Hp. unfold count_if. f_equal.
  induction Hp; simpl.
  - reflexivity.
  - destruct (f x); simpl; congruence.
  - destruct (f x), (f y); reflexivity.
  - congruence.
Qed.

Lemma count_if_map {A B : Type} (f : B -> bool) (g : A -> B) (l : list A) :
  count_if f (map g l) = count_if (fun a => f (g a)) l.
Proof.
  unfold count_if. f_equal.
  induction l as [| a l IH]; simpl; [ reflexivity |].
  destruct (f (g a)); simpl; congruence.
Qed.

Lemma count_if_ext_in {A : Type} (f g : A -> bool) (l : list A) :
  (forall a, In a l -> f a = g a) -> count_if f l = count_if g l.
Proof.
  intros H. unfold count_if. f_equal. f_equal. apply filter_ext_in, H.
Qed.

Lemma list_as_map_nth (l : list Q) :
  l = map (fun i => nth i l 0%Q) (seq 0 (List.length l)).
Proof.
  induction l as [| x l IH]; simpl; [ reflexivity |].
  f_equal. rewrite <- seq_shift, map_map. exact IH.
Qed.

(** The number of indices of a range that lie in an interval. *)
Lemma count_interval (L H : Z) (len start : nat) :
  count_if (fun i => (L <? Z.of_nat i)%Z && (Z.of_nat i <=? H)%Z)
           (seq start len)
  = Z.max 0 (Z.min H (Z.of_nat start + Z.of_nat len - 1)
             - Z.max L (Z.of_nat start - 1)).
Proof.
  unfold count_if. revert start.
  induction len as [| len IH]; intros start; simpl.
  - lia.
  - specialize (IH (S start)).
    destruct (Z.ltb_spec L (Z.of_nat start)),
             (Z.leb_spec (Z.of_nat start) H); simpl; lia.
Qed.

End Counting.

Section QuintileSizes.

Open Scope Q_scope.

Variable s : list Q.
Hypothesis s_strict : StronglySorted Qlt s.
Hypothesis s_two : (2 <= List.length s)%nat.

Let last_index : Z := (Z.of_nat (List.length s) - 1)%Z.

(** The index below which the values are at or under the [k]-th edge. *)
Let J (k : nat) : Z := (last_index * Z.of_nat k / 5)%Z.

Abbreviation bins :=
  [edge s 0; edge s 1; edge s 2; edge s 3; edge s 4; edge s 5].

Lemma J_facts :
  J 0 = 0%Z /\ J 5 = last_index
  /\ (J 0 <= J 1 <= J 2)%Z /\ (J 2 <= J 3 <= J 4)%Z /\ (J 4 <= J 5)%Z.
Proof.
  subst J. cbv beta.
  assert (1 <= last_index)%Z as Hm by (subst last_index; lia).
  generalize dependent last_index. intros m Hm.
  change (Z.of_nat 0) with 0%Z. change (Z.of_nat 1) with 1%Z.
  change (Z.of_nat 2) with 2%Z. change (Z.of_nat 3) with 3%Z.
  change (Z.of_nat 4) with 4%Z. change (Z.of_nat 5) with 5%Z.
  repeat split; Z.div_mod_to_equations; lia.
Qed.

Lemma Qlt_bool_edge (k i : nat) :
  (k <= 5)%nat -> (i < List.length s)%nat ->
  Qlt_bool (edge s k) (nth i s 0) = (J k <? Z.of_nat i)%Z.
Proof.
  intros Hk Hi.
  pose proof (edge_lt_nth s s_strict s_two k i Hk Hi) as Hiff.
  fold last_index in Hiff. fold (J k) in Hiff.
  destruct (Z.ltb_spec (J k) (Z.of_nat i)) as [H | H].
  - apply Qlt_bool_iff, Hiff, H.
  - apply Qlt_bool_false_iff.
    destruct (Qlt_le_dec (edge s k) (nth i s 0)) as [Hlt | Hle];
      [| exact Hle ].
    apply Hiff in Hlt. lia.
Qed.

(** The bin of the value at index [i] of the sorted Series. *)
Lemma bin_index_nth (b i : nat) :
  (1 <= b <= 5)%nat -> (i < List.length s)%nat ->
  (bin_index bins (nth i s 0%Q) =? b)%nat
  = ((if (b =? 1)%nat then (-1)%Z else J (b - 1)%nat) <? Z.of_nat i)%Z
    && (Z.of_nat i <=? J b)%Z.
Proof.
  intros Hb Hi.
  pose proof J_facts as [HJ0 [HJ5 [H12 [H34 H45]]]].
  assert (0 <= Z.of_nat i <= last_index)%Z as Hrange
    by (subst last_index; lia).
  unfold bin_index. cbn [hd].
  pose proof (edge_first s) as Hfirst.
  destruct i as [| i].
  - rewrite (Qeq_eq_bool (nth 0 s 0) (edge s 0)) by (symmetry; exact Hfirst).
    assert (b = 1 \/ b = 2 \/ b = 3 \/ b = 4 \/ b = 5)%nat as Hcases by lia.
    destruct Hcases as [-> | [-> | [-> | [-> | ->]]]]; cbn [Nat.eqb Nat.sub];
      symmetry;
      first [ apply andb_true_iff; split;
              [ apply Z.ltb_lt | apply Z.leb_le ]; lia
            | apply andb_false_iff; left; apply Z.ltb_ge; lia ].
  - assert (Qeq_bool (nth (S i) s 0) (edge s 0) = false) as ->.
    { destruct (Qeq_bool (nth (S i) s 0) (edge s 0)) eqn:E; [| reflexivity ].
      apply Qeq_bool_iff in E.
      pose proof (sorted_nth_lt s s_strict 0 (S i) ltac:(lia) Hi) as Hlt.
      lra. }
    unfold searchsorted_left. cbn [filter].
    rewrite !Qlt_bool_edge by lia.
    set (z := Z.of_nat (S i)) in *.
    set (J0 := J 0) in *. set (J1 := J 1) in *. set (J2 := J 2) in *.
    set (J3 := J 3) in *. set (J4 := J 4) in *. set (J5 := J 5) in *.
    assert (b = 1 \/ b = 2 \/ b = 3 \/ b = 4 \/ b = 5)%nat as Hcases by lia.
    destruct Hcases as [-> | [-> | [-> | [-> | ->]]]];
      cbn [Nat.eqb Nat.sub];
      fold J0 J1 J2 J3 J4 J5;
      destruct (Z.ltb_spec J0 z), (Z.ltb_spec J1 z), (Z.ltb_spec J2 z),
        (Z.ltb_spec J3 z), (Z.ltb_spec J4 z), (Z.ltb_spec J5 z);
      cbn [List.length Nat.eqb]; try lia;
      symmetry;
      first [ apply andb_true_iff; split;
              [ apply Z.ltb_lt | apply Z.leb_le ]; lia
            | apply andb_false_iff; left; apply Z.ltb_ge; lia
            | apply andb_false_iff; right; apply Z.leb_gt; lia ].
Qed.

(** The number of values in bin [b]. *)
Lemma bin_count (x : list Q) (b : nat) :
  Permutation s x -> (1 <= b <= 5)%nat ->
  count_if (fun v => (bin_index bins v =? b)%nat) x
  = (J b - (if (b =? 1)%nat then (-1)%Z else J (b - 1)%nat))%Z.
Proof.
  intros Hperm Hb.
  rewrite <- (count_if_perm _ _ _ Hperm).
  set (f := fun v => (bin_index bins v =? b)%nat).
  assert (count_if f s
          = count_if f (map (fun i => nth i s 0) (seq 0 (List.length s))))
    as -> by (rewrite <- list_as_map_nth; reflexivity).
  subst f. rewrite count_if_map.
  rewrite (count_if_ext_in _
             (fun i => ((if (b =? 1)%nat then (-1)%Z else J (b - 1)%nat)
                        <? Z.of_nat i)%Z && (Z.of_nat i <=? J b)%Z)).
  - rewrite count_interval.
    pose proof J_facts as [HJ0 [HJ5 [H12 [H34 H45]]]].
    assert (b = 1 \/ b = 2 \/ b = 3 \/ b = 4 \/ b = 5)%nat as Hcases by lia.
    subst last_index.
    destruct Hcases as [-> | [-> | [-> | [-> | ->]]]];
      cbn [Nat.eqb Nat.sub]; lia.
  - intros i Hi. apply in_seq in Hi.
    apply bin_index_nth; [ exact Hb | lia ].
Qed.

(** Each bin holds [n/5] values, rounded down or up. *)
Lemma bin_count_balanced (x : list Q) (b : nat) :
  Permutation s x -> (1 <= b <= 5)%nat ->
  let n := Z.of_nat (List.length x) in
  (n / 5 <= count_if (fun v => (bin_index bins v =? b)%nat) x
   <= (n + 4) / 5)%Z.
Proof.
  intros Hperm Hb n.
  rewrite (bin_count x b Hperm Hb).
  assert (n = last_index + 1)%Z as Hn.
  { subst n last_index. rewrite <- (Permutation_length Hperm). lia. }
  assert (1 <= last_index)%Z as Hm by (subst last_index; lia).
  rewrite Hn. subst J. cbv beta.
  generalize dependent last_index. intros m _ Hm. clear n.
  assert (b = 1 \/ b = 2 \/ b = 3 \/ b = 4 \/ b = 5)%nat as Hcases by lia.
  destruct Hcases as [-> | [-> | [-> | [-> | ->]]]];
    cbn [Nat.eqb Nat.sub];
    change (Z.of_nat 1) with 1%Z; change (Z.of_nat 2) with 2%Z;
    change (Z.of_nat 3) with 3%Z; change (Z.of_nat 4) with 4%Z;
    change (Z.of_nat 5) with 5%Z;
    Z.div_mod_to_equations; lia.
Qed.

End QuintileSizes.

(* ===================================================================== *)
(** ** First-seen ranks                                                   *)
(* ===================================================================== *)

Section Ranks.

Open Scope Z_scope.
Open Scope list_scope.

Lemma count_if_app {A : Type} (f : A -> bool) (l l' : list A) :
  count_if f (l ++ l') = count_if f l + count_if f l'.
Proof.
  unfold count_if. rewrite filter_app, length_app. lia.
Qed.

Lemma count_if_nonneg {A : Type} (f : A -> bool) (l : list A) :
  0 <= count_if f l.
Proof. unfold count_if. lia. Qed.

Lemma count_if_cons {A : Type} (f : A -> bool) (a : A) (l : list A) :
  count_if f (a :: l) = (if f a then 1 else 0) + count_if f l.
Proof.
  unfold count_if. simpl. destruct (f a); simpl; lia.
Qed.

Lemma count_if_le_length {A : Type} (f : A -> bool) (l : list A) :
  count_if f l <= Z.of_nat (List.length l).
Proof.
  unfold count_if. pose proof (filter_length_le f l). lia.
Qed.

(** The values below [y] include those below [x] and those equal to
    [x], when [x < y]. *)
Lemma count_lt_step (l : list Z) (x y : Z) :
  x < y ->
  count_if (fun z => z <? x) l + count_if (Z.eqb x) l
  <= count_if (fun z => z <? y) l.
Proof.
  intros Hxy. induction l as [| z l IH].
  - unfold count_if. simpl. lia.
  - rewrite !count_if_cons.
    destruct (Z.ltb_spec z x), (Z.eqb_spec x z), (Z.ltb_spec z y); lia.
Qed.

Lemma split_at {A : Type} (l : list A) (i : nat) (x : A) :
  nth_error l i = Some x -> l = firstn i l ++ x :: skipn (S i) l.
Proof.
  revert i. induction l as [| a l IH]; intros [| i] H; simpl in *;
    try discriminate.
  - injection H as ->. reflexivity.
  - f_equal. apply IH, H.
Qed.

Lemma rank_first_from_nth (all : list Z) (l before : list Z) (i : nat) (x : Z) :
  nth_error l i = Some x ->
  nth_error (rank_first_from all before l) i
  = Some (inject_Z (rankZ all (rev (firstn i l) ++ before) x)).
Proof.
  revert before i.
  induction l as [| y l IH]; intros before [| i] H; try discriminate H.
  - injection H as ->. reflexivity.
  - cbn [nth_error] in H.
    cbn [rank_first_from nth_error firstn rev].
    rewrite (IH (y :: before) i H).
    rewrite <- app_assoc. reflexivity.
Qed.

(** The rank of the value at position [i]. *)
Lemma rank_first_nth (l : list Z) (i : nat) (x : Z) :
  nth_error l i = Some x ->
  nth_error (rank_first l) i = Some (inject_Z (rankZ l (firstn i l) x)).
Proof.
  intros H. unfold rank_first.
  rewrite (rank_first_from_nth l l [] i x H).
  do 2 f_equal. unfold rankZ. f_equal.
  rewrite app_nil_r.
  apply count_if_perm, Permutation_sym, Permutation_rev.
Qed.

Lemma count_eq_before (l : list Z) (i : nat) (x : Z) :
  nth_error l i = Some x ->
  count_if (Z.eqb x) (firstn i l) + 1 <= count_if (Z.eqb x) l.
Proof.
  intros H. rewrite (split_at l i x H) at 2.
  rewrite count_if_app, count_if_cons, Z.eqb_refl.
  pose proof (count_if_nonneg (Z.eqb x) (skipn (S i) l)). lia.
Qed.

(** A smaller value has a smaller rank. *)
Lemma rank_lt (l : list Z) (i j : nat) (x y : Z) :
  nth_error l i = Some x -> nth_error l j = Some y -> x < y ->
  rankZ l (firstn i l) x < rankZ l (firstn j l) y.
Proof.
  intros Hi Hj Hxy. unfold rankZ.
  pose proof (count_lt_step l x y Hxy).
  pose proof (count_eq_before l i x Hi).
  pose proof (count_if_nonneg (Z.eqb y) (firstn j l)).
  lia.
Qed.

(** Of two equal values the one seen first has the smaller rank. *)
Lemma rank_tie (l : list Z) (i j : nat) (x : Z) :
  nth_error l i = Some x -> nth_error l j = Some x -> (i < j)%nat ->
  rankZ l (firstn i l) x < rankZ l (firstn j l) x.
Proof.
  intros Hi Hj Hij. unfold rankZ.
  assert (count_if (Z.eqb x) (firstn i l) + 1
          <= count_if (Z.eqb x) (firstn j l)); [| lia ].
  assert (nth_error (firstn j l) i = Some x) as Hi'.
  { rewrite nth_error_firstn.
    destruct (Nat.ltb_spec i j); [ exact Hi | lia ]. }
  pose proof (count_eq_before (firstn j l) i x Hi') as H.
  rewrite firstn_firstn in H.
  replace (Nat.min i j) with i in H by lia. exact H.
Qed.

Lemma rank_ne (l : list Z) (i j : nat) (x y : Z) :
  nth_error l i = Some x -> nth_error l j = Some y -> (i < j)%nat ->
  rankZ l (firstn i l) x <> rankZ l (firstn j l) y.
Proof.
  intros Hi Hj Hij.
  destruct (Z.lt_total x y) as [H | [H | H]].
  - pose proof (rank_lt l i j x y Hi Hj H). lia.
  - subst y. pose proof (rank_tie l i j x Hi Hj Hij). lia.
  - pose proof (rank_lt l j i y x Hj Hi H). lia.
Qed.

Lemma rank_bounds (l : list Z) (i : nat) (x : Z) :
  nth_error l i = Some x ->
  1 <= rankZ l (firstn i l) x <= Z.of_nat (List.length l).
Proof.
  intros Hi. unfold rankZ.
  pose proof (count_if_nonneg (fun y => y <? x) l).
  pose proof (count_if_nonneg (Z.eqb x) (firstn i l)).
  pose proof (count_eq_before l i x Hi).
  split; [ lia |].
  assert (count_if (fun y => y <? x) l + count_if (Z.eqb x) l
          <= Z.of_nat (List.length l)); [| lia ].
  clear. induction l as [| z l IH].
  - unfold count_if. simpl. lia.
  - rewrite !count_if_cons. simpl List.length.
    destruct (Z.ltb_spec z x), (Z.eqb_spec x z); lia.
Qed.

Lemma distinct_of_nth (l : list Q) :
  (forall i j a b, (i < j)%nat -> nth_error l i = Some a ->
                   nth_error l j = Some b -> ~ (a == b)%Q) ->
  distinct l.
Proof.
  unfold distinct. induction l as [| x l IH]; intros H; constructor.
  - rewrite Forall_forall. intros b Hb.
    destruct (In_nth_error _ _ Hb) as [j Hj].
    apply (H 0%nat (S j) x b); [ lia | reflexivity | exact Hj ].
  - apply IH. intros i j a b Hij Ha Hb.
    apply (H (S i) (S j) a b); [ lia | exact Ha | exact Hb ].
Qed.

Lemma rank_first_length (l : list Z) :
  List.length (rank_first l) = List.length l.
Proof. apply rank_first_from_length. Qed.

Lemma rank_first_nth_inv (l : list Z) (i : nat) (r : Q) :
  nth_error (rank_first l) i = Some r ->
  exists x, nth_error l i = Some x
            /\ r = inject_Z (rankZ l (firstn i l) x).
Proof.
  intros H.
  assert (i < List.length l)%nat as Hi.
  { rewrite <- rank_first_length. apply nth_error_Some. congruence. }
  destruct (nth_error l i) as [x |] eqn:Hx.
  - exists x. split; [ reflexivity |].
    rewrite (rank_first_nth l i x Hx) in H. congruence.
  - apply nth_error_None in Hx. lia.
Qed.

(** No two customers share a rank. *)
Lemma rank_first_distinct (l : list Z) : distinct (rank_first l).
Proof.
  apply distinct_of_nth. intros i j a b Hij Ha Hb.
  destruct (rank_first_nth_inv l i a Ha) as [x [Hx ->]].
  destruct (rank_first_nth_inv l j b Hb) as [y [Hy ->]].
  rewrite inject_Z_injective.
  apply rank_ne; assumption.
Qed.

End Ranks.

(* ===================================================================== *)
(** ** What [qcut] returns                                                *)
(* ===================================================================== *)

Section Qcut.

Open Scope Q_scope.
Open Scope list_scope.

Lemma sort_values_In (x : list Q) (v : Q) : In v x -> In v (sort_values x).
Proof.
  apply Permutation_in, Permutation_sym, sort_values_perm.
Qed.

Lemma sort_values_nonempty (x : list Q) :
  x <> [] -> (1 <= List.length (sort_values x))%nat.
Proof.
  rewrite sort_values_length. destruct x; [ congruence | simpl; lia ].
Qed.

Lemma qcut_edges (x : list Q) (labels : list Z) (ids : list (option Z)) :
  qcut x 5 labels = inr ids ->
  x <> []
  /\ has_duplicates (quintile_edges x) = false
  /\ ids = map (bin_of (quintile_edges x) labels) x.
Proof.
  intros H. apply qcut_ok in H. destruct H as [Hne [Hdup Hids]].
  split; [ exact Hne |]. split; [| exact Hids ].
  apply andb_false_iff in Hdup. destruct Hdup as [Hdup | Hlen].
  - exact Hdup.
  - discriminate Hlen.
Qed.

(** A Series whose values are all equal cannot be binned. *)
Lemma qcut_constant (x : list Q) (labels : list Z) :
  (forall a b, In a x -> In b x -> a == b) ->
  qcut x 5 labels = inl (ValueError "Bin edges must be unique").
Proof.
  intros Hconst.
  destruct (qcut x 5 labels) as [e | ids] eqn:E.
  - f_equal. eapply qcut_error, E.
  - exfalso. apply qcut_edges in E. destruct E as [Hne [Hdup _]].
    pose proof (sort_values_sorted x) as Hs.
    pose proof (sort_values_nonempty x Hne) as Hn.
    pose proof (edge_strict _ Hs Hn Hdup 0 5 ltac:(lia) ltac:(lia)) as Hlt.
    rewrite (edge_first (sort_values x)) in Hlt.
    rewrite (edge_last (sort_values x) Hn) in Hlt.
    assert (forall i, (i < List.length (sort_values x))%nat ->
                      In (nth i (sort_values x) 0) x) as Hin.
    { intros i Hi.
      apply (Permutation_in _ (sort_values_perm x)), nth_In, Hi. }
    pose proof (Hconst _ _ (Hin 0%nat ltac:(lia))
                  (Hin (List.length (sort_values x) - 1)%nat ltac:(lia))).
    lra.
Qed.

Lemma qcut_two (x : list Q) (labels : list Z) (ids : list (option Z)) :
  qcut x 5 labels = inr ids -> (2 <= List.length x)%nat.
Proof.
  intros H.
  destruct x as [| a [| b x]]; simpl; try lia; exfalso.
  - discriminate H.
  - rewrite qcut_constant in H; [ discriminate H |].
    intros u v [<- | []] [<- | []]. reflexivity.
Qed.

(** A Series of at least two pairwise different values can. *)
Lemma qcut_distinct (x : list Q) (labels : list Z) :
  distinct x -> (2 <= List.length x)%nat ->
  qcut x 5 labels = inr (map (bin_of (quintile_edges x) labels) x).
Proof.
  intros Hd Hn. unfold qcut.
  destruct x as [| v x]; [ simpl in Hn; lia |].
  rewrite bins_edges.
  rewrite (strict_edges_unique (sort_values (v :: x))).
  - reflexivity.
  - apply sort_values_strict, Hd.
  - rewrite sort_values_length. exact Hn.
Qed.

Lemma bin_of_direct (bins : list Q) (v : Q) :
  List.length bins = 6%nat -> (1 <= bin_index bins v <= 5)%nat ->
  bin_of bins [1; 2; 3; 4; 5]%Z v = Some (Z.of_nat (bin_index bins v)).
Proof.
  intros Hlen Hr. unfold bin_of. rewrite Hlen.
  destruct (bin_index bins v) as [| [| [| [| [| [| n]]]]]]; try lia;
    reflexivity.
Qed.

Lemma bin_of_inverted (bins : list Q) (v : Q) :
  List.length bins = 6%nat -> (1 <= bin_index bins v <= 5)%nat ->
  bin_of bins [5; 4; 3; 2; 1]%Z v = Some (6 - Z.of_nat (bin_index bins v))%Z.
Proof.
  intros Hlen Hr. unfold bin_of. rewrite Hlen.
  destruct (bin_index bins v) as [| [| [| [| [| [| n]]]]]]; try lia;
    reflexivity.
Qed.

Lemma quintile_edges_range (x : list Q) (v : Q) :
  In v x -> (1 <= bin_index (quintile_edges x) v <= 5)%nat.
Proof.
  intros Hv.
  apply (bin_index_range (sort_values x)).
  - apply sort_values_sorted.
  - apply sort_values_nonempty. destruct x; [ destruct Hv | discriminate ].
  - apply sort_values_In, Hv.
Qed.

(** The sizes of the five groups, for pairwise different values. *)
Lemma qcut_direct_sizes (x : list Q) (ids : list (option Z)) (b : Z) :
  distinct x -> qcut x 5 [1; 2; 3; 4; 5]%Z = inr ids -> (1 <= b <= 5)%Z ->
  let n := Z.of_nat (List.length x) in
  (n / 5 <= count_if (fun c => has_score c b) ids <= (n + 4) / 5)%Z.
Proof.
  intros Hd Hq Hb n.
  pose proof (qcut_two _ _ _ Hq) as Hn.
  apply qcut_edges in Hq. destruct Hq as [_ [_ ->]].
  rewrite count_if_map.
  rewrite (count_if_ext_in _
             (fun v => (bin_index (quintile_edges x) v =? Z.to_nat b)%nat)).
  - apply (bin_count_balanced (sort_values x)).
    + apply sort_values_strict, Hd.
    + rewrite sort_values_length. exact Hn.
    + apply sort_values_perm.
    + lia.
  - intros v Hv.
    pose proof (quintile_edges_range x v Hv) as Hr.
    rewrite bin_of_direct by (reflexivity || exact Hr).
    unfold has_score.
    destruct (Z.eqb_spec (Z.of_nat (bin_index (quintile_edges x) v)) b),
             (Nat.eqb_spec (bin_index (quintile_edges x) v) (Z.to_nat b));
      (reflexivity || lia).
Qed.

Lemma qcut_inverted_sizes (x : list Q) (ids : list (option Z)) (b : Z) :
  distinct x -> qcut x 5 [5; 4; 3; 2; 1]%Z = inr ids -> (1 <= b <= 5)%Z ->
  let n := Z.of_nat (List.length x) in
  (n / 5 <= count_if (fun c => has_score c b) ids <= (n + 4) / 5)%Z.
Proof.
  intros Hd Hq Hb n.
  pose proof (qcut_two _ _ _ Hq) as Hn.
  apply qcut_edges in Hq. destruct Hq as [_ [_ ->]].
  rewrite count_if_map.
  rewrite (count_if_ext_in _
             (fun v => (bin_index (quintile_edges x) v =? Z.to_nat (6 - b))%nat)).
  - apply (bin_count_balanced (sort_values x)).
    + apply sort_values_strict, Hd.
    + rewrite sort_values_length. exact Hn.
    + apply sort_values_perm.
    + lia.
  - intros v Hv.
    pose proof (quintile_edges_range x v Hv) as Hr.
    rewrite bin_of_inverted by (reflexivity || exact Hr).
    unfold has_score.
    destruct (Z.eqb_spec (6 - Z.of_nat (bin_index (quintile_edges x) v)) b),
             (Nat.eqb_spec (bin_index (quintile_edges x) v) (Z.to_nat (6 - b)));
      (reflexivity || lia).
Qed.

End Qcut.

(* ===================================================================== *)
(** ** Rows of the scored frame                                           *)
(* ===================================================================== *)

Section ScoredRows.

Open Scope Z_scope.
Open Scope list_scope.

Lemma segment_rows_nth_inv (rfm : list CustomerRecord)
  (rs fs ms : list (option Z)) (i : nat) (s : ScoredCustomer) :
  nth_error (segment_rows rfm rs fs ms) i = Some s ->
  exists r a b c,
    nth_error rfm i = Some r /\ nth_error rs i = Some a
    /\ nth_error fs i = Some b /\ nth_error ms i = Some c
    /\ s = segment_row r a b c.
Proof.
  revert rs fs ms i.
  induction rfm as [| r rfm IH]; intros rs fs ms i H.
  - destruct i; discriminate H.
  - destruct rs as [| a rs], fs as [| b fs], ms as [| c ms];
      try (destruct i; discriminate H).
    destruct i as [| i]; cbn [segment_rows nth_error] in *.
    + injection H as <-. exists r, a, b, c. auto.
    + apply IH, H.
Qed.

Lemma segment_rows_scores (rfm : list CustomerRecord)
  (rs fs ms : list (option Z)) :
  List.length rs = List.length rfm -> List.length fs = List.length rfm ->
  List.length ms = List.length rfm ->
  map RecencyScore (segment_rows rfm rs fs ms) = rs
  /\ map FrequencyScore (segment_rows rfm rs fs ms) = fs
  /\ map MonetaryScore (segment_rows rfm rs fs ms) = ms.
Proof.
  revert rs fs ms.
  induction rfm as [| r rfm IH]; intros rs fs ms H1 H2 H3;
    destruct rs, fs, ms; simpl in *; try discriminate; auto.
  destruct (IH rs fs ms) as [Ha [Hb Hc]]; try lia.
  rewrite Ha, Hb, Hc. auto.
Qed.

Variable rfm : list CustomerRecord.
Variable out : list ScoredCustomer.
Hypothesis run : score rfm = inr out.

Let R : list Q := map (fun r => inject_Z (Recency r)) rfm.
Let F : list Q := rank_first (map Frequency rfm).
Let M : list Q := map Monetary rfm.

Lemma score_columns :
  exists rs fs ms,
    qcut R 5 [5; 4; 3; 2; 1] = inr rs /\ qcut F 5 [1; 2; 3; 4; 5] = inr fs
    /\ qcut M 5 [1; 2; 3; 4; 5] = inr ms
    /\ map RecencyScore out = rs /\ map FrequencyScore out = fs
    /\ map MonetaryScore out = ms /\ List.length out = List.length rfm.
Proof.
  destruct (score_ok _ _ run) as [rs [fs [ms [Hr [Hf [Hm Hout]]]]]].
  exists rs, fs, ms. repeat (split; [ assumption |]).
  pose proof (qcut_length _ _ _ _ Hr) as Lr.
  pose proof (qcut_length _ _ _ _ Hf) as Lf.
  pose proof (qcut_length _ _ _ _ Hm) as Lm.
  rewrite rank_first_length in Lf.
  rewrite length_map in Lr, Lf, Lm.
  destruct (segment_rows_scores rfm rs fs ms Lr Lf Lm) as [Ha [Hb Hc]].
  rewrite Hout. repeat (split; [ assumption |]).
  rewrite <- (length_map metrics), segment_rows_metrics by assumption.
  reflexivity.
Qed.

(** The three scores of the row at position [i]. *)
Lemma scored_row (i : nat) (s : ScoredCustomer) :
  nth_error out i = Some s ->
  let freqs := map Frequency rfm in
  let rank := inject_Z (rankZ freqs (firstn i freqs) (Frequency (metrics s))) in
  nth_error rfm i = Some (metrics s)
  /\ nth_error F i = Some rank
  /\ RecencyScore s
     = bin_of (quintile_edges R) [5; 4; 3; 2; 1]
         (inject_Z (Recency (metrics s)))
  /\ FrequencyScore s = bin_of (quintile_edges F) [1; 2; 3; 4; 5] rank
  /\ MonetaryScore s
     = bin_of (quintile_edges M) [1; 2; 3; 4; 5] (Monetary (metrics s)).
Proof.
  intros Hs freqs rank.
  destruct (score_ok _ _ run) as [rs [fs [ms [Hr [Hf [Hm Hout]]]]]].
  rewrite Hout in Hs.
  destruct (segment_rows_nth_inv _ _ _ _ _ _ Hs)
    as [r [a [b [c [Hri [Hai [Hbi [Hci ->]]]]]]]].
  cbn [metrics RecencyScore FrequencyScore MonetaryScore segment_row].
  apply qcut_edges in Hr, Hf, Hm.
  destruct Hr as [_ [_ ->]], Hf as [_ [_ ->]], Hm as [_ [_ ->]].
  assert (nth_error F i = Some rank) as Hrank.
  { subst F rank freqs. apply rank_first_nth.
    rewrite nth_error_map, Hri. reflexivity. }
  split; [ exact Hri |]. split; [ exact Hrank |].
  assert (nth_error R i = Some (inject_Z (Recency r))) as HRi
    by (subst R; rewrite nth_error_map, Hri; reflexivity).
  assert (nth_error M i = Some (Monetary r)) as HMi
    by (subst M; rewrite nth_error_map, Hri; reflexivity).
  rewrite nth_error_map in Hai, Hbi, Hci.
  fold F in Hbi. rewrite Hrank in Hbi.
  fold R in Hai. rewrite HRi in Hai.
  fold M in Hci. rewrite HMi in Hci.
  cbn [option_map] in Hai, Hbi, Hci.
  repeat split; congruence.
Qed.

Lemma score_nonempty : rfm <> [].
Proof.
  destruct (score_ok _ _ run) as [rs [_ [_ [Hr _]]]].
  apply qcut_edges in Hr. destruct Hr as [Hne _].
  intros ->. apply Hne. reflexivity.
Qed.

Lemma in_R (s : ScoredCustomer) :
  In s out -> In (inject_Z (Recency (metrics s))) R.
Proof.
  intros Hs. destruct (In_nth_error _ _ Hs) as [i Hi].
  destruct (scored_row i s Hi) as [Hr _].
  apply nth_error_In in Hr.
  apply (in_map (fun r => inject_Z (Recency r))) in Hr. exact Hr.
Qed.

Lemma in_M (s : ScoredCustomer) : In s out -> In (Monetary (metrics s)) M.
Proof.
  intros Hs. destruct (In_nth_error _ _ Hs) as [i Hi].
  destruct (scored_row i s Hi) as [Hr _].
  apply nth_error_In in Hr. apply (in_map Monetary) in Hr. exact Hr.
Qed.

Lemma R_values (v : Q) :
  In v R -> exists s, In s out /\ v = inject_Z (Recency (metrics s)).
Proof.
  intros Hv. apply in_map_iff in Hv. destruct Hv as [r [<- Hr]].
  rewrite <- (score_metrics _ _ run) in Hr.
  apply in_map_iff in Hr. destruct Hr as [s [<- Hs]]. eauto.
Qed.

Lemma M_values (v : Q) :
  In v M -> exists s, In s out /\ v = Monetary (metrics s).
Proof.
  intros Hv. apply in_map_iff in Hv. destruct Hv as [r [<- Hr]].
  rewrite <- (score_metrics _ _ run) in Hr.
  apply in_map_iff in Hr. destruct Hr as [s [<- Hs]]. eauto.
Qed.

End ScoredRows.

(* ===================================================================== *)
(** ** Direction of the scores                                            *)
(* ===================================================================== *)

Section Directions.

Open Scope Q_scope.
Open Scope list_scope.

Lemma exists_min_Q (l : list Q) :
  l <> [] -> exists v, In v l /\ forall w, In w l -> v <= w.
Proof.
  induction l as [| x l IH]; [ congruence | intros _ ].
  destruct l as [| y l].
  - exists x. split; [ left; reflexivity |].
    intros w [<- | []]. lra.
  - destruct IH as [v [Hv Hmin]]; [ discriminate |].
    destruct (Qlt_le_dec x v) as [H | H].
    + exists x. split; [ left; reflexivity |].
      intros w [<- | Hw]; [ lra |]. specialize (Hmin w Hw). lra.
    + exists v. split; [ right; exact Hv |].
      intros w [<- | Hw]; [ exact H | auto ].
Qed.

Lemma exists_max_Q (l : list Q) :
  l <> [] -> exists v, In v l /\ forall w, In w l -> w <= v.
Proof.
  induction l as [| x l IH]; [ congruence | intros _ ].
  destruct l as [| y l].
  - exists x. split; [ left; reflexivity |].
    intros w [<- | []]. lra.
  - destruct IH as [v [Hv Hmax]]; [ discriminate |].
    destruct (Qlt_le_dec v x) as [H | H].
    + exists x. split; [ left; reflexivity |].
      intros w [<- | Hw]; [ lra |]. specialize (Hmax w Hw). lra.
    + exists v. split; [ right; exact Hv |].
      intros w [<- | Hw]; [ exact H | auto ].
Qed.

Variable x : list Q.

Lemma value_bin_mono (v w : Q) :
  In v x -> In w x -> v <= w ->
  (bin_index (quintile_edges x) v <= bin_index (quintile_edges x) w)%nat.
Proof.
  intros Hv Hw Hvw.
  apply (bin_index_mono (sort_values x)).
  - apply sort_values_sorted.
  - apply sort_values_nonempty. destruct x; [ destruct Hv | discriminate ].
  - apply sort_values_In, Hv.
  - apply sort_values_In, Hw.
  - exact Hvw.
Qed.

(** The smallest values are in bin 1. *)
Lemma lowest_value_bin (v : Q) :
  In v x -> (forall w, In w x -> v <= w) ->
  bin_index (quintile_edges x) v = 1%nat.
Proof.
  intros Hv Hmin.
  assert (x <> []) as Hne by (destruct x; [ destruct Hv | discriminate ]).
  pose proof (sort_values_nonempty x Hne) as Hn.
  apply (bin_index_lowest (sort_values x)).
  apply Qle_antisym.
  - rewrite edge_first. apply Hmin.
    apply (Permutation_in _ (sort_values_perm x)), nth_In. lia.
  - apply edge_lower;
      [ apply sort_values_sorted | exact Hn | apply sort_values_In, Hv ].
Qed.

(** The largest values are in bin 5. *)
Lemma highest_value_bin (v : Q) :
  has_duplicates (quintile_edges x) = false ->
  In v x -> (forall w, In w x -> w <= v) ->
  bin_index (quintile_edges x) v = 5%nat.
Proof.
  intros Hdup Hv Hmax.
  assert (x <> []) as Hne by (destruct x; [ destruct Hv | discriminate ]).
  pose proof (sort_values_nonempty x Hne) as Hn.
  apply (bin_index_highest (sort_values x));
    [ apply sort_values_sorted | exact Hn | exact Hdup |].
  apply Qle_antisym.
  - apply edge_upper;
      [ apply sort_values_sorted | exact Hn | apply sort_values_In, Hv ].
  - rewrite (edge_last _ Hn). apply Hmax.
    apply (Permutation_in _ (sort_values_perm x)), nth_In. lia.
Qed.

End Directions.

(* ===================================================================== *)
(** ** Series that cannot be binned, and the bins of those that can       *)
(* ===================================================================== *)

Section Enclosure.

Open Scope Q_scope.
Open Scope list_scope.

(** An edge lies between the two values next to its position. *)
Lemma edge_between (s : list Q) (k : nat) :
  StronglySorted Qle s -> (2 <= List.length s)%nat -> (k <= 5)%nat ->
  let j := Z.to_nat ((Z.of_nat (List.length s) - 1) * Z.of_nat k / 5) in
  nth j s 0 <= edge s k
  /\ edge s k <= nth (Nat.min (j + 1) (List.length s - 1)) s 0.
Proof.
  intros Hs Hn Hk j. unfold edge, interpolate_linear.
  destruct (edge_position_bounds s Hn k Hk) as [H0 H1].
  pose proof (at_position_lower s Hs ltac:(lia) _ H0 H1) as Hlo.
  pose proof (at_position_upper s Hs ltac:(lia) _ H0 H1) as Hhi.
  rewrite edge_position_floor in Hlo, Hhi. split; assumption.
Qed.

Lemma filter_strict (f : Q -> bool) (c : list Q) :
  StronglySorted Qlt c -> StronglySorted Qlt (filter f c).
Proof.
  induction 1 as [| a c Hs IH Hall]; simpl; [ constructor |].
  destruct (f a); [| exact IH ].
  constructor; [ exact IH |].
  rewrite Forall_forall in *. intros b Hb.
  apply filter_In in Hb. apply Hall, Hb.
Qed.

Lemma strict_one_equal (v : Q) (c : list Q) :
  StronglySorted Qlt c ->
  (List.length c <= S (List.length (filter (fun a => negb (Qeq_bool a v)) c)))%nat.
Proof.
  induction 1 as [| a c Hs IH Hall]; simpl; [ lia |].
  destruct (Qeq_bool a v) eqn:E; simpl; [| lia ].
  apply Qeq_bool_iff in E.
  assert (filter (fun a0 => negb (Qeq_bool a0 v)) c = c) as ->; [| lia ].
  rewrite Forall_forall in Hall.
  clear IH Hs. induction c as [| b c IH]; [ reflexivity |]. simpl.
  assert (Qeq_bool b v = false) as ->.
  { destruct (Qeq_bool b v) eqn:Eb; [| reflexivity ].
    apply Qeq_bool_iff in Eb.
    pose proof (Hall b (or_introl eq_refl)). lra. }
  simpl. f_equal. apply IH. intros y Hy. apply Hall. right. exact Hy.
Qed.

(** Pairwise different values that are all among the values [vs] are
    at most as many as [vs]. *)
Lemma strict_values_count (vs c : list Q) :
  StronglySorted Qlt c ->
  (forall a, In a c -> exists v, In v vs /\ a == v) ->
  (List.length c <= List.length vs)%nat.
Proof.
  revert c. induction vs as [| v vs IH]; intros c Hs Hin.
  - destruct c as [| a c]; [ simpl; lia |].
    destruct (Hin a (or_introl eq_refl)) as [w [[] _]].
  - pose proof (strict_one_equal v c Hs) as Hone.
    specialize (IH (filter (fun a => negb (Qeq_bool a v)) c)
                  (filter_strict _ c Hs)).
    simpl. enough (List.length (filter (fun a => negb (Qeq_bool a v)) c)
                   <= List.length vs)%nat by lia.
    apply IH. intros a Ha. apply filter_In in Ha. destruct Ha as [Ha Hne].
    destruct (Hin a Ha) as [w [[<- | Hw] Haw]].
    + apply Qeq_bool_iff in Haw. rewrite Haw in Hne. discriminate Hne.
    + exists w. auto.
Qed.

Lemma strict_chain (a b c d : Q) :
  a < b -> b < c -> c < d ->
  StronglySorted Qlt [a; b] /\ StronglySorted Qlt [a; b; c]
  /\ StronglySorted Qlt [a; b; c; d].
Proof.
  intros Hab Hbc Hcd.
  repeat split;
    repeat first [ apply SSorted_cons | apply SSorted_nil
                 | apply Forall_cons | apply Forall_nil ]; lra.
Qed.

Variable x : list Q.
Variable labels : list Z.
Variable ids : list (option Z).
Hypothesis run : qcut x 5 labels = inr ids.

Let s : list Q := sort_values x.
Let m : Z := (Z.of_nat (List.length s) - 1)%Z.

Lemma binned_sorted : StronglySorted Qle s.
Proof. apply sort_values_sorted. Qed.

Lemma binned_two : (2 <= List.length s)%nat.
Proof.
  subst s. rewrite sort_values_length. eapply qcut_two, run.
Qed.

(** Two neighbouring edges are different, so the values around them
    are not all the same. *)
Lemma span_strict (k : nat) :
  (k < 5)%nat ->
  nth (Z.to_nat (m * Z.of_nat k / 5)) s 0
  < nth (Nat.min (Z.to_nat (m * Z.of_nat (S k) / 5) + 1) (List.length s - 1)) s 0.
Proof.
  intros Hk.
  pose proof binned_two as Hn. pose proof binned_sorted as Hs.
  destruct (qcut_edges _ _ _ run) as [_ [Hdup _]].
  pose proof (edge_strict s Hs ltac:(lia) Hdup k (S k) ltac:(lia) ltac:(lia))
    as Hlt.
  destruct (edge_between s k Hs Hn ltac:(lia)) as [Hlo _].
  destruct (edge_between s (S k) Hs Hn ltac:(lia)) as [_ Hhi].
  fold m in Hlo, Hhi. lra.
Qed.

Lemma binned_value (i : nat) : (i < List.length s)%nat -> In (nth i s 0) x.
Proof.
  intros Hi. apply (Permutation_in _ (sort_values_perm x)), nth_In, Hi.
Qed.

(** A Series that is binned holds four different values, or only
    different values. *)
Lemma binned_values :
  exists c, StronglySorted Qlt c /\ (forall v, In v c -> In v x)
            /\ List.length c = Nat.min (List.length x) 4.
Proof.
  pose proof binned_two as Hn. pose proof binned_sorted as Hs.
  assert (List.length s = List.length x) as Hlen
    by (subst s; apply sort_values_length).
  pose proof (span_strict 0 ltac:(lia)) as H0.
  pose proof (span_strict 2 ltac:(lia)) as H2.
  pose proof (span_strict 3 ltac:(lia)) as H3.
  pose proof (span_strict 4 ltac:(lia)) as H4.
  change (Z.of_nat 0) with 0%Z in H0. change (Z.of_nat 1) with 1%Z in H0.
  change (Z.of_nat 2) with 2%Z in H2. change (Z.of_nat 3) with 3%Z in H2, H3.
  change (Z.of_nat 4) with 4%Z in H3, H4. change (Z.of_nat 5) with 5%Z in H4.
  assert (List.length s = 2 \/ List.length s = 3 \/ 4 <= List.length s)%nat
    as [L | [L | L]] by lia.
  - exists [nth 0 s 0; nth 1 s 0]. split; [| split ].
    + subst m. rewrite L in H0.
      change (Z.to_nat ((Z.of_nat 2 - 1) * 0 / 5)) with 0%nat in H0.
      change (Nat.min (Z.to_nat ((Z.of_nat 2 - 1) * 1 / 5) + 1) (2 - 1))
        with 1%nat in H0.
      apply (strict_chain _ _ (nth 1 s 0 + 1) (nth 1 s 0 + 2)); lra.
    + intros v [<- | [<- | []]]; apply binned_value; lia.
    + rewrite <- Hlen, L. reflexivity.
  - exists [nth 0 s 0; nth 1 s 0; nth 2 s 0]. split; [| split ].
    + subst m. rewrite L in H0, H3.
      change (Z.to_nat ((Z.of_nat 3 - 1) * 0 / 5)) with 0%nat in H0.
      change (Nat.min (Z.to_nat ((Z.of_nat 3 - 1) * 1 / 5) + 1) (3 - 1))
        with 1%nat in H0.
      change (Z.to_nat ((Z.of_nat 3 - 1) * 3 / 5)) with 1%nat in H3.
      change (Nat.min (Z.to_nat ((Z.of_nat 3 - 1) * 4 / 5) + 1) (3 - 1))
        with 2%nat in H3.
      apply (strict_chain _ _ _ (nth 2 s 0 + 1)); lra.
    + intros v [<- | [<- | [<- | []]]]; apply binned_value; lia.
    + rewrite <- Hlen, L. reflexivity.
  - set (j2 := Z.to_nat (m * 2 / 5)) in *.
    set (j4 := Z.to_nat (m * 4 / 5)) in *.
    assert (0 <= m)%Z as Hm by (subst m; lia).
    assert (nth (Nat.min (Z.to_nat (m * 1 / 5) + 1) (List.length s - 1)) s 0
            <= nth j2 s 0) as A1.
    { apply sorted_nth_le; [ exact Hs | | ];
        subst j2 m; Z.div_mod_to_equations; lia. }
    assert (nth (Nat.min (Z.to_nat (m * 3 / 5) + 1) (List.length s - 1)) s 0
            <= nth j4 s 0) as A2.
    { apply sorted_nth_le; [ exact Hs | | ];
        subst j4 m; Z.div_mod_to_equations; lia. }
    assert (nth (Nat.min (Z.to_nat (m * 5 / 5) + 1) (List.length s - 1)) s 0
            == nth (List.length s - 1) s 0) as A3.
    { replace (Nat.min (Z.to_nat (m * 5 / 5) + 1) (List.length s - 1))
        with (List.length s - 1)%nat; [ reflexivity |].
      subst m; Z.div_mod_to_equations; lia. }
    replace (Z.to_nat (m * 0 / 5)) with 0%nat in H0
      by (rewrite Z.mul_0_r; reflexivity).
    exists [nth 0 s 0; nth j2 s 0; nth j4 s 0; nth (List.length s - 1) s 0].
    split; [| split ].
    + apply strict_chain; lra.
    + intros v [<- | [<- | [<- | [<- | []]]]]; apply binned_value;
        subst j2 j4 m; Z.div_mod_to_equations; lia.
    + rewrite <- Hlen. simpl. lia.
Qed.

End Enclosure.

(** A Series with at most three different values, and more elements
    than values, cannot be binned. *)
Lemma qcut_few_values (x : list Q) (labels : list Z) (vs : list Q) :
  (List.length vs <= 3)%nat -> (List.length vs < List.length x)%nat ->
  (forall a, In a x -> exists v, In v vs /\ (a == v)%Q) ->
  qcut x 5 labels = inl (ValueError "Bin edges must be unique").
Proof.
  intros H3 Hlt Hin.
  destruct (qcut x 5 labels) as [e | ids] eqn:E.
  - f_equal. eapply qcut_error, E.
  - exfalso.
    destruct (binned_values x labels ids E) as [c [Hs [Hc Hlen]]].
    assert (List.length c <= List.length vs)%nat.
    { apply strict_values_count; [ exact Hs |].
      intros a Ha. apply Hin, Hc, Ha. }
    lia.
Qed.

(** A Series in which one value fills the ranks between the positions
    of two neighbouring edges cannot be binned. *)
Lemma qcut_run (x : list Q) (labels : list Z) (k : nat) :
  (k < 5)%nat -> run_across (sort_values x) k ->
  qcut x 5 labels = inl (ValueError "Bin edges must be unique").
Proof.
  intros Hk Hrun.
  destruct (qcut x 5 labels) as [e | ids] eqn:E.
  - f_equal. eapply qcut_error, E.
  - exfalso. pose proof (span_strict x labels ids E k Hk) as Hlt.
    unfold run_across in Hrun. cbv zeta in Hrun.
    apply Qlt_not_eq in Hlt. apply Hlt, Hrun.
Qed.

Section Bins.

Open Scope Q_scope.
Open Scope list_scope.

(** The bin number of a value among six ascending edges. *)
Lemma bin_index_six (a0 a1 a2 a3 a4 a5 v : Q) (k : Z) :
  a0 < a1 -> a1 < a2 -> a2 < a3 -> a3 < a4 -> a4 < a5 ->
  a0 <= v -> v <= a5 -> (1 <= k <= 5)%Z ->
  (Z.of_nat (bin_index [a0; a1; a2; a3; a4; a5] v) = k
   <-> in_bin [a0; a1; a2; a3; a4; a5] k v).
Proof.
  intros H01 H12 H23 H34 H45 Hlo Hhi Hk.
  assert (Qlt_bool a5 v = false) as L5 by (apply Qlt_bool_false_iff; exact Hhi).
  unfold bin_index, searchsorted_left. cbn [hd filter]. rewrite L5.
  destruct (Qeq_bool v a0) eqn:E0.
  - apply Qeq_bool_iff in E0.
    destruct (small_range k Hk) as [-> | [-> | [-> | [-> | ->]]]];
      unfold in_bin; simpl;
      (split; [ intros Heq; try discriminate Heq; split; lra
              | intros [Ha Hb]; try reflexivity; exfalso; lra ]).
  - apply Qeq_bool_neq in E0.
    assert (a0 < v) as L0.
    { apply Qle_lteq in Hlo. destruct Hlo as [H | H]; [ exact H |].
      exfalso. apply E0. symmetry. exact H. }
    assert (Qlt_bool a0 v = true) as -> by (apply Qlt_bool_iff; exact L0).
    destruct (Qlt_bool a1 v) eqn:L1;
      [ apply Qlt_bool_iff in L1 | apply Qlt_bool_false_iff in L1 ];
      (destruct (Qlt_bool a2 v) eqn:L2;
       [ apply Qlt_bool_iff in L2 | apply Qlt_bool_false_iff in L2 ]);
      (destruct (Qlt_bool a3 v) eqn:L3;
       [ apply Qlt_bool_iff in L3 | apply Qlt_bool_false_iff in L3 ]);
      (destruct (Qlt_bool a4 v) eqn:L4;
       [ apply Qlt_bool_iff in L4 | apply Qlt_bool_false_iff in L4 ]);
      try (exfalso; lra);
      destruct (small_range k Hk) as [-> | [-> | [-> | [-> | ->]]]];
      unfold in_bin; simpl;
      (split; [ intros Heq; try discriminate Heq; split; lra
              | intros [Ha Hb]; try reflexivity; exfalso; lra ]).
Qed.

End Bins.

Section QuintileBins.

Open Scope Q_scope.
Open Scope list_scope.

Variable x : list Q.
Hypothesis x_two : (2 <= List.length x)%nat.
Hypothesis edges_unique : has_duplicates (quintile_edges x) = false.

Let s : list Q := sort_values x.

Lemma quintile_edge_lt (k k' : nat) :
  (k < k')%nat -> (k' <= 5)%nat -> edge s k < edge s k'.
Proof.
  apply (edge_strict s).
  - apply sort_values_sorted.
  - subst s. rewrite sort_values_length. lia.
  - exact edges_unique.
Qed.

(** The bin of a value of the Series, by its edges. *)
Lemma quintile_bin (v : Q) (k : Z) :
  In v x -> (1 <= k <= 5)%Z ->
  (Z.of_nat (bin_index (quintile_edges x) v) = k
   <-> in_bin (quintile_edges x) k v).
Proof.
  intros Hv Hk.
  assert (1 <= List.length s)%nat as Hn
    by (subst s; rewrite sort_values_length; lia).
  apply (bin_index_six (edge s 0) (edge s 1) (edge s 2) (edge s 3) (edge s 4)
           (edge s 5) v k);
    try (apply quintile_edge_lt; lia); try exact Hk.
  - apply edge_lower;
      [ apply sort_values_sorted | exact Hn | apply sort_values_In, Hv ].
  - apply edge_upper;
      [ apply sort_values_sorted | exact Hn | apply sort_values_In, Hv ].
Qed.

(** The edges are ascending, start at the least value, end at the
    greatest, and each lies between the two values next to its
    position. *)
Lemma quintile_edges_between : between_neighbours s (quintile_edges x).
Proof.
  assert (2 <= List.length s)%nat as Hn
    by (subst s; rewrite sort_values_length; exact x_two).
  pose proof (sort_values_sorted x) as Hs. fold s in Hs.
  split; [ reflexivity |]. split; [| split; [| split ]].
  - intros k Hk.
    assert (k = 0 \/ k = 1 \/ k = 2 \/ k = 3 \/ k = 4)%nat
      as [-> | [-> | [-> | [-> | ->]]]] by lia;
      apply quintile_edge_lt; lia.
  - apply (edge_first s).
  - apply (edge_last s). lia.
  - intros k Hk j.
    assert (nth k (quintile_edges x) 0 = edge s k) as ->.
    { assert (k = 0 \/ k = 1 \/ k = 2 \/ k = 3 \/ k = 4 \/ k = 5)%nat
        as [-> | [-> | [-> | [-> | [-> | ->]]]]] by lia; reflexivity. }
    apply (edge_between s k Hs Hn Hk).
Qed.

End QuintileBins.

(* ===================================================================== *)
(** ** Properties of the segmenter                                        *)
(* ===================================================================== *)

(** On [cleaned_zero] two customers are scored; Recency and Monetary
    take two values, Frequency one, and the segmentation succeeds.  On
    [cleaned_ties] five customers are scored; Recency takes four values
    and the segmentation succeeds. *)
Lemma few_distinct_values_succeed :
  map Recency (aggregate cleaned_zero) = [3; 1]%Z
  /\ map Frequency (aggregate cleaned_zero) = [1; 1]%Z
  /\ map Monetary (aggregate cleaned_zero) = [20; 10]%Q
  /\ (exists out,
        create_segment_dataframe cleaned_zero = inr out
        /\ map RF_Score out = ["11"; "55"]
        /\ map CustomerSegment out = ["Hibernating"; "Champion"])
  /\ map Recency (aggregate cleaned_ties) = [1; 2; 2; 3; 4]%Z
  /\ exists out,
       create_segment_dataframe cleaned_ties = inr out
       /\ map RF_Score out = ["51"; "42"; "43"; "24"; "15"].
Proof.
  split; [ vm_compute; reflexivity |].
  split; [ vm_compute; reflexivity |].
  split; [ vm_compute; reflexivity |].
  split; [ eexists; evaluate |].
  split; [ vm_compute; reflexivity |].
  eexists. evaluate.
Qed.

(** C2, as amended.  When at most one customer is scored, or when
    Recency, or Monetary, takes at most three different values among more
    scored customers than it takes values (one value among two customers
    or more, two among three or more, three among four or more),
    [create_segment_dataframe] fails with the [ValueError] of [qcut].
    More generally it fails whenever one value of Recency, or of Monetary,
    fills the ranks between the positions of two neighbouring quintile
    edges.  The binning of Frequency, which is made on first-seen ranks,
    succeeds as soon as two customers are scored, whatever their
    frequencies. *)
Theorem binning_fails_on_few_values (t : list CleanedLine) :
  let rfm := aggregate t in
  (((List.length rfm <= 1)%nat
    \/ (exists vs : list Z,
          (List.length vs <= 3)%nat /\ (List.length vs < List.length rfm)%nat
          /\ forall r, In r rfm -> In (Recency r) vs)
    \/ (exists vs : list Q,
          (List.length vs <= 3)%nat /\ (List.length vs < List.length rfm)%nat
          /\ forall r, In r rfm -> exists v, In v vs /\ (Monetary r == v)%Q)) ->
   create_segment_dataframe t = inl (ValueError "Bin edges must be unique"))
  /\ (forall k, (k < 5)%nat ->
        run_across (sort_values (map (fun r => inject_Z (Recency r)) rfm)) k
        \/ run_across (sort_values (map Monetary rfm)) k ->
        create_segment_dataframe t = inl (ValueError "Bin edges must be unique"))
  /\ ((2 <= List.length rfm)%nat ->
      exists fs,
        qcut (rank_first (map Frequency rfm)) 5 [1; 2; 3; 4; 5]%Z = inr fs).
Proof.
  intros rfm.
  assert ((exists out, score rfm = inr out) \/
          create_segment_dataframe t = inl (ValueError "Bin edges must be unique"))
    as Hcases.
  { unfold create_segment_dataframe. fold rfm.
    destruct (score rfm) as [e | out] eqn:E; [ right | left; eauto ].
    unfold score, and_then in E.
    destruct (qcut (map _ rfm) 5 [5; 4; 3; 2; 1]%Z) as [e1 | rs] eqn:E1.
    { apply qcut_error in E1. congruence. }
    destruct (qcut (rank_first _) 5 _) as [e2 | fs] eqn:E2.
    { apply qcut_error in E2. congruence. }
    destruct (qcut (map Monetary rfm) 5 _) as [e3 | ms] eqn:E3.
    { apply qcut_error in E3. congruence. }
    discriminate E. }
  split; [| split ].
  - intros Hfew. destruct Hcases as [[out E] | Hfail]; [ exfalso | exact Hfail ].
    destruct (score_ok _ _ E) as [rs [fs [ms [Hr [Hf [Hm _]]]]]].
    destruct Hfew as [Hone | [[vs [H3 [Hlt Hin]]] | [vs [H3 [Hlt Hin]]]]].
    + apply qcut_two in Hm. rewrite length_map in Hm. lia.
    + rewrite (qcut_few_values _ _ (map inject_Z vs)) in Hr;
        [ discriminate Hr | | | ]; rewrite ?length_map; try assumption.
      intros a Ha. apply in_map_iff in Ha. destruct Ha as [r [<- Hr']].
      exists (inject_Z (Recency r)). split; [| reflexivity ].
      apply in_map, Hin, Hr'.
    + rewrite (qcut_few_values _ _ vs) in Hm;
        [ discriminate Hm | | | ]; rewrite ?length_map; try assumption.
      intros a Ha. apply in_map_iff in Ha. destruct Ha as [r [<- Hr']].
      apply Hin, Hr'.
  - intros k Hk Hrun.
    destruct Hcases as [[out E] | Hfail]; [ exfalso | exact Hfail ].
    destruct (score_ok _ _ E) as [rs [fs [ms [Hr [Hf [Hm _]]]]]].
    destruct Hrun as [Hrun | Hrun].
    + rewrite (qcut_run _ _ k Hk Hrun) in Hr. discriminate Hr.
    + rewrite (qcut_run _ _ k Hk Hrun) in Hm. discriminate Hm.
  - intros Hn. eexists. apply qcut_distinct.
    + apply rank_first_distinct.
    + rewrite rank_first_length, length_map. exact Hn.
Qed.

Lemma binning_fails_on_few_values_witness :
  create_segment_dataframe cleaned_few
  = inl (ValueError "Bin edges must be unique")
  /\ exists fs,
       qcut (rank_first (map Frequency (aggregate cleaned_few))) 5
            [1; 2; 3; 4; 5]%Z = inr fs.
Proof.
  split.
  - refine (proj1 (binning_fails_on_few_values cleaned_few) _).
    right. left. exists [1; 2]%Z.
    split; [ simpl; lia |]. split; [ vm_compute; lia |].
    intros r Hr. vm_compute in Hr.
    destruct Hr as [<- | [<- | [<- | [<- | [<- | []]]]]]; simpl; auto.
  - refine (proj2 (proj2 (binning_fails_on_few_values cleaned_few)) _).
    vm_compute. lia.
Defined.

(** On [cleaned_ties] Recency is 1, 2, 2, 3, 4 days: the edges are 1,
    1.8, 2, 2.4, 3.2, 4, so two customers get score 4 and none gets
    score 3. *)
Lemma recency_groups_unequal :
  map Recency (aggregate cleaned_ties) = [1; 2; 2; 3; 4]%Z
  /\ exists out,
       create_segment_dataframe cleaned_ties = inr out
       /\ map RecencyScore out = [Some 5; Some 4; Some 4; Some 2; Some 1]%Z
       /\ count_if (fun s => has_score (RecencyScore s) 4) out = 2%Z
       /\ count_if (fun s => has_score (RecencyScore s) 3) out = 0%Z.
Proof.
  split; [ vm_compute; reflexivity |].
  eexists. evaluate.
Qed.

Lemma count_scores {f : ScoredCustomer -> option Z} (out : list ScoredCustomer)
  (b : Z) :
  count_if (fun s => has_score (f s) b) out
  = count_if (fun c => has_score c b) (map f out).
Proof. symmetry. apply count_if_map. Qed.

(** C7, as amended.  In the returned frame of [n] rows, each of the five
    values of [FrequencyScore] is held by [n/5] customers, rounded down or
    up, so by at least one customer when [n >= 5]; of two customers with
    the same Frequency the one that comes first in the frame never has
    the higher score.  [RecencyScore] and [MonetaryScore] are binned on
    the values themselves.  The groups of [RecencyScore] have these sizes
    when the Recency values are pairwise different.  Those of
    [MonetaryScore] are within one customer of these sizes when the
    Monetary values are pairwise different: Monetary is a floating-point
    sum, and a bin edge interpolated between two sums can round onto the
    upper one, which moves one customer to the group below. *)
Theorem quintile_group_sizes (t : list CleanedLine) (out : list ScoredCustomer) :
  create_segment_dataframe t = inr out ->
  let n := Z.of_nat (List.length out) in
  (forall b, (1 <= b <= 5)%Z ->
     (n / 5 <= count_if (fun s => has_score (FrequencyScore s) b) out
      <= (n + 4) / 5)%Z)
  /\ ((5 <= n)%Z -> forall b, (1 <= b <= 5)%Z ->
      (1 <= count_if (fun s => has_score (FrequencyScore s) b) out)%Z)
  /\ (forall i j a b, (i < j)%nat ->
        nth_error out i = Some a -> nth_error out j = Some b ->
        Frequency (metrics a) = Frequency (metrics b) ->
        score_le (FrequencyScore a) (FrequencyScore b))
  /\ (distinct (map (fun s => inject_Z (Recency (metrics s))) out) ->
      forall b, (1 <= b <= 5)%Z ->
        (n / 5 <= count_if (fun s => has_score (RecencyScore s) b) out
         <= (n + 4) / 5)%Z)
  /\ (distinct (map (fun s => Monetary (metrics s)) out) ->
      forall b, (1 <= b <= 5)%Z ->
        (n / 5 - 1 <= count_if (fun s => has_score (MonetaryScore s) b) out
         <= (n + 4) / 5 + 1)%Z).
Proof.
  intros Hrun n. unfold create_segment_dataframe in Hrun.
  set (rfm := aggregate t) in *.
  destruct (score_columns rfm out Hrun)
    as [rs [fs [ms [Hr [Hf [Hm [Ers [Efs [Ems Hlen]]]]]]]]].
  pose proof (score_metrics _ _ Hrun) as Hmetrics.
  assert (forall b, (1 <= b <= 5)%Z ->
     (n / 5 <= count_if (fun s => has_score (FrequencyScore s) b) out
      <= (n + 4) / 5)%Z) as Hfreq.
  { intros b Hb. rewrite count_scores, Efs.
    pose proof (qcut_direct_sizes _ _ b (rank_first_distinct _) Hf Hb) as H.
    cbv zeta in H. rewrite rank_first_length, length_map, <- Hlen in H.
    exact H. }
  split; [ exact Hfreq |]. split; [| split; [| split ]].
  - intros Hn b Hb. specialize (Hfreq b Hb).
    assert (1 <= n / 5)%Z by (apply Z.div_le_lower_bound; lia). lia.
  - intros i j a b Hij Ha Hb Heq.
    destruct (scored_row rfm out Hrun i a Ha) as [Hia [Hra [_ [-> _]]]].
    destruct (scored_row rfm out Hrun j b Hb) as [Hjb [Hrb [_ [-> _]]]].
    set (freqs := map Frequency rfm) in *.
    set (F := rank_first freqs) in *.
    assert (nth_error freqs i = Some (Frequency (metrics a))) as Hfi
      by (subst freqs; rewrite nth_error_map, Hia; reflexivity).
    assert (nth_error freqs j = Some (Frequency (metrics b))) as Hfj
      by (subst freqs; rewrite nth_error_map, Hjb; reflexivity).
    rewrite <- Heq in Hfj.
    pose proof (rank_tie freqs i j _ Hfi Hfj Hij) as Hlt.
    rewrite <- Heq in Hrb |- *.
    apply nth_error_In in Hra, Hrb.
    rewrite !bin_of_direct
      by (reflexivity || apply quintile_edges_range; assumption).
    simpl. apply inj_le, value_bin_mono; try assumption.
    rewrite <- Zle_Qle. lia.
  - intros Hd b Hb. rewrite count_scores, Ers.
    rewrite <- Hmetrics, map_map in Hr.
    pose proof (qcut_inverted_sizes _ _ b Hd Hr Hb) as H.
    cbv zeta in H. rewrite length_map in H. exact H.
  - intros Hd b Hb. rewrite count_scores, Ems.
    rewrite <- Hmetrics, map_map in Hm.
    pose proof (qcut_direct_sizes _ _ b Hd Hm Hb) as H.
    cbv zeta in H. rewrite length_map in H. subst n. lia.
Qed.

Lemma quintile_group_sizes_witness :
  exists out,
    create_segment_dataframe cleaned_ties = inr out
    /\ forall b, (1 <= b <= 5)%Z ->
       (Z.of_nat (List.length out) / 5
        <= count_if (fun s => has_score (FrequencyScore s) b) out
        <= (Z.of_nat (List.length out) + 4) / 5)%Z.
Proof.
  eexists. split; [ vm_compute; reflexivity |].
  refine (proj1 (quintile_group_sizes cleaned_ties _ _)).
  vm_compute; reflexivity.
Defined.

Section ScoreOrder.

Open Scope Z_scope.
Open Scope list_scope.

Variable rfm : list CustomerRecord.
Variable out : list ScoredCustomer.
Hypothesis run : score rfm = inr out.

Let R : list Q := map (fun r => inject_Z (Recency r)) rfm.
Let freqs : list Z := map Frequency rfm.
Let F : list Q := rank_first freqs.
Let M : list Q := map Monetary rfm.

Lemma recency_score_of (s : ScoredCustomer) :
  In s out ->
  RecencyScore s
  = Some (6 - Z.of_nat (bin_index (quintile_edges R)
                          (inject_Z (Recency (metrics s))))).
Proof.
  intros Hs. destruct (In_nth_error _ _ Hs) as [i Hi].
  destruct (scored_row rfm out run i s Hi) as [_ [_ [-> _]]].
  apply bin_of_inverted; [ reflexivity |].
  apply quintile_edges_range, (in_R rfm out run), Hs.
Qed.

Lemma monetary_score_of (s : ScoredCustomer) :
  In s out ->
  MonetaryScore s
  = Some (Z.of_nat (bin_index (quintile_edges M) (Monetary (metrics s)))).
Proof.
  intros Hs. destruct (In_nth_error _ _ Hs) as [i Hi].
  destruct (scored_row rfm out run i s Hi) as [_ [_ [_ [_ ->]]]].
  apply bin_of_direct; [ reflexivity |].
  apply quintile_edges_range, (in_M rfm out run), Hs.
Qed.

Lemma frequency_score_at (i : nat) (s : ScoredCustomer) :
  nth_error out i = Some s ->
  let rank := inject_Z (rankZ freqs (firstn i freqs) (Frequency (metrics s))) in
  nth_error freqs i = Some (Frequency (metrics s))
  /\ nth_error F i = Some rank
  /\ FrequencyScore s = Some (Z.of_nat (bin_index (quintile_edges F) rank)).
Proof.
  intros Hi rank.
  destruct (scored_row rfm out run i s Hi) as [Hr [Hrank [_ [-> _]]]].
  fold freqs in Hrank |- *. fold F in Hrank |- *. fold rank in Hrank |- *.
  split; [ subst freqs; rewrite nth_error_map, Hr; reflexivity |].
  split; [ exact Hrank |].
  apply bin_of_direct; [ reflexivity |].
  apply quintile_edges_range. eapply nth_error_In, Hrank.
Qed.

Lemma score_range (s : ScoredCustomer) :
  In s out ->
  exists r f m,
    RecencyScore s = Some r /\ FrequencyScore s = Some f
    /\ MonetaryScore s = Some m
    /\ 1 <= r <= 5 /\ 1 <= f <= 5 /\ 1 <= m <= 5.
Proof.
  intros Hs. destruct (In_nth_error _ _ Hs) as [i Hi].
  destruct (frequency_score_at i s Hi) as [_ [Hrank Hf]].
  pose proof (quintile_edges_range R _ (in_R rfm out run s Hs)) as Hr1.
  pose proof (quintile_edges_range M _ (in_M rfm out run s Hs)) as Hm1.
  pose proof (quintile_edges_range F _ (nth_error_In _ _ Hrank)) as Hf1.
  eexists _, _, _.
  split; [ apply recency_score_of, Hs |].
  split; [ exact Hf |].
  split; [ apply monetary_score_of, Hs |].
  lia.
Qed.

Lemma recency_score_antitone (a b : ScoredCustomer) :
  In a out -> In b out ->
  Recency (metrics a) <= Recency (metrics b) ->
  score_le (RecencyScore b) (RecencyScore a).
Proof.
  intros Ha Hb Hle.
  rewrite (recency_score_of a Ha), (recency_score_of b Hb). simpl.
  assert (bin_index (quintile_edges R) (inject_Z (Recency (metrics a)))
          <= bin_index (quintile_edges R) (inject_Z (Recency (metrics b))))%nat;
    [| lia ].
  apply value_bin_mono; try (apply (in_R rfm out run); assumption).
  rewrite <- Zle_Qle. exact Hle.
Qed.

Lemma monetary_score_monotone (a b : ScoredCustomer) :
  In a out -> In b out ->
  (Monetary (metrics a) <= Monetary (metrics b))%Q ->
  score_le (MonetaryScore a) (MonetaryScore b).
Proof.
  intros Ha Hb Hle.
  rewrite (monetary_score_of a Ha), (monetary_score_of b Hb). simpl.
  apply inj_le, value_bin_mono;
    try (apply (in_M rfm out run); assumption).
  exact Hle.
Qed.

Lemma frequency_score_monotone (a b : ScoredCustomer) :
  In a out -> In b out ->
  Frequency (metrics a) < Frequency (metrics b) ->
  score_le (FrequencyScore a) (FrequencyScore b).
Proof.
  intros Ha Hb Hlt.
  destruct (In_nth_error _ _ Ha) as [i Hi].
  destruct (In_nth_error _ _ Hb) as [j Hj].
  destruct (frequency_score_at i a Hi) as [Hfi [Hri ->]].
  destruct (frequency_score_at j b Hj) as [Hfj [Hrj ->]].
  simpl. apply inj_le, value_bin_mono.
  - eapply nth_error_In, Hri.
  - eapply nth_error_In, Hrj.
  - rewrite <- Zle_Qle.
    pose proof (rank_lt freqs i j _ _ Hfi Hfj Hlt). lia.
Qed.

Lemma edges_unique_R : has_duplicates (quintile_edges R) = false.
Proof.
  destruct (score_columns rfm out run) as [rs [fs [ms [Hr _]]]].
  apply qcut_edges in Hr. tauto.
Qed.

Lemma edges_unique_F : has_duplicates (quintile_edges F) = false.
Proof.
  destruct (score_columns rfm out run) as [rs [fs [ms [_ [Hf _]]]]].
  apply qcut_edges in Hf. tauto.
Qed.

Lemma edges_unique_M : has_duplicates (quintile_edges M) = false.
Proof.
  destruct (score_columns rfm out run) as [rs [fs [ms [_ [_ [Hm _]]]]]].
  apply qcut_edges in Hm. tauto.
Qed.

Lemma lowest_recency_score (a : ScoredCustomer) :
  In a out ->
  (forall b, In b out -> Recency (metrics a) <= Recency (metrics b)) ->
  RecencyScore a = Some 5.
Proof.
  intros Ha Hmin. rewrite (recency_score_of a Ha).
  rewrite lowest_value_bin; [ reflexivity | apply (in_R rfm out run), Ha |].
  intros w Hw. destruct (R_values rfm out run w Hw) as [b [Hb ->]].
  rewrite <- Zle_Qle. apply Hmin, Hb.
Qed.

Lemma highest_recency_score (a : ScoredCustomer) :
  In a out ->
  (forall b, In b out -> Recency (metrics b) <= Recency (metrics a)) ->
  RecencyScore a = Some 1.
Proof.
  intros Ha Hmax. rewrite (recency_score_of a Ha).
  rewrite highest_value_bin;
    [ reflexivity | apply edges_unique_R | apply (in_R rfm out run), Ha |].
  intros w Hw. destruct (R_values rfm out run w Hw) as [b [Hb ->]].
  rewrite <- Zle_Qle. apply Hmax, Hb.
Qed.

Lemma lowest_monetary_score (a : ScoredCustomer) :
  In a out ->
  (forall b, In b out -> (Monetary (metrics a) <= Monetary (metrics b))%Q) ->
  MonetaryScore a = Some 1.
Proof.
  intros Ha Hmin. rewrite (monetary_score_of a Ha).
  rewrite lowest_value_bin; [ reflexivity | apply (in_M rfm out run), Ha |].
  intros w Hw. destruct (M_values rfm out run w Hw) as [b [Hb ->]].
  apply Hmin, Hb.
Qed.

Lemma highest_monetary_score (a : ScoredCustomer) :
  In a out ->
  (forall b, In b out -> (Monetary (metrics b) <= Monetary (metrics a))%Q) ->
  MonetaryScore a = Some 5.
Proof.
  intros Ha Hmax. rewrite (monetary_score_of a Ha).
  rewrite highest_value_bin;
    [ reflexivity | apply edges_unique_M | apply (in_M rfm out run), Ha |].
  intros w Hw. destruct (M_values rfm out run w Hw) as [b [Hb ->]].
  apply Hmax, Hb.
Qed.

Lemma F_nonempty : F <> [].
Proof.
  destruct (score_columns rfm out run) as [rs [fs [ms [_ [Hf _]]]]].
  apply qcut_edges in Hf. tauto.
Qed.

Lemma row_of_rank (v : Q) :
  In v F ->
  exists i a, nth_error out i = Some a /\ nth_error F i = Some v.
Proof.
  intros Hv. destruct (In_nth_error _ _ Hv) as [i Hi].
  assert (i < List.length out)%nat as Hlt.
  { destruct (score_columns rfm out run)
      as [rs [fs [ms [_ [_ [_ [_ [_ [_ Hlen]]]]]]]]].
    rewrite Hlen, <- (length_map Frequency), <- rank_first_length.
    apply nth_error_Some. fold freqs. fold F. congruence. }
  destruct (nth_error out i) as [a |] eqn:Ha.
  - exists i, a. auto.
  - apply nth_error_None in Ha. lia.
Qed.

(** A customer of lowest Frequency has score 1. *)
Lemma lowest_frequency_score :
  exists a,
    In a out
    /\ (forall b, In b out -> Frequency (metrics a) <= Frequency (metrics b))
    /\ FrequencyScore a = Some 1.
Proof.
  destruct (exists_min_Q F F_nonempty) as [v [Hv Hmin]].
  destruct (row_of_rank v Hv) as [i [a [Ha Hi]]].
  destruct (frequency_score_at i a Ha) as [Hfi [Hri Hscore]].
  rewrite Hi in Hri. injection Hri as ->.
  exists a. split; [ eapply nth_error_In, Ha |]. split.
  - intros b Hb.
    destruct (Z_lt_le_dec (Frequency (metrics b)) (Frequency (metrics a)))
      as [Hlt | Hle]; [ exfalso | exact Hle ].
    destruct (In_nth_error _ _ Hb) as [j Hj].
    destruct (frequency_score_at j b Hj) as [Hfj [Hrj _]].
    pose proof (rank_lt freqs j i _ _ Hfj Hfi Hlt) as Hrank.
    pose proof (Hmin _ (nth_error_In _ _ Hrj)) as Hle.
    rewrite <- Zle_Qle in Hle. lia.
  - rewrite Hscore, lowest_value_bin; [ reflexivity | exact Hv | exact Hmin ].
Qed.

(** A customer of highest Frequency has score 5. *)
Lemma highest_frequency_score :
  exists a,
    In a out
    /\ (forall b, In b out -> Frequency (metrics b) <= Frequency (metrics a))
    /\ FrequencyScore a = Some 5.
Proof.
  destruct (exists_max_Q F F_nonempty) as [v [Hv Hmax]].
  destruct (row_of_rank v Hv) as [i [a [Ha Hi]]].
  destruct (frequency_score_at i a Ha) as [Hfi [Hri Hscore]].
  rewrite Hi in Hri. injection Hri as ->.
  exists a. split; [ eapply nth_error_In, Ha |]. split.
  - intros b Hb.
    destruct (Z_lt_le_dec (Frequency (metrics a)) (Frequency (metrics b)))
      as [Hlt | Hle]; [ exfalso | exact Hle ].
    destruct (In_nth_error _ _ Hb) as [j Hj].
    destruct (frequency_score_at j b Hj) as [Hfj [Hrj _]].
    pose proof (rank_lt freqs i j _ _ Hfi Hfj Hlt) as Hrank.
    pose proof (Hmax _ (nth_error_In _ _ Hrj)) as Hle.
    rewrite <- Zle_Qle in Hle. lia.
  - rewrite Hscore, highest_value_bin;
      [ reflexivity | apply edges_unique_F | exact Hv | exact Hmax ].
Qed.

End ScoreOrder.

(** C8.  In the returned frame every customer has three scores between 1
    and 5.  [RecencyScore] is inverted: a customer has score [6 - k]
    exactly when their Recency lies in the [k]-th bin of the quintile
    edges of Recency, so the lowest quintile has 5 and the highest 1.
    [FrequencyScore] is direct: a customer has score [k] exactly when
    their first-seen rank lies in the [k]-th bin of the quintile edges of
    the ranks.  [MonetaryScore] is direct: a customer has score [k]
    exactly when their Monetary lies in the [k]-th bin of six ascending
    edges, each between the two values next to its position.
    [RecencyScore] never grows with Recency, the customers of lowest
    Recency have 5 and those of highest Recency have 1; [MonetaryScore]
    and [FrequencyScore] never fall when the metric grows, the lowest
    Monetary has 1 and the highest 5, a customer of lowest Frequency has 1
    and one of highest Frequency has 5.  [RF_Score] is the decimal digit
    of [RecencyScore] followed by that of [FrequencyScore], and
    [CustomerSegment] is computed from [RF_Score] alone, so two customers
    with the same Recency and Frequency scores have the same code and
    segment whatever their [MonetaryScore]. *)
Theorem score_directions (t : list CleanedLine) (out : list ScoredCustomer) :
  create_segment_dataframe t = inr out ->
  let rfm := aggregate t in
  let R := map (fun r => inject_Z (Recency r)) rfm in
  let freqs := map Frequency rfm in
  let F := rank_first freqs in
  let M := map Monetary rfm in
  (forall s, In s out ->
     exists r f m,
       RecencyScore s = Some r /\ FrequencyScore s = Some f
       /\ MonetaryScore s = Some m
       /\ (1 <= r <= 5)%Z /\ (1 <= f <= 5)%Z /\ (1 <= m <= 5)%Z
       /\ RF_Score s = (str r ++ str f)%string
       /\ String.length (RF_Score s) = 2%nat
       /\ CustomerSegment s = CustomerSegment_of (RF_Score s))
  /\ (forall s k, In s out -> (1 <= k <= 5)%Z ->
        (RecencyScore s = Some (6 - k)%Z
         <-> in_bin (quintile_edges R) k (inject_Z (Recency (metrics s)))))
  /\ (forall i s k, nth_error out i = Some s -> (1 <= k <= 5)%Z ->
        let rank := rankZ freqs (firstn i freqs) (Frequency (metrics s)) in
        nth_error F i = Some (inject_Z rank)
        /\ (FrequencyScore s = Some k
            <-> in_bin (quintile_edges F) k (inject_Z rank)))
  /\ (exists e,
        between_neighbours (sort_values M) e
        /\ forall s k, In s out -> (1 <= k <= 5)%Z ->
             (MonetaryScore s = Some k <-> in_bin e k (Monetary (metrics s))))
  /\ (forall a b, In a out -> In b out ->
        (Recency (metrics a) <= Recency (metrics b))%Z ->
        score_le (RecencyScore b) (RecencyScore a))
  /\ (forall a, In a out ->
        (forall b, In b out -> (Recency (metrics a) <= Recency (metrics b))%Z) ->
        RecencyScore a = Some 5%Z)
  /\ (forall a, In a out ->
        (forall b, In b out -> (Recency (metrics b) <= Recency (metrics a))%Z) ->
        RecencyScore a = Some 1%Z)
  /\ (forall a b, In a out -> In b out ->
        (Frequency (metrics a) < Frequency (metrics b))%Z ->
        score_le (FrequencyScore a) (FrequencyScore b))
  /\ (exists a, In a out
        /\ (forall b, In b out ->
              (Frequency (metrics a) <= Frequency (metrics b))%Z)
        /\ FrequencyScore a = Some 1%Z)
  /\ (exists a, In a out
        /\ (forall b, In b out ->
              (Frequency (metrics b) <= Frequency (metrics a))%Z)
        /\ FrequencyScore a = Some 5%Z)
  /\ (forall a b, In a out -> In b out ->
        (Monetary (metrics a) <= Monetary (metrics b))%Q ->
        score_le (MonetaryScore a) (MonetaryScore b))
  /\ (forall a, In a out ->
        (forall b, In b out -> (Monetary (metrics a) <= Monetary (metrics b))%Q) ->
        MonetaryScore a = Some 1%Z)
  /\ (forall a, In a out ->
        (forall b, In b out -> (Monetary (metrics b) <= Monetary (metrics a))%Q) ->
        MonetaryScore a = Some 5%Z)
  /\ (forall a b, In a out -> In b out ->
        RecencyScore a = RecencyScore b ->
        FrequencyScore a = FrequencyScore b ->
        RF_Score a = RF_Score b /\ CustomerSegment a = CustomerSegment b).
Proof.
  intros Hrun rfm R freqs F M. unfold create_segment_dataframe in Hrun.
  fold rfm in Hrun. subst R F freqs M.
  destruct (score_columns rfm out Hrun)
    as [rs [fs [ms [Hr [Hf [Hm _]]]]]].
  pose proof (qcut_two _ _ _ Hr) as HnR.
  pose proof (qcut_two _ _ _ Hf) as HnF.
  pose proof (qcut_two _ _ _ Hm) as HnM.
  split.
  { intros s Hs.
    destruct (score_range rfm out Hrun s Hs)
      as [r [f [m [Er [Ef [Em [Rr [Rf Rm]]]]]]]].
    destruct (score_index rfm out s Hrun Hs) as [_ [Hcode Hseg]].
    exists r, f, m. repeat (split; [ assumption |]).
    rewrite Hseg, Hcode, Er, Ef.
    split; [ reflexivity |]. split; [| reflexivity ].
    destruct (small_range r Rr) as [-> | [-> | [-> | [-> | ->]]]];
      destruct (small_range f Rf) as [-> | [-> | [-> | [-> | ->]]]];
      reflexivity. }
  split.
  { intros s k Hs Hk.
    rewrite (recency_score_of rfm out Hrun s Hs).
    rewrite <- (quintile_bin _ HnR (edges_unique_R rfm out Hrun) _ k
                  (in_R rfm out Hrun s Hs) Hk).
    split; [ intros [= H]; lia | intros <-; reflexivity ]. }
  split.
  { intros i s k Hi Hk rank.
    destruct (frequency_score_at rfm out Hrun i s Hi) as [_ [Hrank ->]].
    subst rank. split; [ exact Hrank |].
    rewrite <- (quintile_bin _ HnF (edges_unique_F rfm out Hrun) _ k
                  (nth_error_In _ _ Hrank) Hk).
    split; [ intros [= H]; exact H | intros <-; reflexivity ]. }
  split.
  { exists (quintile_edges (map Monetary rfm)). split.
    - apply quintile_edges_between;
        [ exact HnM | apply (edges_unique_M rfm out Hrun) ].
    - intros s k Hs Hk.
      rewrite (monetary_score_of rfm out Hrun s Hs).
      rewrite <- (quintile_bin _ HnM (edges_unique_M rfm out Hrun) _ k
                    (in_M rfm out Hrun s Hs) Hk).
      split; [ intros [= H]; exact H | intros <-; reflexivity ]. }
  split; [ intros a b; apply (recency_score_antitone rfm out Hrun) |].
  split; [ intros a; apply (lowest_recency_score rfm out Hrun) |].
  split; [ intros a; apply (highest_recency_score rfm out Hrun) |].
  split; [ intros a b; apply (frequency_score_monotone rfm out Hrun) |].
  split; [ apply (lowest_frequency_score rfm out Hrun) |].
  split; [ apply (highest_frequency_score rfm out Hrun) |].
  split; [ intros a b; apply (monetary_score_monotone rfm out Hrun) |].
  split; [ intros a; apply (lowest_monetary_score rfm out Hrun) |].
  split; [ intros a; apply (highest_monetary_score rfm out Hrun) |].
  intros a b Ha Hb Er Ef.
  destruct (score_index rfm out a Hrun Ha) as [_ [Ca Sa]].
  destruct (score_index rfm out b Hrun Hb) as [_ [Cb Sb]].
  assert (RF_Score a = RF_Score b) as Heq by congruence.
  split; [ exact Heq | congruence ].
Qed.

Lemma score_directions_witness :
  exists out,
    create_segment_dataframe cleaned_ties = inr out
    /\ forall s k, In s out -> (1 <= k <= 5)%Z ->
         (RecencyScore s = Some (6 - k)%Z
          <-> in_bin (quintile_edges
                        (map (fun r => inject_Z (Recency r))
                           (aggregate cleaned_ties)))
                k (inject_Z (Recency (metrics s)))).
Proof.
  eexists. split; [ vm_compute; reflexivity |].
  refine (proj1 (proj2 (score_directions cleaned_ties _ _))).
  vm_compute; reflexivity.
Defined.

(** The scores and segments computed on [cleaned_ties]. *)
Example scores_on_cleaned_ties :
  exists out,
    create_segment_dataframe cleaned_ties = inr out
    /\ map index out = [12431; 12583; 13047; 13748; 17850]%Z
    /\ map RecencyScore out = [Some 5; Some 4; Some 4; Some 2; Some 1]%Z
    /\ map FrequencyScore out = [Some 1; Some 2; Some 3; Some 4; Some 5]%Z
    /\ map MonetaryScore out = [Some 1; Some 2; Some 3; Some 4; Some 5]%Z
    /\ map RF_Score out = ["51"; "42"; "43"; "24"; "15"]
    /\ map CustomerSegment out
       = ["New Customer"; "Potential Loyalist"; "Potential Loyalist";
          "At Risk"; "Can't Lose"].
Proof. eexists. evaluate. Qed.

(* ===================================================================== *)
(** ** The whole script                                                   *)
(* ===================================================================== *)

(** The frame handed to [create_segment_dataframe] on line 179 is always
    a cleaned table: the script never stops on a missing column. *)
Lemma main_runs (h : gmap loc DataFrame) (l : loc) (df : DataFrame) :
  h !! l = Some df ->
  exists cs,
    as_cleaned (preprocessed df) = Some cs
    /\ fst (main l h) = create_segment_dataframe cs.
Proof.
  intros Hl.
  destruct (data_preprocess_cleaned df) as [cs Hcs].
  exists cs. split; [ exact Hcs |].
  unfold main, bind, deref, ret.
  rewrite (data_preprocess_run _ _ _ Hl).
  cbn [fst]. rewrite lookup_total_insert_eq, Hcs. reflexivity.
Qed.

(** The script on [raw_table]: three customers are left, with Recency 2,
    7 and 10 days, Frequency 2, 2 and 1. *)
Example script_on_raw_table :
  exists out,
    fst (main 1%positive raw_heap) = inr out
    /\ map index out = [12583; 13047; 17850]%Z
    /\ map (fun s => Recency (metrics s)) out = [2; 7; 10]%Z
    /\ map (fun s => Frequency (metrics s)) out = [2; 2; 1]%Z
    /\ map RF_Score out = ["53"; "35"; "11"]
    /\ map CustomerSegment out
       = ["Potential Loyalist"; "Loyal Customer"; "Hibernating"].
Proof.
  eexists. evaluate.
Qed.

(* ===================================================================== *)
(** ** Further properties of the preprocessor                             *)
(* ===================================================================== *)

(** X1.  [find_thresholds] only reads the heap; the lower limit it
    returns is never above the upper one; on a column without any value
    both limits are NaN. *)
Theorem find_thresholds_reads_only (h : gmap loc DataFrame) (l : loc)
  (v : variable) :
  snd (find_thresholds l v h) = h
  /\ (forall lo hi,
        fst (find_thresholds l v h) = (Some lo, Some hi) -> (lo <= hi)%Q)
  /\ (present (getitem (h !!! l) v) = [] ->
      fst (find_thresholds l v h) = (None, None)).
Proof.
  unfold find_thresholds, bind, deref, ret. cbn [fst snd].
  split; [ reflexivity |]. split.
  - intros lo hi [= Hlo Hhi].
    eapply (fences_ordered (getitem (h !!! l) v)); eassumption.
  - intros Hnone. unfold quantile. rewrite Hnone. reflexivity.
Qed.

Lemma find_thresholds_reads_only_witness :
  exists lo hi,
    fst (find_thresholds 1%positive col_Quantity raw_heap) = (Some lo, Some hi)
    /\ (lo <= hi)%Q.
Proof.
  eexists _, _. split; [ vm_compute; reflexivity |].
  eapply (proj1 (proj2 (find_thresholds_reads_only raw_heap 1%positive
                          col_Quantity))).
  vm_compute; reflexivity.
Defined.

Lemma quartiles_inside_fences (xs : list float) (a b lo hi : Q) :
  quantile xs (1 # 4) = Some a -> quantile xs (3 # 4) = Some b ->
  SpecPreprocess.lowLimit xs = Some lo -> SpecPreprocess.upLimit xs = Some hi ->
  (lo <= a /\ a <= b /\ b <= hi)%Q.
Proof.
  intros Ha Hb. pose proof (quartiles_ordered _ _ _ Ha Hb) as Hab.
  unfold SpecPreprocess.lowLimit, SpecPreprocess.upLimit.
  rewrite Ha, Hb. unfold fsub, fadd, fmul, nan_lift2.
  intros [= <-] [= <-]. split; [| split ]; lra.
Qed.

(** X2.  [replace_with_thresholds] never changes a row whose value lies
    between the first and the third quartile of the column: the row is at
    the same position, unchanged, in the frame after the call. *)
Theorem interquartile_rows_untouched (h : gmap loc DataFrame) (l : loc)
  (df : DataFrame) (v : variable) (i : nat) (r : TransactionLine) (x a b : Q) :
  h !! l = Some df ->
  nth_error (rows df) i = Some r -> cell v r = Some x ->
  quantile (getitem df v) (1 # 4) = Some a ->
  quantile (getitem df v) (3 # 4) = Some b ->
  (a <= x <= b)%Q ->
  exists df',
    snd (replace_with_thresholds l v h) !! l = Some df'
    /\ nth_error (rows df') i = Some r.
Proof.
  intros Hl Hi Hx Ha Hb Hrange.
  rewrite (replace_with_thresholds_run _ _ _ _ Hl). cbn [snd].
  eexists. split; [ apply lookup_insert_eq |].
  rewrite rows_clipped. unfold SpecPreprocess.clip.
  rewrite nth_error_map, Hi. cbn [option_map]. f_equal.
  fold (getitem df v).
  destruct (fences_some (getitem df v) x) as [lo [hi [Hlo Hhi]]].
  { rewrite <- Hx. apply in_map. eapply nth_error_In, Hi. }
  destruct (quartiles_inside_fences _ _ _ _ _ Ha Hb Hlo Hhi) as [H1 [H2 H3]].
  rewrite Hlo, Hhi, Hx.
  unfold SpecPreprocess.clamp, fgt, flt.
  assert (Qlt_bool x lo = false) as -> by (apply Qlt_bool_false_iff; lra).
  assert (Qlt_bool hi x = false) as -> by (apply Qlt_bool_false_iff; lra).
  rewrite <- Hx. apply set_cell_same.
Qed.

Lemma interquartile_rows_untouched_witness :
  exists df',
    snd (replace_with_thresholds 1%positive col_Quantity raw_heap) !! 1%positive
    = Some df'
    /\ nth_error (rows df') 4 = Some (line "536367" 2 2 13047 (datetime 2011 12 4)).
Proof.
  eapply (interquartile_rows_untouched raw_heap 1%positive
            (mkFrame raw_table None) col_Quantity 4 _ 2).
  - reflexivity.
  - reflexivity.
  - reflexivity.
  - vm_compute; reflexivity.
  - vm_compute; reflexivity.
  - split; vm_compute; discriminate.
Defined.

(** X3.  The reference that [data_preprocess] returns is new: it was
    not in the heap before the call, and it is the only reference the call
    adds. *)
Theorem data_preprocess_returns_fresh (h : gmap loc DataFrame) (l : loc)
  (df : DataFrame) :
  h !! l = Some df ->
  exists l' h',
    data_preprocess l h = (l', h')
    /\ h !! l' = None
    /\ dom h' = {[ l' ]} ∪ dom h.
Proof.
  intros Hl.
  rewrite (data_preprocess_run _ _ _ Hl).
  eexists _, _. split; [ reflexivity |].
  pose proof (is_fresh (dom (<[l := dropna df]> h))) as Hfresh.
  assert (l ∈ dom h) as Hdom by (apply elem_of_dom; eauto).
  split.
  - apply not_elem_of_dom. intros Hin. apply Hfresh.
    eapply elem_of_weaken; [ exact Hin | apply dom_insert_subseteq ].
  - rewrite !dom_insert_L. f_equal.
    apply subseteq_union_1_L, singleton_subseteq_l, Hdom.
Qed.

Lemma data_preprocess_returns_fresh_witness :
  exists l' h',
    data_preprocess 1%positive raw_heap = (l', h')
    /\ raw_heap !! l' = None
    /\ dom h' = {[ l' ]} ∪ dom raw_heap.
Proof.
  apply (data_preprocess_returns_fresh raw_heap 1%positive
           (mkFrame raw_table None)).
  reflexivity.
Defined.

Lemma filter_filter_and {A : Type} (f g : A -> bool) (l : list A) :
  filter g (filter f l) = filter (fun x => f x && g x) l.
Proof.
  induction l as [| x l IH]; simpl; [ reflexivity |].
  destruct (f x); simpl; [ destruct (g x); simpl; congruence | exact IH ].
Qed.

Lemma identity_columns_set_cell (v : variable) (x : float) (r : TransactionLine) :
  identity_columns (set_cell v x r) = identity_columns r.
Proof. destruct v; reflexivity. Qed.

Lemma identity_columns_clip (v : variable) (t : list TransactionLine) :
  map identity_columns (SpecPreprocess.clip v t) = map identity_columns t.
Proof.
  unfold SpecPreprocess.clip. rewrite map_map.
  apply map_ext. intros r. apply identity_columns_set_cell.
Qed.

(** X4.  On a raw table [data_preprocess] returns one row for each row
    that has no null cell and no ["C"] in its invoice identifier, in the
    same order; it never changes the invoice identifier, stock code,
    description, invoice date, customer identifier or country of a row. *)
Theorem data_preprocess_keeps_identity (h : gmap loc DataFrame) (l : loc)
  (t : list TransactionLine) :
  h !! l = Some (mkFrame t None) ->
  exists l' h' out,
    data_preprocess l h = (l', h') /\ h' !! l' = Some out
    /\ map identity_columns (rows out)
       = map identity_columns
           (filter (fun r => negb (line_has_null r)
                             && negb (str_contains "C" false (InvoiceNo r))) t)
    /\ (List.length (rows out) <= List.length t)%nat.
Proof.
  intros Hl.
  rewrite (data_preprocess_run _ _ _ Hl).
  eexists _, _, _. split; [ reflexivity |].
  split; [ apply lookup_insert_eq |].
  rewrite preprocessed_raw. cbn [rows SpecPreprocess.preprocess].
  unfold SpecPreprocess.cleaned.
  assert (SpecPreprocess.filtered t
          = filter (fun r => negb (line_has_null r)
                             && negb (str_contains "C" false (InvoiceNo r))) t)
    as Hf by apply filter_filter_and.
  split.
  - rewrite !identity_columns_clip, Hf. reflexivity.
  - rewrite <- (length_map identity_columns), !identity_columns_clip,
      length_map, Hf.
    apply filter_length_le.
Qed.

Lemma data_preprocess_keeps_identity_witness :
  exists l' h' out,
    data_preprocess 1%positive raw_heap = (l', h') /\ h' !! l' = Some out
    /\ map identity_columns (rows out)
       = map identity_columns
           (filter (fun r => negb (line_has_null r)
                             && negb (str_contains "C" false (InvoiceNo r)))
                   raw_table)
    /\ (List.length (rows out) <= List.length raw_table)%nat.
Proof.
  apply (data_preprocess_keeps_identity raw_heap 1%positive raw_table).
  reflexivity.
Defined.

Lemma mul_series_present (ls : list TransactionLine) :
  Forall (fun r => line_has_null r = false) ls ->
  Forall (fun c => is_null c = false) (map SpecPreprocess.lineTotal ls).
Proof.
  induction 1 as [| r ls Hr Hls IH]; simpl; constructor; [| exact IH ].
  destruct (line_has_null_cell col_Quantity r Hr) as [q Hq].
  destruct (line_has_null_cell col_UnitPrice r Hr) as [p0 Hp].
  simpl in Hq, Hp. unfold SpecPreprocess.lineTotal. rewrite Hq, Hp.
  reflexivity.
Qed.

Lemma TotalPrice_preprocessed (df : DataFrame) :
  TotalPrice (preprocessed df)
  = Some (map SpecPreprocess.lineTotal (rows (preprocessed df))).
Proof.
  unfold preprocessed, setitem_TotalPrice. cbn [TotalPrice rows].
  unfold getitem. rewrite mul_series_columns. reflexivity.
Qed.

(** X5.  Whatever frame it is given, [data_preprocess] returns a frame
    without any missing cell: no row has a null field, and the
    [TotalPrice] column is there, one value per row, none of them NaN. *)
Theorem data_preprocess_output_complete (h : gmap loc DataFrame) (l : loc)
  (df : DataFrame) :
  h !! l = Some df ->
  exists l' h' out col,
    data_preprocess l h = (l', h') /\ h' !! l' = Some out
    /\ Forall (fun r => line_has_null r = false) (rows out)
    /\ TotalPrice out = Some col
    /\ List.length col = List.length (rows out)
    /\ Forall (fun c => is_null c = false) col.
Proof.
  intros Hl.
  rewrite (data_preprocess_run _ _ _ Hl).
  eexists _, _, _, _. split; [ reflexivity |].
  split; [ apply lookup_insert_eq |].
  assert (Forall (fun r => line_has_null r = false) (rows (preprocessed df)))
    as Hnn.
  { rewrite rows_preprocessed.
    apply clip_no_null, clip_no_null.
    rewrite Forall_forall. intros r Hin.
    apply filter_In in Hin. destruct Hin as [Hin _].
    pose proof (dropna_no_null df) as H.
    rewrite Forall_forall in H. auto. }
  split; [ exact Hnn |].
  split; [ apply TotalPrice_preprocessed |].
  split; [ apply length_map |].
  apply mul_series_present, Hnn.
Qed.

Lemma data_preprocess_output_complete_witness :
  exists l' h' out col,
    data_preprocess 1%positive raw_heap = (l', h') /\ h' !! l' = Some out
    /\ Forall (fun r => line_has_null r = false) (rows out)
    /\ TotalPrice out = Some col
    /\ List.length col = List.length (rows out)
    /\ Forall (fun c => is_null c = false) col.
Proof.
  apply (data_preprocess_output_complete raw_heap 1%positive
           (mkFrame raw_table None)).
  reflexivity.
Defined.

(* ===================================================================== *)
(** ** Further properties of the script                                   *)
(* ===================================================================== *)

(** X6.  The script works on a copy (line 29): when it ends, the frame
    that was loaded is still in the heap as it was, null rows included,
    and the result is the segmentation of the cleaned copy. *)
Theorem script_keeps_loaded_frame (h : gmap loc DataFrame) (df_ : loc)
  (frame : DataFrame) :
  h !! df_ = Some frame ->
  snd (script df_ h) !! df_ = Some frame
  /\ exists cs,
       as_cleaned (preprocessed frame) = Some cs
       /\ fst (script df_ h) = create_segment_dataframe cs.
Proof.
  intros Hl.
  unfold script, copy, bind, deref, alloc. cbv beta iota zeta.
  rewrite (lookup_total_correct _ _ _ Hl).
  set (l1 := fresh (dom h)).
  set (h1 := <[l1 := frame]> h).
  assert (h1 !! l1 = Some frame) as Hl1 by apply lookup_insert_eq.
  assert (l1 <> df_) as Hne.
  { intros Heq. apply (is_fresh (dom h)). fold l1. rewrite Heq.
    apply elem_of_dom. eauto. }
  split.
  - unfold main, bind, deref, ret.
    rewrite (data_preprocess_run _ _ _ Hl1). cbv beta iota zeta. cbn [snd].
    rewrite lookup_insert_ne.
    + rewrite lookup_insert_ne by exact Hne.
      subst h1. rewrite lookup_insert_ne by exact Hne. exact Hl.
    + intros Heq.
      apply (is_fresh (dom (<[l1 := dropna frame]> h1))).
      rewrite Heq. apply elem_of_dom.
      rewrite lookup_insert_ne by exact Hne.
      subst h1. rewrite lookup_insert_ne by exact Hne. eauto.
  - apply (main_runs h1 l1 frame Hl1).
Qed.

Lemma script_keeps_loaded_frame_witness :
  snd (script 1%positive raw_heap) !! 1%positive = Some (mkFrame raw_table None)
  /\ exists cs,
       as_cleaned (preprocessed (mkFrame raw_table None)) = Some cs
       /\ fst (script 1%positive raw_heap) = create_segment_dataframe cs.
Proof.
  apply (script_keeps_loaded_frame raw_heap 1%positive (mkFrame raw_table None)).
  reflexivity.
Defined.

Lemma filter_none {A : Type} (f : A -> bool) (l : list A) :
  (forall x, In x l -> f x = false) -> filter f l = [].
Proof.
  induction l as [| x l IH]; intros H; simpl; [ reflexivity |].
  rewrite (H x) by (left; reflexivity).
  apply IH. intros y Hy. apply H. right. exact Hy.
Qed.

(** X7.  When every row of the raw table has a null cell or is a
    cancellation (in particular when the table is empty), the
    preprocessor returns an empty frame without failing, and the script
    then stops with the [ValueError] of the first [qcut]. *)
Theorem script_fails_when_nothing_is_left (h : gmap loc DataFrame) (l : loc)
  (t : list TransactionLine) :
  h !! l = Some (mkFrame t None) ->
  (forall r, In r t ->
     line_has_null r = true \/ str_contains "C" false (InvoiceNo r) = true) ->
  (exists l' h',
     data_preprocess l h = (l', h')
     /\ h' !! l' = Some (mkFrame [] (Some [])))
  /\ fst (main l h) = inl (ValueError "Bin edges must be unique").
Proof.
  intros Hl Hnone.
  assert (SpecPreprocess.preprocess t = mkFrame [] (Some [])) as Hempty.
  { unfold SpecPreprocess.preprocess, SpecPreprocess.cleaned.
    assert (SpecPreprocess.filtered t = []) as ->; [| reflexivity ].
    unfold SpecPreprocess.filtered, SpecPreprocess.drop_cancellations,
      SpecPreprocess.drop_null_rows.
    rewrite filter_filter_and. apply filter_none.
    intros r Hr. destruct (Hnone r Hr) as [-> | ->]; [ reflexivity |].
    apply andb_false_r. }
  split.
  - rewrite (data_preprocess_run _ _ _ Hl).
    eexists _, _. split; [ reflexivity |].
    rewrite lookup_insert_eq, preprocessed_raw, Hempty. reflexivity.
  - destruct (main_runs h l _ Hl) as [cs [Hcs ->]].
    rewrite preprocessed_raw, Hempty in Hcs.
    injection Hcs as <-. reflexivity.
Qed.

Lemma script_fails_when_nothing_is_left_witness :
  fst (main 1%positive
         {[ 1%positive := mkFrame [line "C536379" (-5) 2 17850 0] None ]})
  = inl (ValueError "Bin edges must be unique").
Proof.
  refine (proj2 (script_fails_when_nothing_is_left
                   {[ 1%positive := mkFrame [line "C536379" (-5) 2 17850 0] None ]}
                   1%positive [line "C536379" (-5) 2 17850 0] _ _)).
  - reflexivity.
  - intros r [<- | []]. right. reflexivity.
Defined.

(* ===================================================================== *)
(** ** Further properties of the aggregator                               *)
(* ===================================================================== *)

Section AggregatorExtras.

Open Scope Q_scope.
Open Scope list_scope.

Lemma sorted_map_filter {A : Type} (f : A -> Q) (p : A -> bool) (l : list A) :
  StronglySorted Qlt (map f l) -> StronglySorted Qlt (map f (filter p l)).
Proof.
  induction l as [| a l IH]; simpl; intros Hs; [ constructor |].
  inversion_clear Hs as [| ? ? Hl Ha].
  destruct (p a); simpl; [| apply IH, Hl ].
  constructor; [ apply IH, Hl |].
  rewrite Forall_forall in *. intros y Hy.
  apply in_map_iff in Hy. destruct Hy as [b [<- Hb]].
  apply filter_In in Hb. apply Ha, in_map, Hb.
Qed.

Lemma customer_groupby_agg (t : list CleanedLine) :
  map customer (groupby_agg t) = groupby_keys t.
Proof.
  unfold groupby_agg. rewrite map_map. apply map_id.
Qed.

Lemma customer_order_aggregate (t : list CleanedLine) :
  StronglySorted Qlt (map customer (aggregate t)).
Proof.
  apply sorted_map_filter.
  rewrite customer_groupby_agg. apply groupby_keys_strict.
Qed.

Lemma customer_order_out (t : list CleanedLine) (out : list ScoredCustomer) :
  create_segment_dataframe t = inr out ->
  StronglySorted Qlt (map (fun s => customer (metrics s)) out).
Proof.
  intros Hout. unfold create_segment_dataframe in Hout.
  apply score_metrics in Hout.
  pose proof (customer_order_aggregate t) as H.
  rewrite <- Hout, map_map in H. exact H.
Qed.

(** X8.  The records come out in strictly ascending order of customer
    identifier, before and after the filter of line 148 and in the
    returned frame; in particular no identifier occurs twice. *)
Theorem records_in_customer_order (t : list CleanedLine) :
  StronglySorted Qlt (map customer (groupby_agg t))
  /\ StronglySorted Qlt (map customer (aggregate t))
  /\ forall out, create_segment_dataframe t = inr out ->
       StronglySorted Qlt (map (fun s => customer (metrics s)) out).
Proof.
  split; [ rewrite customer_groupby_agg; apply groupby_keys_strict |].
  split; [ apply customer_order_aggregate |].
  intros out. apply customer_order_out.
Qed.

Lemma records_in_customer_order_witness :
  exists out,
    create_segment_dataframe cleaned_ties = inr out
    /\ StronglySorted Qlt (map (fun s => customer (metrics s)) out).
Proof.
  eexists. split; [ vm_compute; reflexivity |].
  eapply (proj2 (proj2 (records_in_customer_order cleaned_ties))).
  vm_compute; reflexivity.
Defined.

(** The cast of a whole number gives that number back. *)
Lemma astype_int_whole (q : Q) (z : Z) : q == inject_Z z -> astype_int q = z.
Proof.
  destruct q as [n d]. unfold Qeq, astype_int. cbn [Qnum Qden inject_Z].
  intros H. replace n with (z * Z.pos d)%Z by lia.
  apply Z.quot_mul. discriminate.
Qed.

Lemma sorted_map_transfer {A : Type} (f : A -> Q) (g : A -> Z) (l : list A) :
  (forall a b, In a l -> In b l -> f a < f b -> (g a < g b)%Z) ->
  StronglySorted Qlt (map f l) -> StronglySorted Z.lt (map g l).
Proof.
  induction l as [| a l IH]; simpl; intros Hfg Hs; [ constructor |].
  inversion_clear Hs as [| ? ? Hl Ha].
  constructor.
  - apply IH; [| exact Hl ].
    intros x y Hx Hy. apply Hfg; right; assumption.
  - rewrite Forall_forall in *. intros z Hz.
    apply in_map_iff in Hz. destruct Hz as [b [<- Hb]].
    apply Hfg; [ left; reflexivity | right; exact Hb |].
    apply Ha, in_map, Hb.
Qed.

(** X9.  When every customer identifier of the cleaned table is a whole
    number, the cast of line 175 loses nothing: the index of a row is its
    customer identifier, and the index is strictly ascending, so it has no
    duplicate. *)
Theorem integer_index (t : list CleanedLine) (out : list ScoredCustomer) :
  (forall line, In line t -> exists z, cCustomerID line == inject_Z z) ->
  create_segment_dataframe t = inr out ->
  (forall s, In s out -> inject_Z (index s) == customer (metrics s))
  /\ StronglySorted Z.lt (map index out).
Proof.
  intros Hwhole Hout.
  assert (forall s, In s out -> inject_Z (index s) == customer (metrics s))
    as Hidx.
  { intros s Hs.
    pose proof Hout as Hrun. unfold create_segment_dataframe in Hrun.
    destruct (score_index _ _ s Hrun Hs) as [-> _].
    assert (In (metrics s) (aggregate t)) as Hm.
    { rewrite <- (score_metrics _ _ Hrun). apply in_map, Hs. }
    apply in_aggregate in Hm. destruct Hm as [Hm _].
    apply in_groupby_agg in Hm. destruct Hm as [k [Hk ->]].
    cbn [customer agg].
    destruct (groupby_keys_sound t k Hk) as [line [Hline <-]].
    destruct (Hwhole line Hline) as [z Hz].
    rewrite (astype_int_whole _ z Hz). symmetry. exact Hz. }
  split; [ exact Hidx |].
  apply (sorted_map_transfer (fun s => customer (metrics s))).
  - intros a b Ha Hb Hlt.
    rewrite <- (Hidx a Ha), <- (Hidx b Hb) in Hlt.
    rewrite <- Zlt_Qlt in Hlt. exact Hlt.
  - apply (customer_order_out t), Hout.
Qed.

Lemma integer_index_witness :
  exists out,
    create_segment_dataframe cleaned_ties = inr out
    /\ StronglySorted Z.lt (map index out).
Proof.
  eexists. split; [ vm_compute; reflexivity |].
  refine (proj2 (integer_index cleaned_ties _ _ _)).
  - intros line Hline.
    repeat (destruct Hline as [<- | Hline];
            [ eexists; unfold Qeq; simpl; reflexivity |]).
    destruct Hline.
  - vm_compute; reflexivity.
Defined.

Lemma unique_str_length (l : list string) :
  (List.length (unique_str l) <= List.length l)%nat.
Proof.
  induction l as [| x l IH]; simpl; [ lia |].
  pose proof (filter_length_le (fun y => negb (String.eqb x y)) (unique_str l)).
  lia.
Qed.

(** X10.  Every record has a Frequency of at least 1 and at most the
    number of lines of its customer. *)
Theorem frequency_bounds (t : list CleanedLine) (r : CustomerRecord) :
  In r (groupby_agg t) ->
  (1 <= Frequency r
   <= Z.of_nat (List.length (group t (customer r))))%Z.
Proof.
  intros Hr. apply in_groupby_agg in Hr. destruct Hr as [k [Hk ->]].
  cbn [Frequency customer agg]. unfold nunique.
  pose proof (group_nonempty t k Hk) as Hne.
  pose proof (unique_str_length (map cInvoiceNo (group t k))) as Hle.
  rewrite length_map in Hle.
  destruct (group t k) as [| line g]; [ congruence |].
  simpl in *. lia.
Qed.

Lemma frequency_bounds_witness :
  (1 <= 1 <= Z.of_nat (List.length (group cleaned_ties 12431)))%Z.
Proof.
  apply (frequency_bounds cleaned_ties
           (mkRecord 12431 1 1 10)).
  vm_compute. left. reflexivity.
Defined.

End AggregatorExtras.

Section Partition.

Open Scope Q_scope.
Open Scope list_scope.

(** Among strictly ascending keys exactly one takes a given line. *)
Lemma one_group_gains (ks : list Q) (line : CleanedLine)
  (G : Q -> list CleanedLine) :
  StronglySorted Qlt ks -> (exists k, In k ks /\ k == cCustomerID line) ->
  Permutation
    (List.concat (map (fun k => if Qeq_bool (cCustomerID line) k
                           then line :: G k else G k) ks))
    (line :: List.concat (map G ks)).
Proof.
  induction 1 as [| k0 ks Hs IH Hall]; intros [k [Hk Hkc]]; [ destruct Hk |].
  cbn [map List.concat]. rewrite Forall_forall in Hall.
  destruct (Qeq_bool (cCustomerID line) k0) eqn:E.
  - apply Qeq_bool_iff in E.
    assert (map (fun k' => if Qeq_bool (cCustomerID line) k'
                           then line :: G k' else G k') ks = map G ks) as ->.
    { apply map_ext_in. intros k' Hk'. specialize (Hall k' Hk').
      destruct (Qeq_bool (cCustomerID line) k') eqn:E'; [| reflexivity ].
      apply Qeq_bool_iff in E'. lra. }
    apply Permutation_refl.
  - apply Qeq_bool_neq in E.
    eapply Permutation_trans; [ apply Permutation_app_head, IH |].
    + destruct Hk as [<- | Hk]; [| eauto ].
      exfalso. apply E. symmetry. exact Hkc.
    + apply Permutation_sym, Permutation_middle.
Qed.

Lemma groups_of_keys (ks : list Q) (t : list CleanedLine) :
  StronglySorted Qlt ks ->
  (forall line, In line t -> exists k, In k ks /\ k == cCustomerID line) ->
  Permutation (List.concat (map (group t) ks)) t.
Proof.
  intros Hs. induction t as [| line t IH]; intros Hcover.
  - clear. induction ks as [| k ks IH]; [ constructor | exact IH ].
  - eapply Permutation_trans;
      [ apply (one_group_gains ks line (group t) Hs) | apply perm_skip, IH ].
    + apply Hcover. left. reflexivity.
    + intros l' Hl'. apply Hcover. right. exact Hl'.
Qed.

(** X11.  Grouping loses no line and counts none twice: the groups of all
    the customers, taken in the order of the records of lines 141-145,
    hold the lines of the cleaned table, each exactly once. *)
Theorem groups_partition_lines (t : list CleanedLine) :
  Permutation (List.concat (map (group t) (groupby_keys t))) t.
Proof.
  apply groups_of_keys.
  - apply groupby_keys_strict.
  - apply groupby_keys_complete.
Qed.

End Partition.

(* ===================================================================== *)
(** ** Further properties of the segmenter                                *)
(* ===================================================================== *)

Section SegmenterExtras.

Open Scope Z_scope.
Open Scope list_scope.

Lemma rank_first_from_integers (all before l : list Z) :
  exists zs, rank_first_from all before l = map inject_Z zs.
Proof.
  revert before. induction l as [| x l IH]; intros before.
  - exists []. reflexivity.
  - destruct (IH (x :: before)) as [zs Hzs].
    eexists (_ :: zs). cbn [rank_first_from map]. rewrite Hzs. reflexivity.
Qed.

Lemma inject_Z_eq (a b : Z) : inject_Z a = inject_Z b -> a = b.
Proof. intros H. injection H as H. exact H. Qed.

(** X12.  The first-seen ranks of [n] frequencies are the integers 1 to
    [n], each taken once. *)
Theorem rank_first_is_permutation (l : list Z) :
  exists zs,
    rank_first l = map inject_Z zs
    /\ Permutation zs (map Z.of_nat (seq 1 (List.length l))).
Proof.
  destruct (rank_first_from_integers l [] l) as [zs Hzs].
  fold (rank_first l) in Hzs.
  exists zs. split; [ exact Hzs |].
  assert (List.length zs = List.length l) as Hlen.
  { rewrite <- (rank_first_length l), Hzs, length_map. reflexivity. }
  assert (forall i z, nth_error zs i = Some z ->
            exists x, nth_error l i = Some x
                      /\ z = rankZ l (firstn i l) x) as Hnth.
  { intros i z Hz.
    assert (nth_error (rank_first l) i = Some (inject_Z z)) as Hr
      by (rewrite Hzs, nth_error_map, Hz; reflexivity).
    destruct (rank_first_nth_inv l i _ Hr) as [x [Hx Heq]].
    exists x. split; [ exact Hx | apply inject_Z_eq, Heq ]. }
  apply NoDup_Permutation_bis.
  - apply NoDup_nth_error. intros i j Hi Heq.
    destruct (nth_error zs i) as [z |] eqn:Hz;
      [| apply nth_error_None in Hz; lia ].
    symmetry in Heq.
    destruct (Hnth i z Hz) as [x [Hx ->]].
    destruct (Hnth j _ Heq) as [y [Hy Hrank]].
    destruct (Nat.lt_trichotomy i j) as [Hlt | [-> | Hlt]];
      [ exfalso | reflexivity | exfalso ].
    + apply (rank_ne l i j x y Hx Hy Hlt). exact Hrank.
    + apply (rank_ne l j i y x Hy Hx Hlt). symmetry. exact Hrank.
  - rewrite length_map, length_seq. lia.
  - intros z Hz. destruct (In_nth_error _ _ Hz) as [i Hi].
    destruct (Hnth i z Hi) as [x [Hx ->]].
    pose proof (rank_bounds l i x Hx) as Hb.
    apply in_map_iff. exists (Z.to_nat (rankZ l (firstn i l) x)).
    split; [ lia |]. apply in_seq. lia.
Qed.

(** X13.  Recency counts whole elapsed days up to midnight of
    2011-12-11: when the latest invoice of a customer is [secs] seconds
    into the day number [day] (days since 1970-01-01), Recency is
    [15319 - day], less one when [secs] is not zero.  A purchase made
    during 2011-12-10 gives Recency 0. *)
Theorem recency_whole_days (t : list CleanedLine) (r : CustomerRecord)
  (day secs : Z) :
  In r (groupby_agg t) ->
  is_max (day * 86400 + secs) (map cInvoiceDate (group t (customer r))) ->
  0 <= secs < 86400 ->
  Recency r = 15319 - day - (if secs =? 0 then 0 else 1).
Proof.
  intros Hr [Hin Hmax] Hsecs.
  apply in_groupby_agg in Hr. destruct Hr as [k [Hk ->]].
  cbn [customer Recency agg] in *.
  assert (map cInvoiceDate (group t k) <> []) as Hne.
  { pose proof (group_nonempty t k Hk).
    destruct (group t k); [ congruence | discriminate ]. }
  destruct (series_max_is_max _ Hne) as [Hin' Hmax'].
  assert (series_max (map cInvoiceDate (group t k)) = day * 86400 + secs)
    as -> by (apply Z.le_antisymm; auto).
  unfold days. change todays_date with (15319 * 86400).
  destruct (Z.eqb_spec secs 0) as [-> | Hnz];
    Z.div_mod_to_equations; lia.
Qed.

Lemma recency_whole_days_witness :
  Recency (mkRecord 12431 0 1 10) = 15319 - 15318 - (if 45000 =? 0 then 0 else 1).
Proof.
  apply (recency_whole_days
           [purchase "536370" (datetime 2011 12 10 + 45000) 12431 10]).
  - vm_compute. left. reflexivity.
  - split.
    + vm_compute. left. reflexivity.
    + intros d Hd. vm_compute in Hd. destruct Hd as [<- | []]. lia.
  - lia.
Defined.

Lemma segment_is_a_name (r f : Z) :
  1 <= r <= 5 -> 1 <= f <= 5 ->
  In (CustomerSegment_of (RF_Score_of (Some r) (Some f))) (map snd segment_map).
Proof.
  intros Hr Hf.
  destruct (small_range r Hr) as [-> | [-> | [-> | [-> | ->]]]];
    destruct (small_range f Hf) as [-> | [-> | [-> | [-> | ->]]]];
    vm_compute; tauto.
Qed.

(** X14.  In the returned frame every customer has one of the ten
    segment names: no row keeps its RF code as segment. *)
Theorem every_row_has_a_segment (t : list CleanedLine)
  (out : list ScoredCustomer) (s : ScoredCustomer) :
  create_segment_dataframe t = inr out -> In s out ->
  In (CustomerSegment s) (map snd segment_map).
Proof.
  intros Hout Hs. unfold create_segment_dataframe in Hout.
  destruct (score_range _ _ Hout s Hs)
    as [r [f [m [Hr [Hf [_ [Rr [Rf _]]]]]]]].
  destruct (score_index _ _ s Hout Hs) as [_ [Hcode ->]].
  rewrite Hcode, Hr, Hf. apply segment_is_a_name; assumption.
Qed.

Lemma every_row_has_a_segment_witness :
  In "Champion" (map snd segment_map).
Proof.
  refine (every_row_has_a_segment cleaned_zero _
            (mkScored 17850 (mkRecord 17850 1 1 10) (Some 5) (Some 5) (Some 1)
               "55" "Champion") _ _).
  - vm_compute; reflexivity.
  - right. left. reflexivity.
Defined.

(** X15.  When the number [n] of scored customers is a multiple of 5,
    each of the five values of [FrequencyScore] is held by exactly [n/5]
    customers. *)
Theorem frequency_groups_equal (t : list CleanedLine)
  (out : list ScoredCustomer) (b : Z) :
  create_segment_dataframe t = inr out ->
  Z.of_nat (List.length out) mod 5 = 0 -> 1 <= b <= 5 ->
  count_if (fun s => has_score (FrequencyScore s) b) out
  = Z.of_nat (List.length out) / 5.
Proof.
  intros Hout Hmod Hb. unfold create_segment_dataframe in Hout.
  destruct (score_columns _ _ Hout)
    as [rs [fs [ms [_ [Hf [_ [_ [Efs [_ Hlen]]]]]]]]].
  rewrite count_scores, Efs.
  pose proof (qcut_direct_sizes _ _ b (rank_first_distinct _) Hf Hb) as H.
  cbv zeta in H. rewrite rank_first_length, length_map, <- Hlen in H.
  revert H Hmod. generalize (Z.of_nat (List.length out)). intros n H Hmod.
  assert ((n + 4) / 5 = n / 5) by (Z.div_mod_to_equations; lia).
  lia.
Qed.

Lemma frequency_groups_equal_witness :
  exists out,
    create_segment_dataframe cleaned_ties = inr out
    /\ count_if (fun s => has_score (FrequencyScore s) 3) out
       = Z.of_nat (List.length out) / 5.
Proof.
  eexists. split; [ vm_compute; reflexivity |].
  refine (frequency_groups_equal cleaned_ties _ 3 _ _ _).
  - vm_compute; reflexivity.
  - reflexivity.
  - lia.
Defined.

End SegmenterExtras.

(* ===================================================================== *)
(** ** Further properties of the RF code and of the segment map           *)
(* ===================================================================== *)

Section SegmentMapExtras.

Open Scope Z_scope.
Open Scope list_scope.

(** X16.  The RF code determines the two scores: different pairs of
    scores between 1 and 5 have different codes. *)
Theorem rf_code_injective (r f r' f' : Z) :
  1 <= r <= 5 -> 1 <= f <= 5 -> 1 <= r' <= 5 -> 1 <= f' <= 5 ->
  RF_Score_of (Some r) (Some f) = RF_Score_of (Some r') (Some f') ->
  r = r' /\ f = f'.
Proof.
  intros Hr Hf Hr' Hf'.
  destruct (small_range r Hr) as [-> | [-> | [-> | [-> | ->]]]];
    destruct (small_range f Hf) as [-> | [-> | [-> | [-> | ->]]]];
    destruct (small_range r' Hr') as [-> | [-> | [-> | [-> | ->]]]];
    destruct (small_range f' Hf') as [-> | [-> | [-> | [-> | ->]]]];
    intros H; first [ split; reflexivity | discriminate H ].
Qed.

Lemma rf_code_injective_witness :
  RF_Score_of (Some 5) (Some 1) = "51"%string /\ (5 = 5 /\ 1 = 1).
Proof.
  split; [ reflexivity |].
  apply (rf_code_injective 5 1 5 1); [ lia | lia | lia | lia | reflexivity ].
Defined.

(** One pass of [Series.replace] over the rules, on a cell whose
    original value is [s] and whose current value is [cur]. *)
Lemma replace_regex_no_match (d : list (string * string)) (s cur : string) :
  (forall kv, In kv d -> Re.search (Re.compile (fst kv)) s = false) ->
  fold_left
    (fun c kv =>
       if Re.search (Re.compile (fst kv)) s
       then Re.sub (Re.compile (fst kv)) (snd kv) c else c) d cur
  = cur.
Proof.
  revert cur. induction d as [| kv d IH]; intros cur H; [ reflexivity |].
  cbn [fold_left]. rewrite (H kv) by (left; reflexivity).
  apply IH. intros kv' Hkv'. apply H. right. exact Hkv'.
Qed.

Lemma replace_regex_single (d : list (string * string)) (s cur : string)
  (kv : string * string) :
  NoDup d -> In kv d ->
  Re.search (Re.compile (fst kv)) s = true ->
  (forall kv', In kv' d -> Re.search (Re.compile (fst kv')) s = true ->
               kv' = kv) ->
  fold_left
    (fun c kv =>
       if Re.search (Re.compile (fst kv)) s
       then Re.sub (Re.compile (fst kv)) (snd kv) c else c) d cur
  = Re.sub (Re.compile (fst kv)) (snd kv) cur.
Proof.
  revert cur. induction d as [| kv0 d IH]; intros cur Hnd Hin Hkv Honly;
    [ destruct Hin |].
  inversion_clear Hnd as [| ? ? Hnotin Hnd'].
  cbn [fold_left].
  destruct (Re.search (Re.compile (fst kv0)) s) eqn:E.
  - assert (kv0 = kv) as -> by (apply Honly; [ left; reflexivity | exact E ]).
    apply replace_regex_no_match.
    intros kv' Hkv'.
    destruct (Re.search (Re.compile (fst kv')) s) eqn:E'; [| reflexivity ].
    exfalso. apply Hnotin.
    rewrite <- (Honly kv' (or_intror Hkv') E'). exact Hkv'.
  - destruct Hin as [-> | Hin]; [ congruence |].
    apply IH; try assumption.
    intros kv' Hkv'. apply Honly. right. exact Hkv'.
Qed.

Lemma single_match_of_filter {A : Type} (P : A -> bool) (d : list A) (kv : A) :
  filter P d = [kv] ->
  In kv d /\ P kv = true /\ forall kv', In kv' d -> P kv' = true -> kv' = kv.
Proof.
  intros Hf.
  assert (forall x, In x d /\ P x = true <-> x = kv) as Hiff.
  { intros x. rewrite <- filter_In, Hf. simpl. intuition congruence. }
  destruct (proj2 (Hiff kv) eq_refl) as [Hin Hp].
  split; [ exact Hin |]. split; [ exact Hp |].
  intros kv' Hin' Hp'. apply Hiff. auto.
Qed.

(** Exactly one rule of [segment_map] matches a code. *)
Lemma one_rule_matches (r f : Z) :
  1 <= r <= 5 -> 1 <= f <= 5 ->
  exists kv,
    filter (fun kv' => Re.search (Re.compile (fst kv'))
                         (RF_Score_of (Some r) (Some f))) segment_map = [kv]
    /\ Re.sub (Re.compile (fst kv)) (snd kv) (RF_Score_of (Some r) (Some f))
       = CustomerSegment_of (RF_Score_of (Some r) (Some f)).
Proof.
  intros Hr Hf.
  destruct (small_range r Hr) as [-> | [-> | [-> | [-> | ->]]]];
    destruct (small_range f Hf) as [-> | [-> | [-> | [-> | ->]]]];
    eexists; (split; [ vm_compute; reflexivity | vm_compute; reflexivity ]).
Qed.

Lemma segment_map_NoDup : NoDup segment_map.
Proof.
  unfold segment_map.
  repeat (constructor;
          [ cbn [In]; intros H;
            repeat (destruct H as [H | H]; [ discriminate H |]); exact H |]).
  constructor.
Qed.

(** X17.  The patterns of [segment_map] do not overlap on the 25 codes:
    exactly one rule matches each code, so the segment does not depend on
    the order in which the rules are written in the dict. *)
Theorem rule_order_is_irrelevant (d : list (string * string)) (r f : Z) :
  Permutation d segment_map -> 1 <= r <= 5 -> 1 <= f <= 5 ->
  List.length
    (filter (fun kv => Re.search (Re.compile (fst kv))
                         (RF_Score_of (Some r) (Some f))) segment_map) = 1%nat
  /\ replace_regex d (RF_Score_of (Some r) (Some f))
     = CustomerSegment_of (RF_Score_of (Some r) (Some f)).
Proof.
  intros Hperm Hr Hf.
  destruct (one_rule_matches r f Hr Hf) as [kv [Hfilter Hsub]].
  split; [ rewrite Hfilter; reflexivity |].
  destruct (single_match_of_filter _ _ _ Hfilter) as [Hin [Hkv Honly]].
  rewrite <- Hsub. unfold replace_regex.
  apply replace_regex_single.
  - eapply Permutation_NoDup;
      [ apply Permutation_sym, Hperm | apply segment_map_NoDup ].
  - eapply Permutation_in; [ apply Permutation_sym, Hperm | exact Hin ].
  - exact Hkv.
  - intros kv' Hkv'. apply Honly.
    eapply Permutation_in; [ exact Hperm | exact Hkv' ].
Qed.

Lemma rule_order_is_irrelevant_witness :
  replace_regex (rev segment_map) (RF_Score_of (Some 4) (Some 1))
  = CustomerSegment_of (RF_Score_of (Some 4) (Some 1)).
Proof.
  refine (proj2 (rule_order_is_irrelevant (rev segment_map) 4 1 _ _ _)).
  - apply Permutation_sym, Permutation_rev.
  - lia.
  - lia.
Defined.

End SegmentMapExtras.

(* ===================================================================== *)
(** ** The aggregation does not depend on the order of the lines          *)
(* ===================================================================== *)

Section OrderIndependence.

Open Scope Q_scope.
Open Scope list_scope.

Lemma filter_perm {A : Type} (f : A -> bool) (l l' : list A) :
  Permutation l l' -> Permutation (filter f l) (filter f l').
Proof.
  induction 1 as [| x l l' Hp IH | x y l | l l' l'' H1 IH1 H2 IH2]; simpl.
  - constructor.
  - destruct (f x); [ apply perm_skip, IH | exact IH ].
  - destruct (f x), (f y); try apply Permutation_refl. apply perm_swap.
  - eapply Permutation_trans; eassumption.
Qed.

Lemma series_max_perm (l l' : list Z) :
  Permutation l l' -> series_max l = series_max l'.
Proof.
  intros Hp.
  destruct l as [| x l].
  - apply Permutation_nil in Hp. subst l'. reflexivity.
  - assert (l' <> []) as Hne'.
    { intros ->. apply Permutation_sym, Permutation_nil in Hp. discriminate. }
    destruct (series_max_is_max (x :: l)) as [Hin Hmax]; [ discriminate |].
    destruct (series_max_is_max l' Hne') as [Hin' Hmax'].
    apply Z.le_antisymm.
    + apply Hmax'. eapply Permutation_in; eassumption.
    + apply Hmax. eapply Permutation_in; [ apply Permutation_sym |]; eassumption.
Qed.

Lemma nunique_perm (l l' : list string) :
  Permutation l l' -> nunique l = nunique l'.
Proof.
  intros Hp. unfold nunique. f_equal.
  apply Permutation_length, NoDup_Permutation; try apply unique_str_NoDup.
  intros s. rewrite !unique_str_In.
  split; apply Permutation_in; [ exact Hp | apply Permutation_sym, Hp ].
Qed.

(** Two strictly ascending lists with the same values are equal, value
    by value. *)
Lemma strict_sorted_same (l l' : list Q) :
  StronglySorted Qlt l -> StronglySorted Qlt l' ->
  (forall x, (exists y, In y l /\ y == x) <-> (exists y, In y l' /\ y == x)) ->
  Forall2 Qeq l l'.
Proof.
  intros Hs. revert l'.
  induction Hs as [| a l Hs IH Ha]; intros l' Hs' Hsame.
  - destruct l' as [| b l']; [ constructor |].
    destruct (proj2 (Hsame b)) as [y [[] _]].
    exists b. split; [ left; reflexivity | reflexivity ].
  - destruct l' as [| b l'].
    { destruct (proj1 (Hsame a)) as [y [[] _]].
      exists a. split; [ left; reflexivity | reflexivity ]. }
    inversion_clear Hs' as [| ? ? Hs'' Hb].
    rewrite Forall_forall in Ha, Hb.
    assert (a == b) as Hab.
    { apply Qle_antisym.
      - destruct (proj2 (Hsame b)) as [y [Hy Hyb]].
        { exists b. split; [ left; reflexivity | reflexivity ]. }
        destruct Hy as [<- | Hy]; [ lra |]. specialize (Ha y Hy). lra.
      - destruct (proj1 (Hsame a)) as [y [Hy Hya]].
        { exists a. split; [ left; reflexivity | reflexivity ]. }
        destruct Hy as [<- | Hy]; [ lra |]. specialize (Hb y Hy). lra. }
    constructor; [ exact Hab |].
    apply IH; [ exact Hs'' |].
    intros x. split.
    + intros [y [Hy Hyx]].
      destruct (proj1 (Hsame x)) as [y' [Hy' Hyx']].
      { exists y. split; [ right; exact Hy | exact Hyx ]. }
      destruct Hy' as [<- | Hy']; [| eauto ].
      specialize (Ha y Hy). lra.
    + intros [y [Hy Hyx]].
      destruct (proj2 (Hsame x)) as [y' [Hy' Hyx']].
      { exists y. split; [ right; exact Hy | exact Hyx ]. }
      destruct Hy' as [<- | Hy']; [| eauto ].
      specialize (Hb y Hy). lra.
Qed.

Lemma groupby_keys_values (t : list CleanedLine) (x : Q) :
  (exists k, In k (groupby_keys t) /\ k == x)
  <-> (exists line, In line t /\ cCustomerID line == x).
Proof.
  split.
  - intros [k [Hk Hkx]].
    destruct (groupby_keys_sound t k Hk) as [line [Hline Heq]].
    exists line. split; [ exact Hline | rewrite Heq; exact Hkx ].
  - intros [line [Hline Hx]].
    destruct (groupby_keys_complete t line Hline) as [k [Hk Hkl]].
    exists k. split; [ exact Hk | rewrite Hkl; exact Hx ].
Qed.

Lemma Forall2_map_both {A B : Type} (R : A -> A -> Prop) (S : B -> B -> Prop)
  (f g : A -> B) (l l' : list A) :
  (forall a b, R a b -> S (f a) (g b)) ->
  Forall2 R l l' -> Forall2 S (map f l) (map g l').
Proof.
  intros H. induction 1; simpl; constructor; auto.
Qed.

(** X18.  The records of lines 141-145 do not depend on the order of the
    lines of the cleaned table: after any reordering the same customers
    come out, in the same order, with the same Recency and the same
    Frequency. *)
Theorem aggregation_ignores_line_order (t t' : list CleanedLine) :
  Permutation t t' ->
  Forall2 same_recency_frequency (groupby_agg t) (groupby_agg t').
Proof.
  intros Hp. unfold groupby_agg.
  apply (Forall2_map_both Qeq).
  - intros k k' Hkk. unfold same_recency_frequency.
    cbn [customer Recency Frequency agg].
    rewrite <- (group_proper t' k k' Hkk).
    assert (Permutation (group t k) (group t' k)) as Hg
      by (apply filter_perm, Hp).
    split; [ exact Hkk |]. split.
    + f_equal. f_equal. apply series_max_perm, Permutation_map, Hg.
    + apply nunique_perm, Permutation_map, Hg.
  - apply strict_sorted_same; try apply groupby_keys_strict.
    intros x. rewrite !groupby_keys_values.
    split; intros [line [Hline Hx]]; exists line; (split; [| exact Hx ]).
    + eapply Permutation_in; eassumption.
    + eapply Permutation_in; [ apply Permutation_sym |]; eassumption.
Qed.

Lemma aggregation_ignores_line_order_witness :
  Forall2 same_recency_frequency (groupby_agg cleaned_ties)
    (groupby_agg (rev cleaned_ties)).
Proof.
  apply (aggregation_ignores_line_order cleaned_ties (rev cleaned_ties)).
  apply Permutation_rev.
Defined.

End OrderIndependence.

(* ===================================================================== *)
(** ** A frame without nulls is left as it is                             *)
(* ===================================================================== *)

Lemma filter_all {A : Type} (f : A -> bool) (l : list A) :
  (forall x, In x l -> f x = true) -> filter f l = l.
Proof.
  induction l as [| x l IH]; intros H; simpl; [ reflexivity |].
  rewrite (H x) by (left; reflexivity). f_equal.
  apply IH. intros y Hy. apply H. right. exact Hy.
Qed.

(** X19.  The only change that [data_preprocess] makes to the frame it
    is given is the removal of rows with a null cell: a raw frame without
    any null cell is exactly as it was when the function returns, with its
    cancellations and outliers. *)
Theorem null_free_frame_is_unchanged (h : gmap loc DataFrame) (l : loc)
  (t : list TransactionLine) :
  h !! l = Some (mkFrame t None) ->
  (forall r, In r t -> line_has_null r = false) ->
  exists l' h',
    data_preprocess l h = (l', h') /\ h' !! l = Some (mkFrame t None).
Proof.
  intros Hl Hnn.
  rewrite (data_preprocess_run _ _ _ Hl).
  eexists _, _. split; [ reflexivity |].
  rewrite lookup_insert_ne by apply fresh_loc_ne.
  rewrite lookup_insert_eq, dropna_raw.
  unfold SpecPreprocess.drop_null_rows.
  rewrite filter_all; [ reflexivity |].
  intros r Hr. rewrite (Hnn r Hr). reflexivity.
Qed.

Lemma null_free_frame_is_unchanged_witness :
  exists l' h',
    data_preprocess 1%positive
      {[ 1%positive := mkFrame [line "C536379" (-5) 2 17850 0] None ]}
    = (l', h')
    /\ h' !! 1%positive = Some (mkFrame [line "C536379" (-5) 2 17850 0] None).
Proof.
  apply (null_free_frame_is_unchanged
           {[ 1%positive := mkFrame [line "C536379" (-5) 2 17850 0] None ]}
           1%positive [line "C536379" (-5) 2 17850 0]).
  - reflexivity.
  - intros r [<- | []]. reflexivity.
Defined.
